(** * ebay-flipper-2: the scanner of [run.py], embedded and verified

    [run.py] queries the eBay Finding API for active and sold listings,
    estimates the resale profit of each active listing from the median of
    the sold totals, and keeps the listings that pass a profit and a margin
    filter.

    The embedding follows the source function by function:
    - Python [float] is IEEE 754 binary64, modelled by Rocq's primitive
      [float] (same format, same rounding, NaN and infinities included);
    - Python [int] is unbounded, modelled by [Z];
    - a [str] is the [string] of the bytes of its UTF-8 encoding; its
      characters are read off the bytes, [strip] removes the white space
      of Unicode, and [lower], compared only with two ASCII words, acts on
      the ASCII letters;
    - JSON replies are values of [pyval]; a raised exception is a value of
      [exn] carried by the [result] monad;
    - the network and the clock are an explicit world state threaded
      through the calls; a loop that the API can keep running takes fuel.

    The definitions come first, one module per part of [run.py]; the
    facts about them follow, in the same order. *)

From Stdlib Require Import ZArith List Bool String Ascii Lia Floats Permutation
  Sorted.
Import ListNotations.

Set Warnings "-inexact-float,-register-all".

(* ================================================================= *)
(** * Comparisons of floats as Python writes them *)

Module F64.
Open Scope float_scope.

(** Python's [x > y], [x >= y] on floats. *)
Definition gtb (x y : float) : bool := y <? x.
Definition geb (x y : float) : bool := y <=? x.

End F64.

(* ================================================================= *)
(** * Python builtins used by the estimator *)

Module Py.
Open Scope float_scope.

(** ** [round(x, ndigits)] on a float

    CPython rounds the exact binary value of [x] to [ndigits] decimals,
    ties to even, and returns the double nearest to that decimal; NaN,
    infinities and zeros round to themselves. *)

Definition round_half_even_div (a d : Z) : Z :=
  let q := (a / d)%Z in
  let r := (a mod d)%Z in
  match (2 * r ?= d)%Z with
  | Lt => q
  | Gt => (q + 1)%Z
  | Eq => if Z.even q then q else (q + 1)%Z
  end.

(** The double nearest to [(-1)^s * k / 10^ndigits]. *)
Definition decimal_to_float (s : bool) (k : Z) (ndigits : Z) : float :=
  match k with
  | Zpos p =>
      SF2Prim (SFdiv prec emax (S754_finite s p 0)
                 (S754_finite false (Z.to_pos (10 ^ ndigits)) 0))
  | _ => if s then neg_zero else zero
  end.

(** The integer [k] nearest to [m * 2^e * 10^ndigits], ties to even. *)
Definition scaled_digits (m : positive) (e : Z) (ndigits : Z) : Z :=
  let scaled := (Zpos m * 10 ^ ndigits)%Z in
  if (0 <=? e)%Z then (scaled * 2 ^ e)%Z
  else round_half_even_div scaled (2 ^ (- e)).

Definition round_ndigits (x : float) (ndigits : Z) : float :=
  match Prim2SF x with
  | S754_finite s m e => decimal_to_float s (scaled_digits m e ndigits) ndigits
  | _ => x
  end.

(** ** [sorted] and [statistics.median]

    [sorted] is a stable sort that only asks [x < y]: it inserts each
    element after the elements that are not greater, as the binary
    insertion of list.sort does. On a sample of numbers every stable sort
    returns the same list, so [sorted] returns the list CPython returns.
    On a sample that holds a NaN next to other elements the comparisons
    are not an order and the list CPython returns depends on the runs that
    list.sort detects; [sorted] is then one rearrangement of the sample,
    and every fact below that depends on the value of the median is stated
    for samples of numbers. *)

Fixpoint insort (x : float) (l : list float) : list float :=
  match l with
  | [] => [x]
  | y :: l' => if x <? y then x :: l else y :: insort x l'
  end.

Definition sorted (l : list float) : list float :=
  fold_left (fun acc x => insort x acc) l [].

(** [statistics.median(data)]; [None] stands for StatisticsError, raised
    on an empty sample. *)
Definition median (data : list float) : option float :=
  let data := sorted data in
  let n := List.length data in
  if Nat.eqb n 0 then None
  else if Nat.eqb (n mod 2) 1 then nth_error data (n / 2)
  else
    let i := (n / 2)%nat in
    match nth_error data (i - 1), nth_error data i with
    | Some a, Some b => Some ((a + b) / 2)
    | _, _ => None
    end.

End Py.

(* ================================================================= *)
(** * Profitability estimator: [compute_row] *)

Module Estimator.
Import F64 Py.
Open Scope float_scope.

Definition DEFAULT_EBAY_FEE_RATE := 0.128.
Definition DEFAULT_PAYMENT_FEE_RATE := 0.029.
Definition DEFAULT_PAYMENT_FIXED_FEE := 0.30.
Definition DEFAULT_SHIPPING_OUT := 4.50.

Definition MIN_PROFIT_GBP := 25.0.
Definition MIN_MARGIN := 0.25.

(** One element of the list built by [parse_active_items]. *)
Record ActiveListing := {
  active_title : string;
  active_item_id : string;
  active_url : string;
  active_price_gbp : float;
  active_shipping_gbp : float;
  active_buy_price_gbp : float
}.

(** The dictionary returned by [compute_row] on acceptance. *)
Record OpportunityRow := {
  row_keyword : string;
  row_active_title : string;
  row_active_item_id : string;
  row_active_url : string;
  row_active_buy_price_gbp : float;
  row_median_sold_price_gbp : float;
  row_sold_sample_size : nat;
  row_ebay_fee_gbp : float;
  row_payment_fee_gbp : float;
  row_shipping_out_gbp : float;
  row_expected_profit_gbp : float;
  row_margin_percent : float
}.

(** The quantities [compute_row] binds, as functions of what they read. *)
Definition ebay_fee (median_sold ebay_fee_rate : float) : float :=
  median_sold * ebay_fee_rate.

Definition payment_fee (median_sold payment_fee_rate payment_fixed_fee : float)
  : float :=
  median_sold * payment_fee_rate + payment_fixed_fee.

Definition expected_profit
  (median_sold ebay_fee_rate payment_fee_rate payment_fixed_fee
     shipping_out active_buy : float) : float :=
  median_sold - ebay_fee median_sold ebay_fee_rate
  - payment_fee median_sold payment_fee_rate payment_fixed_fee
  - shipping_out - active_buy.

Definition margin (expected_profit active_buy : float) : float :=
  if gtb active_buy 0 then expected_profit / active_buy else -1.0.

Definition compute_row
  (keyword : string) (active : ActiveListing) (sold_totals : list float)
  (ebay_fee_rate payment_fee_rate payment_fixed_fee shipping_out : float)
  : option OpportunityRow :=
  if Nat.eqb (List.length sold_totals) 0 then None
  else
    match median sold_totals with
    | None => None (* StatisticsError: excluded by the test above *)
    | Some median_sold =>
        let ebay_fee := ebay_fee median_sold ebay_fee_rate in
        let payment_fee :=
          payment_fee median_sold payment_fee_rate payment_fixed_fee in
        let active_buy := active_buy_price_gbp active in
        let expected_profit :=
          expected_profit median_sold ebay_fee_rate payment_fee_rate
            payment_fixed_fee shipping_out active_buy in
        let margin := margin expected_profit active_buy in
        if expected_profit <? MIN_PROFIT_GBP then None
        else if margin <? MIN_MARGIN then None
        else
          Some {|
            row_keyword := keyword;
            row_active_title := active_title active;
            row_active_item_id := active_item_id active;
            row_active_url := active_url active;
            row_active_buy_price_gbp := round_ndigits active_buy 2;
            row_median_sold_price_gbp := round_ndigits median_sold 2;
            row_sold_sample_size := List.length sold_totals;
            row_ebay_fee_gbp := round_ndigits ebay_fee 2;
            row_payment_fee_gbp := round_ndigits payment_fee 2;
            row_shipping_out_gbp := round_ndigits shipping_out 2;
            row_expected_profit_gbp := round_ndigits expected_profit 2;
            row_margin_percent := round_ndigits (margin * 100) 1
          |}
    end.

End Estimator.

(* ================================================================= *)
(** * Python values, exceptions, and the operations the parser uses *)

Module PyVal.
Open Scope float_scope.
Open Scope string_scope.

(** A decoded JSON reply. A dictionary keeps its items in a list; a key is
    looked up from the front. *)
Inductive pyval :=
| PNone
| PBool (b : bool)
| PInt (z : Z)
| PFloat (f : float)
| PStr (s : string)
| PList (l : list pyval)
| PDict (d : list (string * pyval)).

Inductive exn :=
| IndexError | KeyError | TypeError | AttributeError | ValueError
| OverflowError | HTTPError | RequestException | RuntimeError.

Inductive result (A : Type) :=
| Ok (a : A)
| Raise (e : exn).
Arguments Ok {A} a.
Arguments Raise {A} e.

Definition bind {A B} (r : result A) (k : A -> result B) : result B :=
  match r with
  | Ok a => k a
  | Raise e => Raise e
  end.

Declare Scope py_scope.
Delimit Scope py_scope with py.
Notation "x <- e ;; k" := (bind e (fun x => k))
  (at level 61, e at next level, right associativity) : py_scope.
Notation "e ;;; k" := (bind e (fun _ => k))
  (at level 61, right associativity) : py_scope.
Open Scope py_scope.

Definition raises {A} (r : result A) : bool :=
  match r with Ok _ => false | Raise _ => true end.

Fixpoint mapM {A B} (f : A -> result B) (l : list A) : result (list B) :=
  match l with
  | [] => Ok []
  | a :: l' => b <- f a ;; bs <- mapM f l' ;; Ok (b :: bs)
  end.

Fixpoint lookup (k : string) (d : list (string * pyval)) : option pyval :=
  match d with
  | [] => None
  | (k', v) :: d' => if String.eqb k k' then Some v else lookup k d'
  end.

(** [v.get(k, default)]: only a dictionary has the method. *)
Definition py_get (v : pyval) (k : string) (default : pyval) : result pyval :=
  match v with
  | PDict d => Ok (match lookup k d with Some x => x | None => default end)
  | _ => Raise AttributeError
  end.

(** ** The characters of a [str]

    A [str] is held as the bytes of its UTF-8 encoding (a lone surrogate is
    encoded like any other code point). In such a string a character is a
    byte that is not a continuation byte, together with the continuation
    bytes that follow it. *)

Definition is_continuation (c : ascii) : bool :=
  let n := nat_of_ascii c in ((128 <=? n) && (n <? 192))%nat.

Definition starts_continued (s : string) : bool :=
  match s with
  | String c _ => is_continuation c
  | EmptyString => false
  end.

(** The characters of a string in order, each one as the string of its
    bytes. *)
Fixpoint characters (s : string) : list string :=
  match s with
  | EmptyString => []
  | String c s' =>
      match characters s' with
      | ch :: rest =>
          if starts_continued s' then String c ch :: rest
          else String c EmptyString :: ch :: rest
      | [] => [String c EmptyString]
      end
  end.

(** ["".join(l)] *)
Definition from_characters (l : list string) : string :=
  fold_right append EmptyString l.

(** The UTF-8 encoding of a code point. *)
Definition utf8 (cp : N) : string :=
  let byte (n : N) := ascii_of_N n in
  let tail (n : N) := byte (128 + n mod 64)%N in
  if (cp <? 128)%N then String (byte cp) EmptyString
  else if (cp <? 2048)%N then
    String (byte (192 + cp / 64)%N) (String (tail cp) EmptyString)
  else if (cp <? 65536)%N then
    String (byte (224 + cp / 4096)%N)
      (String (tail (cp / 64)%N) (String (tail cp) EmptyString))
  else
    String (byte (240 + cp / 262144)%N)
      (String (tail (cp / 4096)%N)
         (String (tail (cp / 64)%N) (String (tail cp) EmptyString))).

(** [v[0]]: the first element of a list, the first character of a string.
    The keys of a decoded JSON object are strings, so a dictionary has no
    key [0]. *)
Definition py_index0 (v : pyval) : result pyval :=
  match v with
  | PList (x :: _) => Ok x
  | PList [] => Raise IndexError
  | PStr s =>
      match characters s with
      | ch :: _ => Ok (PStr ch)
      | [] => Raise IndexError
      end
  | PDict _ => Raise KeyError
  | PNone | PBool _ | PInt _ | PFloat _ => Raise TypeError
  end.

(** Truth value, as [or] and [if] test it. *)
Definition py_truthy (v : pyval) : bool :=
  match v with
  | PNone => false
  | PBool b => b
  | PInt z => negb (Z.eqb z 0)
  | PFloat f => negb (f =? 0)%float
  | PStr s => negb (String.eqb s "")
  | PList l => match l with [] => false | _ => true end
  | PDict d => match d with [] => false | _ => true end
  end.

Definition py_or (v w : pyval) : pyval := if py_truthy v then v else w.

(** The code points for which [str.isspace] holds: the white space of
    ASCII and that of the other Unicode blocks. *)
Definition white_space : list N :=
  [9; 10; 11; 12; 13; 28; 29; 30; 31; 32; 133; 160; 5760;
   8192; 8193; 8194; 8195; 8196; 8197; 8198; 8199; 8200; 8201; 8202;
   8232; 8233; 8239; 8287; 12288]%N.

(** A character that is white space. *)
Definition is_white (ch : string) : bool :=
  existsb (fun cp => String.eqb ch (utf8 cp)) white_space.

(** A byte that is a white space character of ASCII. *)
Definition is_space (c : ascii) : bool :=
  let n := nat_of_ascii c in
  ((9 <=? n) && (n <=? 13) || (28 <=? n) && (n <=? 32))%nat.

Fixpoint drop_white (l : list string) : list string :=
  match l with
  | ch :: l' => if is_white ch then drop_white l' else l
  | [] => []
  end.

(** [s.lstrip()], [s.rstrip()] and [s.strip()] on the characters of a
    string. *)
Definition lstrip (l : list string) : list string := drop_white l.

Definition rstrip (l : list string) : list string :=
  rev (drop_white (rev l)).

Definition strip (s : string) : string :=
  from_characters (rstrip (lstrip (characters s))).

(** [v.strip()] *)
Definition py_strip (v : pyval) : result string :=
  match v with
  | PStr s => Ok (strip s)
  | _ => Raise AttributeError
  end.

(** [str.lower] on the ASCII letters. The result is only compared with
    "success" and "warning", and no string that holds a character outside
    ASCII lowers to one of these two words. *)
Definition lower_ascii (c : ascii) : ascii :=
  let n := nat_of_ascii c in
  if ((65 <=? n) && (n <=? 90))%nat then ascii_of_nat (n + 32) else c.

Fixpoint lower (s : string) : string :=
  match s with
  | EmptyString => EmptyString
  | String c s' => String (lower_ascii c) (lower s')
  end.

(** [v.lower()] *)
Definition py_lower (v : pyval) : result string :=
  match v with
  | PStr s => Ok (lower s)
  | _ => Raise AttributeError
  end.

(** [for x in v]: the elements of a list, the characters of a string, the
    keys of a dictionary. *)
Definition py_iter (v : pyval) : result (list pyval) :=
  match v with
  | PList l => Ok l
  | PStr s => Ok (map PStr (characters s))
  | PDict d => Ok (map (fun kv => PStr (fst kv)) d)
  | PNone | PBool _ | PInt _ | PFloat _ => Raise TypeError
  end.

(** [float(z)] for an integer: the nearest double, OverflowError beyond the
    range. *)
Definition float_of_Z (z : Z) : result float :=
  let f := SF2Prim (binary_normalize prec emax z 0 false) in
  if is_infinity f then Raise OverflowError else Ok f.

(** [int(f)] for a float: truncation towards zero. *)
Definition Z_of_float (f : float) : result Z :=
  match Prim2SF f with
  | S754_nan => Raise ValueError
  | S754_infinity _ => Raise OverflowError
  | S754_zero _ => Ok 0%Z
  | S754_finite s m e =>
      let a := if (0 <=? e)%Z then (Zpos m * 2 ^ e)%Z
               else (Zpos m / 2 ^ (- e))%Z in
      Ok (if s then (- a)%Z else a)
  end.

Section Conversions.
(** Python's parsers of a number written in a string: [float(s)] and
    [int(s)], [None] where they raise ValueError. *)
Variable float_of_str : string -> option float.
Variable int_of_str : string -> option Z.

(** [float(v)] *)
Definition py_float (v : pyval) : result float :=
  match v with
  | PFloat f => Ok f
  | PInt z => float_of_Z z
  | PBool b => Ok (if b then 1 else 0)
  | PStr s =>
      match float_of_str s with
      | Some f => Ok f
      | None => Raise ValueError
      end
  | PNone | PList _ | PDict _ => Raise TypeError
  end.

(** [int(v)] *)
Definition py_int (v : pyval) : result Z :=
  match v with
  | PInt z => Ok z
  | PBool b => Ok (if b then 1 else 0)%Z
  | PFloat f => Z_of_float f
  | PStr s =>
      match int_of_str s with
      | Some z => Ok z
      | None => Raise ValueError
      end
  | PNone | PList _ | PDict _ => Raise TypeError
  end.
End Conversions.

End PyVal.

(* ================================================================= *)
(** * Response parser: [_get_price], [parse_active_items],
      [parse_sold_totals] *)

Module Parser.
Import PyVal Estimator.
Open Scope float_scope.
Open Scope string_scope.
Open Scope py_scope.

Section Parser.
Variable float_of_str : string -> option float.

(** [try: return float(obj.get("__value__")) except Exception: return None] *)
Definition _get_price (obj : pyval) : option float :=
  match (v <- py_get obj "__value__" PNone ;; py_float float_of_str v) with
  | Ok f => Some f
  | Raise _ => None
  end.

(** [(it.get(k, [""])[0] or "").strip()] *)
Definition text_field (it : pyval) (k : string) : result string :=
  x <- py_get it k (PList [PStr ""]) ;;
  y <- py_index0 x ;;
  py_strip (py_or y (PStr "")).

(** [selling.get("currentPrice", [{}])[0]] of
    [it.get("sellingStatus", [{}])[0]], passed to [_get_price]. *)
Definition item_price (it : pyval) : result (option float) :=
  x <- py_get it "sellingStatus" (PList [PDict []]) ;;
  selling <- py_index0 x ;;
  y <- py_get selling "currentPrice" (PList [PDict []]) ;;
  price_obj <- py_index0 y ;;
  Ok (_get_price price_obj).

(** The shipping block shared by both parsers. *)
Definition item_shipping (it : pyval) : result float :=
  x <- py_get it "shippingInfo" (PList [PDict []]) ;;
  ship_info <- py_index0 x ;;
  ship_obj <- py_get ship_info "shippingServiceCost" (PList [PDict []]) ;;
  Ok match ship_obj with
     | PList (first :: _) =>
         match _get_price first with
         | Some ship_val => ship_val
         | None => 0
         end
     | _ => 0
     end.

(** The body of the loop of [parse_active_items]: [Ok None] is
    [continue], [Ok (Some r)] is [out.append(r)]. *)
Definition parse_active_item (it : pyval) : result (option ActiveListing) :=
  title <- text_field it "title" ;;
  item_id <- text_field it "itemId" ;;
  url <- text_field it "viewItemURL" ;;
  price <- item_price it ;;
  shipping <- item_shipping it ;;
  match price with
  | None => Ok None
  | Some price =>
      Ok (Some {| active_title := title;
                  active_item_id := item_id;
                  active_url := url;
                  active_price_gbp := price;
                  active_shipping_gbp := shipping;
                  active_buy_price_gbp := price + shipping |})
  end.

(** The body of the loop of [parse_sold_totals]. *)
Definition parse_sold_item (it : pyval) : result (option float) :=
  price <- item_price it ;;
  shipping <- item_shipping it ;;
  match price with
  | None => Ok None
  | Some price => Ok (Some (price + shipping))
  end.

(** [root.get("searchResult", [{}])[0].get("item", [])], iterated. *)
Definition items_of (root : pyval) : result (list pyval) :=
  x <- py_get root "searchResult" (PList [PDict []]) ;;
  y <- py_index0 x ;;
  items <- py_get y "item" (PList []) ;;
  py_iter items.

(** A [for] loop that appends what its body keeps and stops at the first
    exception. *)
Fixpoint collect {A} (body : pyval -> result (option A)) (items : list pyval)
  : result (list A) :=
  match items with
  | [] => Ok []
  | it :: rest =>
      r <- body it ;;
      out <- collect body rest ;;
      Ok (match r with Some a => a :: out | None => out end)
  end.

Definition parse_active_items (root : pyval) : result (list ActiveListing) :=
  items <- items_of root ;;
  collect parse_active_item items.

Definition parse_sold_totals (root : pyval) : result (list float) :=
  items <- items_of root ;;
  collect parse_sold_item items.
End Parser.

End Parser.

(* ================================================================= *)
(** * The Finding API: [ebay_finding_call], [find_active],
      [find_sold_totals] *)

Module Fetcher.
Import PyVal Estimator Parser.
Open Scope string_scope.
Open Scope py_scope.

(** The parameters of one request (the merged dictionary given to
    [requests.get]); [req_page_number] is [None] when
    [paginationInput.pageNumber] is not sent. *)
Record Request := {
  req_operation : string;
  req_app_id : string;
  req_global_id : string;
  req_keywords : string;
  req_entries_per_page : Z;
  req_page_number : option Z;
  req_sort_order : string;
  req_item_filters : list (string * string)
}.

(** [l[:n]] *)
Definition py_slice_to {A} (l : list A) (n : Z) : list A :=
  if (0 <=? n)%Z then firstn (Z.to_nat n) l
  else firstn (Z.to_nat (Z.of_nat (List.length l) + n)) l.

Section Network.
Variable float_of_str : string -> option float.
Variable int_of_str : string -> option Z.

(** The outside world: the remote service and the clock. [http_get]
    stands for [requests.get], [raise_for_status] and [r.json()]: the
    decoded reply or the exception raised, and the world after the call. *)
Variable World : Type.
Variable http_get : World -> Request -> result pyval * World.
Variable end_time_from : World -> Z -> string.
Variable sleep : World -> World.

(** The text of one entry of [errorMessage]: its two lookups. *)
Definition error_text (e : pyval) : result unit :=
  a <- py_get e "errorId" (PList [PStr "?"]) ;;
  py_index0 a ;;;
  b <- py_get e "message" (PList [PStr ""]) ;;
  py_index0 b ;;;
  Ok tt.

Definition ebay_finding_call (w : World) (rq : Request)
  : result pyval * World :=
  let (r, w') := http_get w rq in
  (data <- r ;;
   x <- py_get data (req_operation rq ++ "Response") (PList [PDict []]) ;;
   root <- py_index0 x ;;
   y <- py_get root "ack" (PList [PStr ""]) ;;
   a <- py_index0 y ;;
   ack <- py_lower (py_or a (PStr "")) ;;
   if String.eqb ack "success" || String.eqb ack "warning" then Ok root
   else
     z <- py_get root "errorMessage" (PList [PDict []]) ;;
     m <- py_index0 z ;;
     errs <- py_get m "error" (PList []) ;;
     es <- py_iter errs ;;
     mapM error_text es ;;;
     Raise RuntimeError,
   w').

Definition active_request (app_id keyword : string) (active_limit : Z)
  (global_id : string) : Request :=
  {| req_operation := "findItemsByKeywords";
     req_app_id := app_id;
     req_global_id := global_id;
     req_keywords := keyword;
     req_entries_per_page := active_limit;
     req_page_number := None;
     req_sort_order := "BestMatch";
     req_item_filters := [] |}.

Definition find_active (w : World) (app_id keyword : string)
  (active_limit : Z) (global_id : string)
  : result (list ActiveListing) * World :=
  let (r, w') :=
    ebay_finding_call w (active_request app_id keyword active_limit global_id) in
  (root <- r ;; parse_active_items float_of_str root, w').

Definition sold_request (app_id keyword : string) (entries : Z)
  (page : option Z) (global_id end_from : string) : Request :=
  {| req_operation := "findCompletedItems";
     req_app_id := app_id;
     req_global_id := global_id;
     req_keywords := keyword;
     req_entries_per_page := entries;
     req_page_number := page;
     req_sort_order := "EndTimeSoonest";
     req_item_filters :=
       [("SoldItemsOnly", "true"); ("EndTimeFrom", end_from)] |}.

(** [int(root.get("paginationOutput", [{}])[0].get("totalPages", ["1"])[0])] *)
Definition total_pages_of (root : pyval) : result Z :=
  x <- py_get root "paginationOutput" (PList [PDict []]) ;;
  y <- py_index0 x ;;
  z <- py_get y "totalPages" (PList [PStr "1"]) ;;
  v <- py_index0 z ;;
  py_int int_of_str v.

(** One call as the fetcher sees it: the request sent and what came
    back. *)
Definition Call : Type := Request * result pyval.

(** What a run of [find_sold_totals] leaves: the value returned or the
    exception raised, the world, and the calls made, oldest first. *)
Definition Outcome : Type := result (list float) * World * list Call.

(** The [while] loop, entered with the last reply [root], the totals so
    far and the last page asked for. [None]: the loop is still running
    when the fuel is spent. *)
Fixpoint sold_loop (fuel : nat) (w : World) (app_id keyword : string)
  (sold_limit : Z) (global_id end_from : string)
  (root : pyval) (totals : list float) (page : Z) (calls : list Call)
  : option Outcome :=
  if (Z.of_nat (List.length totals) <? sold_limit)%Z then
    match total_pages_of root with
    | Raise e => Some (Raise e, w, calls)
    | Ok total_pages =>
        let page := (page + 1)%Z in
        if (total_pages <? page)%Z then
          Some (Ok (py_slice_to totals sold_limit), w, calls)
        else
          match fuel with
          | O => None
          | S fuel' =>
              let rq := sold_request app_id keyword 100 (Some page)
                          global_id end_from in
              let (r, w') := ebay_finding_call w rq in
              let calls := (calls ++ [(rq, r)])%list in
              match r with
              | Raise e => Some (Raise e, w', calls)
              | Ok root' =>
                  match parse_sold_totals float_of_str root' with
                  | Raise e => Some (Raise e, w', calls)
                  | Ok more =>
                      sold_loop fuel' (sleep w') app_id keyword sold_limit
                        global_id end_from root' (totals ++ more)%list page calls
                  end
              end
          end
    end
  else Some (Ok (py_slice_to totals sold_limit), w, calls).

Definition find_sold_totals (fuel : nat) (w : World)
  (app_id keyword : string) (sold_limit : Z) (global_id : string) (days : Z)
  : option Outcome :=
  let end_from := end_time_from w days in
  let rq := sold_request app_id keyword (Z.min sold_limit 100) None
              global_id end_from in
  let (r, w') := ebay_finding_call w rq in
  let calls := [(rq, r)] in
  match r with
  | Raise e => Some (Raise e, w', calls)
  | Ok root =>
      match parse_sold_totals float_of_str root with
      | Raise e => Some (Raise e, w', calls)
      | Ok totals =>
          sold_loop fuel w' app_id keyword sold_limit global_id end_from
            root totals 1 calls
      end
  end.
End Network.

Arguments ebay_finding_call {World} http_get w rq.
Arguments find_active float_of_str {World} http_get w app_id keyword
  active_limit global_id.
Arguments sold_loop float_of_str int_of_str {World} http_get sleep fuel w
  app_id keyword sold_limit global_id end_from root totals page calls.
Arguments find_sold_totals float_of_str int_of_str {World} http_get
  end_time_from sleep fuel w app_id keyword sold_limit global_id days.
Arguments Outcome World : clear implicits.

End Fetcher.

(* ================================================================= *)
(** * Pipeline driver: the keyword loop of [main] *)

Module Driver.
Import PyVal Estimator Parser Fetcher.

(** The parsed command line, as far as the loop reads it. *)
Record Args := {
  app_id : string;
  active_limit : Z;
  sold_limit : Z;
  global_id : string;
  ebay_fee_rate : float;
  payment_fee_rate : float;
  payment_fixed_fee : float;
  shipping_out : float
}.

Section Driver.
Variable float_of_str : string -> option float.
Variable int_of_str : string -> option Z.
Variable World : Type.
Variable http_get : World -> Request -> result pyval * World.
Variable end_time_from : World -> Z -> string.
Variable sleep : World -> World.

(** The [try] block: both fetches of one keyword. The second fetch runs
    only when the first one returned. *)
Definition fetch_keyword (fuel : nat) (w : World) (args : Args) (kw : string)
  : option (result (list ActiveListing * list float) * World) :=
  let (ra, w1) :=
    find_active float_of_str http_get w (app_id args) kw (active_limit args)
      (global_id args) in
  match ra with
  | Raise e => Some (Raise e, w1)
  | Ok active_items =>
      match find_sold_totals float_of_str int_of_str http_get end_time_from
              sleep fuel w1 (app_id args) kw (sold_limit args)
              (global_id args) 90 with
      | None => None
      | Some (rs, w2, _) =>
          Some (match rs with
                | Raise e => Raise e
                | Ok sold_totals => Ok (active_items, sold_totals)
                end, w2)
      end
  end.

(** The inner [for a in active_items] loop: the rows appended. *)
Definition rows_of (args : Args) (kw : string)
  (active_items : list ActiveListing) (sold_totals : list float)
  : list OpportunityRow :=
  flat_map
    (fun a =>
       match compute_row kw a sold_totals (ebay_fee_rate args)
               (payment_fee_rate args) (payment_fixed_fee args)
               (shipping_out args) with
       | Some row => [row]
       | None => []
       end)
    active_items.

(** One iteration of [for kw in keywords]: an exception of either fetch
    is caught and the loop goes on with [rows] as it was. *)
Definition keyword_step (fuel : nat) (w : World) (args : Args)
  (rows : list OpportunityRow) (kw : string)
  : option (list OpportunityRow * World) :=
  match fetch_keyword fuel w args kw with
  | None => None
  | Some (Raise _, w') => Some (rows, w')
  | Some (Ok (active_items, sold_totals), w') =>
      Some ((rows ++ rows_of args kw active_items sold_totals)%list, w')
  end.

Fixpoint keyword_loop (fuel : nat) (w : World) (args : Args)
  (rows : list OpportunityRow) (keywords : list string)
  : option (list OpportunityRow * World) :=
  match keywords with
  | [] => Some (rows, w)
  | kw :: rest =>
      match keyword_step fuel w args rows kw with
      | None => None
      | Some (rows', w') => keyword_loop fuel w' args rows' rest
      end
  end.
End Driver.

Arguments fetch_keyword float_of_str int_of_str {World} http_get
  end_time_from sleep fuel w args kw.
Arguments keyword_step float_of_str int_of_str {World} http_get
  end_time_from sleep fuel w args rows kw.
Arguments keyword_loop float_of_str int_of_str {World} http_get
  end_time_from sleep fuel w args rows keywords.

End Driver.

(* ================================================================= *)
(** * The message of a refused call *)

Module Messages.
Import PyVal.
Open Scope string_scope.
Open Scope py_scope.

Section Messages.
(** [str(v)] for a value that is not a string: what an f-string writes
    for it. *)
Variable py_str : pyval -> string.

Definition format_value (v : pyval) : string :=
  match v with
  | PStr s => s
  | _ => py_str v
  end.

(** [f"{e.get('errorId', ['?'])[0]}: {e.get('message', [''])[0]}"] *)
Definition error_line (e : pyval) : result string :=
  a <- py_get e "errorId" (PList [PStr "?"]) ;;
  error_id <- py_index0 a ;;
  b <- py_get e "message" (PList [PStr ""]) ;;
  message <- py_index0 b ;;
  Ok (format_value error_id ++ ": " ++ format_value message).

(** [root.get("errorMessage", [{}])[0].get("error", [])], iterated. *)
Definition error_entries (root : pyval) : result (list pyval) :=
  z <- py_get root "errorMessage" (PList [PDict []]) ;;
  m <- py_index0 z ;;
  errs <- py_get m "error" (PList []) ;;
  py_iter errs.

(** The text given to [RuntimeError]:
    ["; ".join(... for e in errs) or "Unknown eBay API error"]. *)
Definition error_message (root : pyval) : result string :=
  es <- error_entries root ;;
  lines <- mapM error_line es ;;
  let msg := String.concat "; " lines in
  Ok (if String.eqb msg "" then "Unknown eBay API error" else msg).
End Messages.

End Messages.

(* ================================================================= *)
(** * The entry point: [main] *)

Module Main.
Import PyVal Estimator Parser Fetcher Driver.
Open Scope string_scope.

(** [s.split(",")]: one piece more than there are commas. *)
Fixpoint split_comma (s : string) : list string :=
  match s with
  | EmptyString => [EmptyString]
  | String c rest =>
      if Ascii.eqb c "," then EmptyString :: split_comma rest
      else
        match split_comma rest with
        | piece :: pieces => String c piece :: pieces
        | [] => [String c EmptyString]
        end
  end.

(** [[k.strip() for k in args.keywords.split(",") if k.strip()]] *)
Definition keywords_of (s : string) : list string :=
  map strip
    (filter (fun k => negb (String.eqb (strip k) "")) (split_comma s)).

(** What [main] prints on the standard error stream. *)
Inductive Message :=
| MissingAppId
| NoKeywords
| HttpErrorFor (kw : string)
| ErrorFor (kw : string).

(** The [except] clause that catches [e]: [requests.HTTPError] first,
    then [Exception]. *)
Definition caught (kw : string) (e : exn) : Message :=
  match e with
  | HTTPError => HttpErrorFor kw
  | _ => ErrorFor kw
  end.

(** A finished run: the status returned, the lines printed on the
    standard error stream, the rows written under the header of the
    report ([None]: no report is written), and the world it leaves. *)
Record Run (World : Type) := {
  exit_status : Z;
  stderr : list Message;
  report : option (list OpportunityRow);
  world_after : World
}.
Arguments exit_status {World} r.
Arguments stderr {World} r.
Arguments report {World} r.
Arguments world_after {World} r.

Section Main.
Variable float_of_str : string -> option float.
Variable int_of_str : string -> option Z.
Variable World : Type.
Variable http_get : World -> Request -> result pyval * World.
Variable end_time_from : World -> Z -> string.
Variable sleep : World -> World.

(** [for kw in keywords], with what the [except] clauses print. *)
Fixpoint main_loop (fuel : nat) (w : World) (args : Args)
  (rows : list OpportunityRow) (log : list Message) (keywords : list string)
  : option (list OpportunityRow * list Message * World) :=
  match keywords with
  | [] => Some (rows, log, w)
  | kw :: rest =>
      match fetch_keyword float_of_str int_of_str http_get end_time_from
              sleep fuel w args kw with
      | None => None
      | Some (Raise e, w') =>
          main_loop fuel w' args rows (log ++ [caught kw e]) rest
      | Some (Ok (active_items, sold_totals), w') =>
          main_loop fuel w' args
            (rows ++ rows_of args kw active_items sold_totals) log rest
      end
  end.

(** [main], from the parsed arguments on: [keywords] is [args.keywords],
    the other options are in [args]. *)
Definition main (fuel : nat) (w : World) (keywords : string) (args : Args)
  : option (Run World) :=
  if String.eqb (app_id args) "" then
    Some {| exit_status := 2; stderr := [MissingAppId];
            report := None; world_after := w |}
  else
    match keywords_of keywords with
    | [] =>
        Some {| exit_status := 2; stderr := [NoKeywords];
                report := None; world_after := w |}
    | kws =>
        match main_loop fuel w args [] [] kws with
        | None => None
        | Some (rows, log, w') =>
            Some {| exit_status := 0; stderr := log;
                    report := Some rows; world_after := w' |}
        end
    end.
End Main.

Arguments main_loop float_of_str int_of_str {World} http_get
  end_time_from sleep fuel w args rows log keywords.
Arguments main float_of_str int_of_str {World} http_get
  end_time_from sleep fuel w keywords args.

End Main.

(* ================================================================= *)
(** * Facts about binary64 comparisons *)

Module F64Facts.
Import F64.
Open Scope float_scope.

Lemma SFcompare_antisym (x y : spec_float) :
  SFcompare y x = option_map CompOpp (SFcompare x y).
Proof.
  destruct x as [sx|sx| |sx mx ex], y as [sy|sy| |sy my ey]; simpl;
    try reflexivity;
    try (destruct sx; reflexivity);
    try (destruct sy; reflexivity);
    try (destruct sx, sy; reflexivity).
  destruct sx, sy; simpl; try reflexivity;
    rewrite (Z.compare_antisym ey ex);
    destruct (ey ?= ex)%Z; simpl; try reflexivity;
    rewrite (Pos.compare_cont_antisym mx my Eq); simpl;
    try reflexivity.
Qed.

Lemma SFcompare_nan_iff (x y : spec_float) :
  SFcompare x y = None <-> x = S754_nan \/ y = S754_nan.
Proof.
  destruct x as [sx|sx| |sx mx ex], y as [sy|sy| |sy my ey]; simpl;
    split; intros H; try discriminate; auto;
    try (destruct H as [H|H]; discriminate).
Qed.

Lemma is_nan_spec (x : float) : is_nan x = true <-> Prim2SF x = S754_nan.
Proof.
  unfold is_nan. rewrite eqb_spec. unfold SFeqb.
  destruct (SFcompare (Prim2SF x) (Prim2SF x)) as [c|] eqn:E.
  - split; intros H.
    + assert (Hsym := SFcompare_antisym (Prim2SF x) (Prim2SF x)).
      rewrite E in Hsym. simpl in Hsym.
      destruct c; try discriminate; injection Hsym; discriminate.
    + assert (Hn : SFcompare (Prim2SF x) (Prim2SF x) = None)
        by (apply SFcompare_nan_iff; left; exact H).
      congruence.
  - split; intros _; [|reflexivity].
    apply SFcompare_nan_iff in E. tauto.
Qed.

Lemma is_nan_false_spec (x : float) :
  is_nan x = false <-> Prim2SF x <> S754_nan.
Proof.
  rewrite <- is_nan_spec. destruct (is_nan x); split; congruence.
Qed.

(** A strict comparison that holds excludes the converse one. *)
Lemma ltb_asym (x y : float) : (x <? y) = true -> (y <? x) = false.
Proof.
  rewrite !ltb_spec. unfold SFltb.
  rewrite (SFcompare_antisym (Prim2SF x) (Prim2SF y)).
  destruct (SFcompare (Prim2SF x) (Prim2SF y)) as [[]|]; simpl; congruence.
Qed.

Lemma leb_not_gtb (x y : float) : (x <=? y) = true -> (y <? x) = false.
Proof.
  rewrite ltb_spec, leb_spec. unfold SFltb, SFleb.
  rewrite (SFcompare_antisym (Prim2SF x) (Prim2SF y)).
  destruct (SFcompare (Prim2SF x) (Prim2SF y)) as [[]|]; simpl; congruence.
Qed.

(** On numbers (no NaN) the order is total: [not (x < y)] is [y <= x]. *)
Lemma ltb_false_leb (x y : float) :
  is_nan x = false -> is_nan y = false ->
  (x <? y) = negb (y <=? x).
Proof.
  rewrite !is_nan_false_spec, ltb_spec, leb_spec. unfold SFltb, SFleb.
  intros Hx Hy.
  rewrite (SFcompare_antisym (Prim2SF x) (Prim2SF y)).
  destruct (SFcompare (Prim2SF x) (Prim2SF y)) as [[]|] eqn:E; simpl;
    try reflexivity.
  apply SFcompare_nan_iff in E. tauto.
Qed.

Lemma ltb_nan_l (x y : float) : is_nan x = true -> (x <? y) = false.
Proof.
  rewrite is_nan_spec, ltb_spec. intros ->. reflexivity.
Qed.

Lemma leb_nan_r (x y : float) : is_nan y = true -> (x <=? y) = false.
Proof.
  rewrite is_nan_spec, leb_spec. intros ->.
  unfold SFleb. destruct (Prim2SF x); reflexivity.
Qed.

End F64Facts.

(* ================================================================= *)
(** * The builtins: [sorted], [median], [round] *)

Module PyFacts.
Import F64 F64Facts Py.
Open Scope float_scope.

Lemma insort_perm (x : float) (l : list float) :
  Permutation (x :: l) (insort x l).
Proof.
  induction l as [|y l IH]; simpl.
  - apply Permutation_refl.
  - destruct (x <? y).
    + apply Permutation_refl.
    + apply perm_trans with (y :: x :: l).
      * apply perm_swap.
      * apply perm_skip. exact IH.
Qed.

Lemma fold_insort_perm (l acc : list float) :
  Permutation (l ++ acc) (fold_left (fun a x => insort x a) l acc).
Proof.
  revert acc. induction l as [|x l IH]; intros acc; simpl.
  - apply Permutation_refl.
  - apply perm_trans with (l ++ insort x acc).
    + apply perm_trans with (l ++ x :: acc).
      * apply Permutation_middle.
      * apply Permutation_app_head. apply insort_perm.
    + apply IH.
Qed.

(** [sorted] rearranges its argument. *)
Lemma sorted_perm (l : list float) : Permutation l (sorted l).
Proof.
  unfold sorted. rewrite <- (app_nil_r l) at 1. apply fold_insort_perm.
Qed.

Lemma sorted_length (l : list float) : List.length (sorted l) = List.length l.
Proof. symmetry. apply Permutation_length, sorted_perm. Qed.

(** [median] raises on the empty sample only. *)
Lemma median_defined (data : list float) :
  data <> [] -> exists m, median data = Some m.
Proof.
  intros Hne. unfold median. rewrite sorted_length.
  assert (Hlen : (0 < List.length data)%nat)
    by (destruct data; [congruence | simpl; lia]).
  destruct (Nat.eqb_spec (List.length data) 0) as [E|_]; [lia|].
  assert (Hhalf : (List.length data / 2 < List.length (sorted data))%nat)
    by (rewrite sorted_length; apply Nat.div_lt; lia).
  destruct (Nat.eqb_spec (List.length data mod 2) 1) as [Hodd|Heven].
  - destruct (nth_error (sorted data) (List.length data / 2)) eqn:E.
    + eauto.
    + apply nth_error_None in E. lia.
  - assert (Hmod : (List.length data mod 2 = 0)%nat).
    { pose proof (Nat.mod_upper_bound (List.length data) 2). lia. }
    destruct (nth_error (sorted data) (List.length data / 2 - 1)) eqn:E1.
    + destruct (nth_error (sorted data) (List.length data / 2)) eqn:E2.
      * eauto.
      * apply nth_error_None in E2. lia.
    + apply nth_error_None in E1. lia.
Qed.

Lemma median_nil : median [] = None.
Proof. reflexivity. Qed.

End PyFacts.

(* ================================================================= *)
(** * The nearest integer, stated apart from how it is computed *)

Module Rounding.
Import Py.
Open Scope Z_scope.

(** [k] is the integer nearest to [a / d], the even one on a tie. *)
Definition nearest_even (k a d : Z) : Prop :=
  Z.abs (2 * (k * d - a)) <= d /\
  (Z.abs (2 * (k * d - a)) = d -> Z.even k = true).

Lemma round_half_even_div_nearest (a d : Z) :
  0 < d -> nearest_even (round_half_even_div a d) a d.
Proof.
  intros Hd. unfold round_half_even_div, nearest_even.
  pose proof (Z.div_mod a d ltac:(lia)) as Hdm.
  pose proof (Z.mod_pos_bound a d Hd) as Hr.
  set (q := a / d) in *. set (r := a mod d) in *.
  destruct (Z.compare_spec (2 * r) d) as [E|L|G].
  - destruct (Z.even q) eqn:Hq.
    + split; [|intros _; exact Hq].
      replace (2 * (q * d - a)) with (- (2 * r)) by lia. lia.
    + split.
      * replace (2 * ((q + 1) * d - a)) with (2 * d - 2 * r) by lia. lia.
      * intros _. replace (q + 1) with (Z.succ q) by lia.
        rewrite Z.even_succ, <- Z.negb_even, Hq. reflexivity.
  - split.
    + replace (2 * (q * d - a)) with (- (2 * r)) by lia. lia.
    + replace (2 * (q * d - a)) with (- (2 * r)) by lia. lia.
  - split.
    + replace (2 * ((q + 1) * d - a)) with (2 * d - 2 * r) by lia. lia.
    + replace (2 * ((q + 1) * d - a)) with (2 * d - 2 * r) by lia. lia.
Qed.

Lemma scaled_digits_nearest (m : positive) (e ndigits : Z) :
  nearest_even (scaled_digits m e ndigits)
    (Zpos m * 10 ^ ndigits * 2 ^ Z.max e 0) (2 ^ Z.max (- e) 0).
Proof.
  unfold scaled_digits. destruct (Z.leb_spec 0 e) as [He|He].
  - rewrite (Z.max_l e 0), (Z.max_r (- e) 0) by lia.
    change (2 ^ 0) with 1. unfold nearest_even.
    rewrite Z.mul_1_r, Z.sub_diag. simpl. split; [lia | intros; lia].
  - rewrite (Z.max_r e 0), (Z.max_l (- e) 0) by lia.
    change (2 ^ 0) with 1. rewrite Z.mul_1_r.
    apply round_half_even_div_nearest. apply Z.pow_pos_nonneg; lia.
Qed.

End Rounding.

(* ================================================================= *)
(** * Binary64 subtraction and division follow the order of the values

    The operations of the format are specified by [SFsub] and [SFdiv];
    this part shows that each returns the exact result rounded to
    nearest, and that this rounding is monotone. *)

Module Binary64.
Import Py Rounding.
Open Scope Z_scope.

(** Rounding to nearest, ties to even, is the [round_half_even_div] that
    [round] uses. *)
Abbreviation rne := round_half_even_div (only parsing).

(** ** Binary digits *)

Lemma digits2_pos_bounds (p : positive) :
  2 ^ (Zpos (digits2_pos p) - 1) <= Zpos p < 2 ^ Zpos (digits2_pos p).
Proof.
  induction p as [p IH|p IH|]; simpl digits2_pos.
  - rewrite Pos2Z.inj_succ.
    replace (Z.succ (Zpos (digits2_pos p)) - 1) with (Z.succ (Zpos (digits2_pos p) - 1)) by lia.
    rewrite !Z.pow_succ_r by lia. lia.
  - rewrite Pos2Z.inj_succ.
    replace (Z.succ (Zpos (digits2_pos p)) - 1) with (Z.succ (Zpos (digits2_pos p) - 1)) by lia.
    rewrite !Z.pow_succ_r by lia. lia.
  - simpl. lia.
Qed.

Lemma Zdigits2_nonneg (n : Z) : 0 <= Zdigits2 n.
Proof. destruct n; simpl; lia. Qed.

Lemma Zdigits2_bounds (n : Z) :
  0 < n -> 2 ^ (Zdigits2 n - 1) <= n < 2 ^ Zdigits2 n.
Proof.
  destruct n as [|p|p]; try lia. intros _. apply digits2_pos_bounds.
Qed.

Lemma Zdigits2_pos (n : Z) : 0 < n -> 0 < Zdigits2 n.
Proof. destruct n; simpl; lia. Qed.

(** The number of digits is the only [d] with [2^(d-1) <= n < 2^d]. *)
Lemma Zdigits2_unique (n d : Z) :
  2 ^ (d - 1) <= n < 2 ^ d -> 0 < n -> Zdigits2 n = d.
Proof.
  intros [Hlo Hhi] Hn.
  pose proof (Zdigits2_bounds n Hn) as [Hlo' Hhi'].
  pose proof (Zdigits2_pos n Hn) as Hd.
  assert (Hdpos : 0 < d).
  { destruct (Z.lt_trichotomy 0 d) as [H|[H|H]]; [assumption| |].
    - subst d. simpl in Hhi. lia.
    - rewrite Z.pow_neg_r in Hhi by lia. lia. }
  destruct (Z.lt_trichotomy (Zdigits2 n) d) as [H|[H|H]]; [|exact H|].
  - assert (2 ^ Zdigits2 n <= 2 ^ (d - 1)) by (apply Z.pow_le_mono_r; lia). lia.
  - assert (2 ^ d <= 2 ^ (Zdigits2 n - 1)) by (apply Z.pow_le_mono_r; lia). lia.
Qed.

Lemma Zdigits2_le (n m : Z) : 0 <= n -> n <= m -> Zdigits2 n <= Zdigits2 m.
Proof.
  intros Hn Hnm.
  destruct (Z.eq_dec n 0) as [->|Hn0]; [apply Zdigits2_nonneg|].
  pose proof (Zdigits2_bounds n ltac:(lia)) as [Hlo _].
  pose proof (Zdigits2_bounds m ltac:(lia)) as [_ Hhi].
  destruct (Z.le_gt_cases (Zdigits2 n) (Zdigits2 m)) as [H|H]; [exact H|].
  assert (2 ^ Zdigits2 m <= 2 ^ (Zdigits2 n - 1)) by (apply Z.pow_le_mono_r; lia).
  lia.
Qed.

Lemma Zdigits2_lt_pow (n d : Z) : 0 <= n -> 0 <= d -> n < 2 ^ d -> Zdigits2 n <= d.
Proof.
  intros Hn Hd Hlt.
  destruct (Z.eq_dec n 0) as [->|Hn0]; [simpl; lia|].
  pose proof (Zdigits2_bounds n ltac:(lia)) as [Hlo _].
  destruct (Z.le_gt_cases (Zdigits2 n) d) as [H|H]; [exact H|].
  assert (2 ^ d <= 2 ^ (Zdigits2 n - 1)) by (apply Z.pow_le_mono_r; lia).
  lia.
Qed.

Lemma Zdigits2_ge_pow (n d : Z) : 0 <= d -> 2 ^ d <= n -> d < Zdigits2 n.
Proof.
  intros Hd Hle.
  assert (Hp : 0 < 2 ^ d) by (apply Z.pow_pos_nonneg; lia).
  pose proof (Zdigits2_bounds n ltac:(lia)) as [_ Hhi].
  destruct (Z.lt_ge_cases d (Zdigits2 n)) as [H|H]; [exact H|].
  assert (2 ^ Zdigits2 n <= 2 ^ d)
    by (apply Z.pow_le_mono_r; [lia | exact H]).
  lia.
Qed.


(** ** Shifting a mantissa to the right

    A record of a mantissa with its round and sticky bits stands for a
    non-negative rational [A / B]: the mantissa is the integer part, the
    round bit says whether the fraction is at least one half, the sticky
    bit whether it is neither zero nor one half. *)

Definition repr (A B : Z) (r : shr_record) : Prop :=
  shr_m r = A / B /\
  shr_r r = (B <=? 2 * (A mod B)) /\
  shr_s r = negb ((2 * A) mod B =? 0).

Lemma shr_1_nonneg (m : Z) (r s : bool) :
  0 <= m ->
  shr_1 (Build_shr_record m r s) = Build_shr_record (m / 2) (Z.odd m) (r || s).
Proof.
  intros Hm. destruct m as [|[p|p|]|p]; try lia; simpl shr_1.
  - reflexivity.
  - replace (Zpos p~1 / 2) with (Zpos p)
      by (apply Z.div_unique with (r := 1); lia).
    reflexivity.
  - replace (Zpos p~0 / 2) with (Zpos p)
      by (apply Z.div_unique with (r := 0); lia).
    reflexivity.
  - reflexivity.
Qed.

Lemma double_mod (A B : Z) : 0 < B -> (2 * A) mod B = (2 * (A mod B)) mod B.
Proof.
  intros HB. rewrite (Z.div_mod A B) at 1 by lia.
  replace (2 * (B * (A / B) + A mod B)) with (2 * (A mod B) + (2 * (A / B)) * B)
    by ring.
  apply Z.mod_add. lia.
Qed.

Lemma repr_shr_1 (A B : Z) (rec : shr_record) :
  0 <= A -> 0 < B -> repr A B rec -> repr A (2 * B) (shr_1 rec).
Proof.
  intros HA HB. destruct rec as [m r s]. unfold repr.
  cbn [shr_m shr_r shr_s]. intros (Hm & Hr & Hs).
  assert (Hq : 0 <= A / B) by (apply Z.div_pos; lia).
  pose proof (Z.mod_pos_bound A B HB) as Hrem.
  rewrite shr_1_nonneg by lia. cbn [shr_m shr_r shr_s]. subst m r s.
  assert (Hmod2 : A mod (2 * B) = A mod B + B * ((A / B) mod 2)).
  { rewrite (Z.mul_comm 2 B). apply Z.rem_mul_r; lia. }
  pose proof (Z.mod_pos_bound (A / B) 2 ltac:(lia)) as Ht.
  split; [|split].
  - rewrite (Z.mul_comm 2 B). apply Z.div_div; lia.
  - rewrite Hmod2. rewrite Zodd_mod.
    destruct (Z.eqb_spec ((A / B) mod 2) 1) as [E|E].
    + rewrite E. symmetry. apply Z.leb_le. lia.
    + assert (E0 : (A / B) mod 2 = 0) by lia. rewrite E0.
      symmetry. apply Z.leb_gt. lia.
  - rewrite Z.mul_mod_distr_l by lia.
    rewrite (double_mod A B HB).
    set (rem := A mod B) in *.
    destruct (Z.leb_spec B (2 * rem)) as [H|H];
      destruct (Z.eqb_spec (2 * rem) 0) as [E|E]; cbn [orb negb];
      try reflexivity; try lia.
    + replace (2 * rem) with 0 by lia. rewrite Z.mod_0_l by lia. reflexivity.
    + rewrite Z.mod_small by lia.
      destruct (Z.eqb_spec (2 * rem) 0); [lia | reflexivity].
Qed.

Lemma repr_iter_shr_1 (p : positive) :
  forall (A B : Z) (rec : shr_record),
    0 <= A -> 0 < B -> repr A B rec ->
    repr A (B * 2 ^ Zpos p) (iter_pos shr_1 p rec).
Proof.
  induction p as [p IH|p IH|]; intros A B rec HA HB Hrec; simpl iter_pos.
  - apply repr_shr_1 in Hrec; [|lia|lia].
    apply IH in Hrec; [|lia|lia].
    apply IH in Hrec; [|lia|].
    + replace (B * 2 ^ Zpos p~1) with (2 * B * 2 ^ Zpos p * 2 ^ Zpos p);
        [exact Hrec|].
      rewrite (Pos2Z.inj_xI p).
      replace (2 * Zpos p + 1) with (1 + Zpos p + Zpos p) by lia.
      rewrite !Z.pow_add_r by lia. change (2 ^ 1) with 2. ring.
    + apply Z.mul_pos_pos; [lia | apply Z.pow_pos_nonneg; lia].
  - apply IH in Hrec; [|lia|lia].
    apply IH in Hrec; [|lia|].
    + replace (B * 2 ^ Zpos p~0) with (B * 2 ^ Zpos p * 2 ^ Zpos p);
        [exact Hrec|].
      rewrite (Pos2Z.inj_xO p).
      replace (2 * Zpos p) with (Zpos p + Zpos p) by lia.
      rewrite !Z.pow_add_r by lia. ring.
    + apply Z.mul_pos_pos; [lia | apply Z.pow_pos_nonneg; lia].
  - apply repr_shr_1 in Hrec; [|lia|lia].
    replace (B * 2 ^ 1) with (2 * B) by (change (2 ^ 1) with 2; ring).
    exact Hrec.
Qed.

Lemma repr_shr (A B : Z) (rec : shr_record) (e n : Z) :
  0 <= A -> 0 < B -> repr A B rec ->
  exists rec',
    shr rec e n = (rec', e + Z.max 0 n) /\
    repr A (B * 2 ^ Z.max 0 n) rec'.
Proof.
  intros HA HB Hrec. destruct n as [|p|p]; simpl shr.
  - exists rec. rewrite Z.max_l by lia. rewrite Z.add_0_r.
    change (2 ^ 0) with 1. rewrite Z.mul_1_r. auto.
  - exists (iter_pos shr_1 p rec). rewrite Z.max_r by lia.
    split; [reflexivity | apply repr_iter_shr_1; assumption].
  - exists rec. rewrite Z.max_l by lia. rewrite Z.add_0_r.
    change (2 ^ 0) with 1. rewrite Z.mul_1_r. auto.
Qed.

Lemma repr_exact (m : Z) : repr m 1 (shr_record_of_loc m loc_Exact).
Proof.
  unfold repr. cbn [shr_record_of_loc shr_m shr_r shr_s].
  rewrite Z.div_1_r, !Z.mod_1_r. repeat split.
Qed.

(** ** Rounding to nearest, ties to even *)

Lemma rne_of_repr (A B : Z) (rec : shr_record) :
  0 <= A -> 0 < B -> repr A B rec ->
  round_nearest_even (shr_m rec) (loc_of_shr_record rec) = rne A B.
Proof.
  intros HA HB. destruct rec as [m r s]. unfold repr.
  cbn [shr_m shr_r shr_s]. intros (Hm & Hr & Hs).
  pose proof (Z.mod_pos_bound A B HB) as Hrem.
  rewrite (double_mod A B HB) in Hs.
  unfold round_half_even_div. set (rem := A mod B) in *. subst m.
  destruct (Z.leb_spec B (2 * rem)) as [H|H]; subst r.
  - destruct (Z.eqb_spec ((2 * rem) mod B) 0) as [E|E]; subst s;
      cbn [negb loc_of_shr_record round_nearest_even].
    + assert (E2 : 2 * rem = B).
      { destruct (Z.eq_dec (2 * rem) B) as [E2|E2]; [exact E2|].
        assert (Hsub : (2 * rem) mod B = 2 * rem - B).
        { symmetry. apply Z.mod_unique with (q := 1); lia. }
        lia. }
      rewrite E2, Z.compare_refl. reflexivity.
    + assert (E2 : 2 * rem <> B).
      { intros E2. apply E. rewrite E2. apply Z.mod_same. lia. }
      destruct (Z.compare_spec (2 * rem) B); try lia; reflexivity.
  - destruct (Z.compare_spec (2 * rem) B); try lia.
    destruct s; reflexivity.
Qed.

Lemma rne_bounds (a d : Z) : 0 < d -> a / d <= rne a d <= a / d + 1.
Proof.
  intros Hd. unfold round_half_even_div.
  destruct (2 * (a mod d) ?= d); [destruct (Z.even (a / d))| |]; lia.
Qed.

Lemma rne_nonneg (a d : Z) : 0 <= a -> 0 < d -> 0 <= rne a d.
Proof.
  intros Ha Hd. pose proof (rne_bounds a d Hd).
  pose proof (Z.div_pos a d Ha Hd). lia.
Qed.

(** ** [binary_round_aux] in integer arithmetic *)

Definition finish (sx : bool) (m e : Z) : spec_float :=
  match m with
  | Z0 => S754_zero sx
  | Zpos p => if e <=? emax - prec then S754_finite sx p e else S754_infinity sx
  | Zneg _ => S754_nan
  end.

Lemma binary_round_aux_int (sx : bool) (mx ex : Z) (lx : location) (A B : Z) :
  0 <= A -> 0 < B -> repr A B (shr_record_of_loc mx lx) ->
  let k := Z.max 0 (fexp prec emax (Zdigits2 mx + ex) - ex) in
  let M := rne A (B * 2 ^ k) in
  let e1 := ex + k in
  let k2 := Z.max 0 (fexp prec emax (Zdigits2 M + e1) - e1) in
  binary_round_aux prec emax sx mx ex lx = finish sx (M / 2 ^ k2) (e1 + k2).
Proof.
  intros HA HB Hrec k M e1 k2.
  unfold binary_round_aux, shr_fexp.
  destruct (repr_shr A B _ ex (fexp prec emax (Zdigits2 mx + ex) - ex) HA HB Hrec)
    as (rec1 & E1 & Hrec1).
  fold k in E1, Hrec1. rewrite E1.
  assert (HBk : 0 < B * 2 ^ k)
    by (apply Z.mul_pos_pos; [lia | apply Z.pow_pos_nonneg; unfold k; lia]).
  rewrite (rne_of_repr A (B * 2 ^ k) rec1 HA HBk Hrec1).
  fold M. fold e1.
  assert (HM : 0 <= M) by (apply rne_nonneg; assumption).
  destruct (repr_shr M 1 _ e1 (fexp prec emax (Zdigits2 M + e1) - e1)
              HM ltac:(lia) (repr_exact M)) as (rec2 & E2 & Hrec2).
  fold k2 in E2, Hrec2. rewrite E2.
  destruct Hrec2 as (Hm2 & _). rewrite Hm2, Z.mul_1_l.
  reflexivity.
Qed.


Lemma rne_scale (a d c : Z) : 0 < d -> 0 < c -> rne (a * c) (d * c) = rne a d.
Proof.
  intros Hd Hc. unfold round_half_even_div.
  rewrite Z.div_mul_cancel_r by lia.
  rewrite Z.mul_mod_distr_r by lia.
  replace (2 * (a mod d * c)) with (2 * (a mod d) * c) by ring.
  rewrite <- (Zmult_compare_compat_r (2 * (a mod d)) d c) by lia.
  reflexivity.
Qed.

(** Rounding to nearest follows the order of the rationals. *)
Lemma rne_mono (a b c d : Z) :
  0 < b -> 0 < d -> a * d <= c * b -> rne a b <= rne c d.
Proof.
  intros Hb Hd Hle.
  destruct (round_half_even_div_nearest a b Hb) as [Hn1 Ht1].
  destruct (round_half_even_div_nearest c d Hd) as [Hn2 Ht2].
  set (k1 := rne a b) in *. set (k2 := rne c d) in *.
  destruct (Z.le_gt_cases k1 k2) as [H|H]; [exact H|exfalso].
  assert (H1 : (2 * k1 - 1) * b <= 2 * a) by lia.
  assert (H2 : 2 * c <= (2 * k2 + 1) * d) by lia.
  assert (H3 : (2 * k2 + 1) * b <= (2 * k1 - 1) * b) by nia.
  assert (H4 : (2 * k2 + 1) * b * d <= 2 * a * d) by nia.
  assert (H5 : 2 * c * b <= (2 * k2 + 1) * d * b) by nia.
  assert (E1 : 2 * a * d = (2 * k2 + 1) * b * d) by nia.
  assert (E2 : 2 * a = (2 * k2 + 1) * b) by nia.
  assert (E3 : k1 = k2 + 1) by nia.
  assert (E4 : 2 * c = (2 * k2 + 1) * d) by nia.
  assert (T1 : Z.even k1 = true) by (apply Ht1; nia).
  assert (T2 : Z.even k2 = true) by (apply Ht2; nia).
  rewrite E3 in T1. replace (k2 + 1) with (Z.succ k2) in T1 by lia.
  rewrite Z.even_succ, <- Z.negb_even, T2 in T1. discriminate.
Qed.

(** ** Values in units of the last place of the format *)

(** Every finite double is a whole number of units [2^-1074]; the
    infinities are given the first power of two that no finite double
    reaches. *)
Definition top : Z := 2 ^ 2098.

Definition xulps (x : spec_float) : Z :=
  match x with
  | S754_zero _ => 0
  | S754_nan => 0
  | S754_infinity s => if s then - top else top
  | S754_finite s m e =>
      if s then - (Zpos m * 2 ^ (e + 1074)) else Zpos m * 2 ^ (e + 1074)
  end.

(** The rational [P / Q], in units of the last place, rounded to a
    double: 53 significant digits, ties to even, infinity beyond the
    range. *)
Definition rnd_ulps (P Q : Z) : Z :=
  let K := Z.max 0 (Zdigits2 (P / Q) - 53) in
  Z.min (rne P (Q * 2 ^ K) * 2 ^ K) top.

Lemma top_pos : 0 < top.
Proof. unfold top. apply Z.pow_pos_nonneg; lia. Qed.

Lemma rnd_ulps_mono (P1 Q1 P2 Q2 : Z) :
  0 <= P1 -> 0 < Q1 -> 0 <= P2 -> 0 < Q2 ->
  P1 * Q2 <= P2 * Q1 ->
  rnd_ulps P1 Q1 <= rnd_ulps P2 Q2.
Proof.
  intros HP1 HQ1 HP2 HQ2 Hle. unfold rnd_ulps.
  set (f1 := P1 / Q1). set (f2 := P2 / Q2).
  assert (Hf1 : 0 <= f1) by (apply Z.div_pos; lia).
  assert (Hf2 : 0 <= f2) by (apply Z.div_pos; lia).
  assert (Hf : f1 <= f2).
  { apply Z.div_le_lower_bound; [lia|].
    pose proof (Z.mul_div_le P1 Q1 HQ1). fold f1 in H. nia. }
  pose proof (Zdigits2_le f1 f2 Hf1 Hf) as Hd.
  set (K1 := Z.max 0 (Zdigits2 f1 - 53)).
  set (K2 := Z.max 0 (Zdigits2 f2 - 53)).
  assert (HK : K1 <= K2) by (unfold K1, K2; lia).
  assert (HK1 : 0 <= K1) by (unfold K1; lia).
  assert (Hp1 : 0 < 2 ^ K1) by (apply Z.pow_pos_nonneg; lia).
  assert (Hp2 : 0 < 2 ^ K2) by (apply Z.pow_pos_nonneg; lia).
  apply Z.min_le_compat_r.
  destruct (Z.eq_dec K1 K2) as [E|NE].
  - rewrite <- E. apply Z.mul_le_mono_nonneg_r; [lia|].
    apply rne_mono; nia.
  - assert (HK2 : K2 = Zdigits2 f2 - 53) by (unfold K2 in *; lia).
    assert (Hf2pos : 0 < f2).
    { destruct (Z.eq_dec f2 0) as [E0|]; [|lia].
      rewrite E0 in HK2. simpl in HK2. lia. }
    pose proof (Zdigits2_bounds f2 Hf2pos) as [Hlo2 _].
    replace (Zdigits2 f2 - 1) with (K2 + 52) in Hlo2 by lia.
    (* the larger value keeps at least 2^52 *)
    assert (HM2 : 2 ^ 52 <= rne P2 (Q2 * 2 ^ K2)).
    { pose proof (rne_bounds P2 (Q2 * 2 ^ K2) ltac:(nia)) as [Hb _].
      rewrite <- Z.div_div in Hb by lia. fold f2 in Hb.
      assert (2 ^ 52 <= f2 / 2 ^ K2).
      { apply Z.div_le_lower_bound; [lia|].
        rewrite <- Z.pow_add_r by lia. exact Hlo2. }
      lia. }
    (* the smaller value has at most 2^53 *)
    assert (HM1 : rne P1 (Q1 * 2 ^ K1) <= 2 ^ 53).
    { pose proof (rne_bounds P1 (Q1 * 2 ^ K1) ltac:(nia)) as [_ Hb].
      rewrite <- Z.div_div in Hb by lia. fold f1 in Hb.
      assert (f1 / 2 ^ K1 < 2 ^ 53).
      { apply Z.div_lt_upper_bound; [lia|].
        rewrite <- Z.pow_add_r by lia.
        destruct (Z.eq_dec f1 0) as [E0|N0].
        - rewrite E0. apply Z.pow_pos_nonneg; lia.
        - pose proof (Zdigits2_bounds f1 ltac:(lia)) as [_ Hhi].
          assert (2 ^ Zdigits2 f1 <= 2 ^ (K1 + 53))
            by (apply Z.pow_le_mono_r; unfold K1; lia).
          lia. }
      lia. }
    assert (Hstep : 2 ^ 53 * 2 ^ K1 <= 2 ^ 52 * 2 ^ K2).
    { rewrite <- !Z.pow_add_r by lia. apply Z.pow_le_mono_r; lia. }
    assert (0 <= rne P1 (Q1 * 2 ^ K1)) by (apply rne_nonneg; nia).
    nia.
Qed.

Lemma rnd_ulps_nonneg (P Q : Z) : 0 <= P -> 0 < Q -> 0 <= rnd_ulps P Q.
Proof.
  intros HP HQ. unfold rnd_ulps.
  set (K := Z.max 0 (Zdigits2 (P / Q) - 53)).
  assert (0 < 2 ^ K) by (apply Z.pow_pos_nonneg; unfold K; lia).
  assert (0 <= rne P (Q * 2 ^ K)) by (apply rne_nonneg; nia).
  pose proof top_pos. apply Z.min_glb; nia.
Qed.


Definition signed (s : bool) (v : Z) : Z := if s then - v else v.

Lemma fexp_eq (d : Z) : fexp prec emax d = Z.max (d - 53) (-1074).
Proof. reflexivity. Qed.

Lemma top_split_53 : top = 2 ^ 53 * 2 ^ 2045.
Proof. unfold top. rewrite <- Z.pow_add_r by lia. reflexivity. Qed.

Lemma top_split_52 : top = 2 ^ 52 * 2 ^ 2046.
Proof. unfold top. rewrite <- Z.pow_add_r by lia. reflexivity. Qed.

Lemma pow2_pos (n : Z) : 0 <= n -> 0 < 2 ^ n.
Proof. intros. apply Z.pow_pos_nonneg; lia. Qed.

Lemma pow2_le (a b : Z) : 0 <= a -> a <= b -> 2 ^ a <= 2 ^ b.
Proof. intros. apply Z.pow_le_mono_r; lia. Qed.

(** The overflow test of [binary_round_aux] cuts the rounded value at
    [top]. *)
Lemma finish_value (sx : bool) (M e1 : Z) :
  0 <= M <= 2 ^ 53 -> -1074 <= e1 ->
  (971 < e1 -> M = 0 \/ 2 ^ 52 <= M) ->
  let k2 := Z.max 0 (fexp prec emax (Zdigits2 M + e1) - e1) in
  let r := finish sx (M / 2 ^ k2) (e1 + k2) in
  r <> S754_nan /\
  xulps r = signed sx (Z.min (M * 2 ^ (e1 + 1074)) top).
Proof.
  intros [HM0 HM53] He1 Hbig k2 r.
  pose proof top_pos as Htop.
  assert (Hpe : 0 < 2 ^ (e1 + 1074)) by (apply pow2_pos; lia).
  destruct (Z.eq_dec M (2 ^ 53)) as [E|NE].
  - assert (Hk2 : k2 = 1).
    { unfold k2. rewrite fexp_eq, E.
      change (Zdigits2 (2 ^ 53)) with 54. lia. }
    unfold r. rewrite Hk2, E.
    change (2 ^ 53 / 2 ^ 1) with (Zpos (Z.to_pos (2 ^ 52))).
    unfold finish. change (emax - prec) with 971.
    assert (Hval : Zpos (Z.to_pos (2 ^ 52)) * 2 ^ (e1 + 1 + 1074)
                   = 2 ^ 53 * 2 ^ (e1 + 1074)).
    { change (Zpos (Z.to_pos (2 ^ 52))) with (2 ^ 52).
      replace (e1 + 1 + 1074) with (1 + (e1 + 1074)) by lia.
      rewrite (Z.pow_add_r 2 1) by lia.
      change (2 ^ 53) with (2 ^ 52 * 2 ^ 1). ring. }
    destruct (Z.leb_spec (e1 + 1) 971) as [Hle|Hgt].
    + split; [discriminate|]. unfold xulps.
      destruct sx; unfold signed; rewrite Hval;
        rewrite Z.min_l; try reflexivity;
        rewrite top_split_53;
        (apply Z.mul_le_mono_nonneg_l; [lia | apply pow2_le; lia]).
    + split; [discriminate|]. unfold xulps.
      destruct sx; unfold signed;
        rewrite Z.min_r; try reflexivity;
        rewrite top_split_53;
        (apply Z.mul_le_mono_nonneg_l; [lia | apply pow2_le; lia]).
  - assert (Hlt : M < 2 ^ 53) by lia.
    assert (Hk2 : k2 = 0).
    { unfold k2. rewrite fexp_eq.
      pose proof (Zdigits2_lt_pow M 53 HM0 ltac:(lia) Hlt). lia. }
    unfold r. rewrite Hk2. change (2 ^ 0) with 1.
    rewrite Z.div_1_r, Z.add_0_r.
    destruct M as [|p|p]; [| |lia]; unfold finish.
    + split; [discriminate|]. unfold xulps. rewrite Z.mul_0_l.
      rewrite Z.min_l by lia. destruct sx; reflexivity.
    + change (emax - prec) with 971.
      destruct (Z.leb_spec e1 971) as [Hle|Hgt].
      * split; [discriminate|]. unfold xulps.
        assert (Zpos p * 2 ^ (e1 + 1074) <= top).
        { rewrite top_split_53.
          pose proof (pow2_le (e1 + 1074) 2045 ltac:(lia) ltac:(lia)).
          apply Z.mul_le_mono_nonneg; lia. }
        rewrite Z.min_l by assumption. destruct sx; reflexivity.
      * split; [discriminate|]. unfold xulps.
        destruct (Hbig Hgt) as [H0|H52]; [discriminate|].
        assert (top <= Zpos p * 2 ^ (e1 + 1074)).
        { rewrite top_split_52.
          pose proof (pow2_le 2046 (e1 + 1074) ltac:(lia) ltac:(lia)).
          assert (0 < 2 ^ 2046) by (apply pow2_pos; lia).
          apply Z.mul_le_mono_nonneg; lia. }
        rewrite Z.min_r by assumption. destruct sx; reflexivity.
Qed.


(** The rational [A / B] scaled by [2^j], as a fraction of integers. *)
Definition scale_num (A j : Z) : Z := A * 2 ^ Z.max 0 j.
Definition scale_den (B j : Z) : Z := B * 2 ^ Z.max 0 (- j).

Lemma scale_den_pos (B j : Z) : 0 < B -> 0 < scale_den B j.
Proof.
  intros. unfold scale_den. apply Z.mul_pos_pos; [lia | apply pow2_pos; lia].
Qed.

Lemma scale_num_nonneg (A j : Z) : 0 <= A -> 0 <= scale_num A j.
Proof.
  intros. unfold scale_num. apply Z.mul_nonneg_nonneg; [lia|].
  apply Z.lt_le_incl, pow2_pos. lia.
Qed.

(** The integer part of the scaled rational has the digits of the
    integer part of [A / B], moved by [j]. *)
Lemma scaled_floor_lt (A B j d : Z) :
  0 <= A -> 0 < B -> 0 <= d -> A / B < 2 ^ d ->
  scale_num A j / scale_den B j < 2 ^ Z.max 0 (d + j).
Proof.
  intros HA HB Hd Hlt. unfold scale_num, scale_den.
  assert (HAlt : A < B * 2 ^ d).
  { pose proof (Z.mul_succ_div_gt A B HB). nia. }
  destruct (Z.le_gt_cases 0 j) as [Hj|Hj].
  - rewrite (Z.max_r 0 j), (Z.max_l 0 (- j)), (Z.max_r 0 (d + j)) by lia.
    change (2 ^ 0) with 1. rewrite Z.mul_1_r.
    apply Z.div_lt_upper_bound; [lia|].
    rewrite Z.pow_add_r by lia.
    pose proof (pow2_pos j Hj). nia.
  - rewrite (Z.max_l 0 j), (Z.max_r 0 (- j)) by lia.
    change (2 ^ 0) with 1. rewrite Z.mul_1_r.
    pose proof (pow2_pos (- j) ltac:(lia)) as Hp.
    apply Z.div_lt_upper_bound; [nia|].
    destruct (Z.le_gt_cases 0 (d + j)) as [Hdj|Hdj].
    + rewrite (Z.max_r 0 (d + j)) by lia.
      replace (B * 2 ^ (- j) * 2 ^ (d + j)) with (B * (2 ^ (- j) * 2 ^ (d + j)))
        by ring.
      rewrite <- Z.pow_add_r by lia.
      replace (- j + (d + j)) with d by lia. exact HAlt.
    + rewrite (Z.max_l 0 (d + j)) by lia. change (2 ^ 0) with 1.
      rewrite Z.mul_1_r.
      pose proof (pow2_le d (- j) Hd ltac:(lia)). nia.
Qed.

Lemma scaled_floor_ge (A B j d : Z) :
  0 <= A -> 0 < B -> 1 <= d -> 1 <= d + j -> 2 ^ (d - 1) <= A / B ->
  2 ^ (d + j - 1) <= scale_num A j / scale_den B j.
Proof.
  intros HA HB Hd Hdj Hge. unfold scale_num, scale_den.
  assert (HAge : B * 2 ^ (d - 1) <= A).
  { pose proof (Z.mul_div_le A B HB). nia. }
  destruct (Z.le_gt_cases 0 j) as [Hj|Hj].
  - rewrite (Z.max_r 0 j), (Z.max_l 0 (- j)) by lia.
    change (2 ^ 0) with 1. rewrite Z.mul_1_r.
    apply Z.div_le_lower_bound; [lia|].
    replace (d + j - 1) with ((d - 1) + j) by lia.
    rewrite Z.pow_add_r by lia.
    pose proof (pow2_pos j Hj). nia.
  - rewrite (Z.max_l 0 j), (Z.max_r 0 (- j)) by lia.
    change (2 ^ 0) with 1. rewrite Z.mul_1_r.
    pose proof (pow2_pos (- j) ltac:(lia)) as Hp.
    apply Z.div_le_lower_bound; [nia|].
    replace (B * 2 ^ (- j) * 2 ^ (d + j - 1))
      with (B * (2 ^ (- j) * 2 ^ (d + j - 1))) by ring.
    rewrite <- Z.pow_add_r by lia.
    replace (- j + (d + j - 1)) with (d - 1) by lia. exact HAge.
Qed.

Lemma rne_scaled (A B j k : Z) :
  0 < B -> 0 <= k -> 0 <= k + j ->
  rne (scale_num A j) (scale_den B j * 2 ^ (k + j)) = rne A (B * 2 ^ k).
Proof.
  intros HB Hk Hkj. unfold scale_num, scale_den.
  pose proof (pow2_pos k Hk) as Hpk.
  destruct (Z.le_gt_cases 0 j) as [Hj|Hj].
  - rewrite (Z.max_r 0 j), (Z.max_l 0 (- j)) by lia.
    change (2 ^ 0) with 1. rewrite Z.mul_1_r.
    rewrite Z.pow_add_r by lia.
    replace (B * (2 ^ k * 2 ^ j)) with (B * 2 ^ k * 2 ^ j) by ring.
    apply rne_scale; [nia | apply pow2_pos; lia].
  - rewrite (Z.max_l 0 j), (Z.max_r 0 (- j)) by lia.
    change (2 ^ 0) with 1. rewrite Z.mul_1_r.
    replace (B * 2 ^ (- j) * 2 ^ (k + j)) with (B * (2 ^ (- j) * 2 ^ (k + j)))
      by ring.
    rewrite <- Z.pow_add_r by lia.
    replace (- j + (k + j)) with k by lia. reflexivity.
Qed.

Lemma shr_m_of_loc (m : Z) (l : location) :
  shr_m (shr_record_of_loc m l) = m.
Proof. destruct l as [|[]]; reflexivity. Qed.

(** What [binary_round_aux] returns for a mantissa and location that
    stand for [A / B] at exponent [ex], when the exponent is fine enough:
    never NaN, and the rounding of [A / B * 2^ex]. *)
Lemma binary_round_aux_value (sx : bool) (mx ex : Z) (lx : location)
  (A B : Z) :
  0 <= A -> 0 < B -> repr A B (shr_record_of_loc mx lx) ->
  ex <= fexp prec emax (Zdigits2 mx + ex) ->
  let j := ex + 1074 in
  let r := binary_round_aux prec emax sx mx ex lx in
  r <> S754_nan /\
  xulps r = signed sx (rnd_ulps (scale_num A j) (scale_den B j)).
Proof.
  intros HA HB Hrec Hpre j r.
  assert (Hmx : mx = A / B).
  { destruct Hrec as (Hm & _). rewrite shr_m_of_loc in Hm. exact Hm. }
  assert (Hmx0 : 0 <= mx) by (rewrite Hmx; apply Z.div_pos; lia).
  unfold r. rewrite (binary_round_aux_int sx mx ex lx A B HA HB Hrec).
  rewrite fexp_eq in Hpre.
  set (d := Zdigits2 mx) in *.
  assert (Hd0 : 0 <= d) by apply Zdigits2_nonneg.
  set (k := Z.max 0 (fexp prec emax (d + ex) - ex)).
  assert (Hk : k = Z.max (d + ex - 53) (-1074) - ex)
    by (unfold k; rewrite fexp_eq; lia).
  set (e1 := ex + k).
  assert (He1 : e1 = Z.max (d + ex - 53) (-1074)) by (unfold e1; lia).
  assert (Hk0 : 0 <= k) by lia.
  pose proof (pow2_pos k Hk0) as Hpk.
  set (M := rne A (B * 2 ^ k)).
  assert (Hmxlt : mx < 2 ^ d).
  { destruct (Z.eq_dec mx 0) as [E|N].
    - rewrite E. apply pow2_pos. lia.
    - apply Zdigits2_bounds. lia. }
  assert (Hdiv : A / (B * 2 ^ k) = mx / 2 ^ k)
    by (rewrite <- Z.div_div by lia; rewrite Hmx; reflexivity).
  assert (HM : 0 <= M <= 2 ^ 53).
  { split; [apply rne_nonneg; nia|].
    pose proof (rne_bounds A (B * 2 ^ k) ltac:(nia)) as [_ Hb].
    fold M in Hb. rewrite Hdiv in Hb.
    assert (mx / 2 ^ k < 2 ^ 53).
    { apply Z.div_lt_upper_bound; [lia|].
      rewrite <- Z.pow_add_r by lia.
      pose proof (pow2_le d (k + 53) Hd0 ltac:(lia)). lia. }
    lia. }
  assert (Hbig : 971 < e1 -> M = 0 \/ 2 ^ 52 <= M).
  { intros Hgt. right.
    assert (Hd1 : 1 <= d) by lia.
    assert (Hmxpos : 0 < mx).
    { destruct (Z.eq_dec mx 0) as [E|N]; [|lia].
      unfold d in Hd1. rewrite E in Hd1. simpl in Hd1. lia. }
    pose proof (Zdigits2_bounds mx Hmxpos) as [Hlo _]. fold d in Hlo.
    pose proof (rne_bounds A (B * 2 ^ k) ltac:(nia)) as [Hb _].
    fold M in Hb. rewrite Hdiv in Hb.
    assert (2 ^ 52 <= mx / 2 ^ k).
    { apply Z.div_le_lower_bound; [lia|].
      rewrite <- Z.pow_add_r by lia.
      replace (k + 52) with (d - 1) by lia. exact Hlo. }
    lia. }
  destruct (finish_value sx M e1 HM ltac:(lia) Hbig) as [Hnan Hval].
  split; [exact Hnan|]. rewrite Hval. f_equal.
  (* the same rounding, read on the scaled fraction *)
  unfold rnd_ulps.
  set (F := scale_num A j / scale_den B j).
  assert (HK : Z.max 0 (Zdigits2 F - 53) = k + j).
  { assert (HF0 : 0 <= F).
    { apply Z.div_pos; [apply scale_num_nonneg; lia
                       | apply scale_den_pos; lia]. }
    assert (HFlt : F < 2 ^ Z.max 0 (d + j))
      by (apply scaled_floor_lt; [lia|lia|lia|rewrite <- Hmx; exact Hmxlt]).
    pose proof (Zdigits2_lt_pow F (Z.max 0 (d + j)) HF0 ltac:(lia) HFlt) as Hup.
    destruct (Z.le_gt_cases 54 (d + j)) as [Hbigd|Hsmall].
    - assert (Hd1 : 1 <= d) by (unfold j in Hbigd; lia).
      assert (Hmxpos : 0 < mx).
      { destruct (Z.eq_dec mx 0) as [E|N]; [|lia].
        unfold d in Hd1. rewrite E in Hd1. simpl in Hd1. lia. }
      pose proof (Zdigits2_bounds mx Hmxpos) as [Hlo _]. fold d in Hlo.
      assert (HFge : 2 ^ (d + j - 1) <= F)
        by (apply scaled_floor_ge; [lia|lia|lia|lia|rewrite <- Hmx; exact Hlo]).
      pose proof (Zdigits2_ge_pow F (d + j - 1) ltac:(lia) HFge). lia.
    - lia. }
  rewrite HK.
  rewrite (rne_scaled A B j k HB Hk0 ltac:(lia)). fold M.
  replace (k + j) with (e1 + 1074) by (unfold e1, j; lia).
  reflexivity.
Qed.


Lemma rnd_ulps_ext (P1 Q1 P2 Q2 : Z) :
  0 <= P1 -> 0 < Q1 -> 0 <= P2 -> 0 < Q2 ->
  P1 * Q2 = P2 * Q1 ->
  rnd_ulps P1 Q1 = rnd_ulps P2 Q2.
Proof.
  intros. apply Z.le_antisymm; apply rnd_ulps_mono; lia.
Qed.

(** ** The order of valid doubles *)

Lemma valid_finite (s : bool) (m : positive) (e : Z) :
  valid_binary (S754_finite s m e) = true ->
  -1074 <= e <= 971 /\ Zpos m < 2 ^ 53 /\ (-1074 < e -> 2 ^ 52 <= Zpos m).
Proof.
  unfold valid_binary, bounded, canonical_mantissa.
  intros H. apply andb_true_iff in H. destruct H as [Hc Hb].
  apply Z.eqb_eq in Hc. apply Z.leb_le in Hb.
  rewrite fexp_eq in Hc. change (emax - prec) with 971 in Hb.
  pose proof (digits2_pos_bounds m) as [Hlo Hhi].
  set (d := Zpos (digits2_pos m)) in *.
  assert (Hd : d <= 53) by lia.
  split; [lia|]. split.
  - pose proof (pow2_le d 53 ltac:(lia) Hd). lia.
  - intros He. assert (Ed : d = 53) by lia. rewrite Ed in Hlo. exact Hlo.
Qed.

Definition magnitude (m : positive) (e : Z) : Z := Zpos m * 2 ^ (e + 1074).

Lemma magnitude_bounds (s : bool) (m : positive) (e : Z) :
  valid_binary (S754_finite s m e) = true ->
  0 < magnitude m e < top.
Proof.
  intros Hv. destruct (valid_finite s m e Hv) as (He & Hm & _).
  unfold magnitude.
  pose proof (pow2_pos (e + 1074) ltac:(lia)) as Hp.
  pose proof (pow2_le (e + 1074) 2045 ltac:(lia) ltac:(lia)) as Hq.
  split; [lia|]. rewrite top_split_53.
  assert (0 < 2 ^ 53) by (apply pow2_pos; lia). nia.
Qed.

Lemma magnitude_compare (s1 s2 : bool) (m1 m2 : positive) (e1 e2 : Z) :
  valid_binary (S754_finite s1 m1 e1) = true ->
  valid_binary (S754_finite s2 m2 e2) = true ->
  match e1 ?= e2 with
  | Lt => Lt
  | Gt => Gt
  | Eq => Pos.compare_cont Eq m1 m2
  end = (magnitude m1 e1 ?= magnitude m2 e2).
Proof.
  intros Hv1 Hv2.
  destruct (valid_finite s1 m1 e1 Hv1) as (He1 & Hm1 & Hn1).
  destruct (valid_finite s2 m2 e2 Hv2) as (He2 & Hm2 & Hn2).
  unfold magnitude.
  assert (Hstep : forall m m' e e',
             -1074 <= e -> e < e' -> Zpos m < 2 ^ 53 -> 2 ^ 52 <= Zpos m' ->
             Zpos m * 2 ^ (e + 1074) < Zpos m' * 2 ^ (e' + 1074)).
  { intros m m' e e' He Hee Hm Hm'.
    pose proof (pow2_pos (e + 1074) ltac:(lia)) as Hp.
    assert (Hq : 2 ^ 53 * 2 ^ (e + 1074) <= 2 ^ 52 * 2 ^ (e' + 1074)).
    { rewrite <- !Z.pow_add_r by lia. apply pow2_le; lia. }
    assert (0 < 2 ^ (e' + 1074)) by (apply pow2_pos; lia).
    nia. }
  destruct (Z.compare_spec e1 e2) as [E|L|G].
  - subst e2. change (Pos.compare_cont Eq m1 m2) with (Zpos m1 ?= Zpos m2).
    apply Zmult_compare_compat_r. apply Z.lt_gt, pow2_pos. lia.
  - symmetry. apply Z.compare_lt_iff. apply Hstep; lia.
  - symmetry. apply Z.compare_gt_iff. apply Hstep; lia.
Qed.

(** On valid doubles other than NaN, the comparison of the format is the
    comparison of the values. *)
Lemma SFcompare_xulps (x y : spec_float) :
  valid_binary x = true -> valid_binary y = true ->
  x <> S754_nan -> y <> S754_nan ->
  SFcompare x y = Some (xulps x ?= xulps y).
Proof.
  intros Hx Hy Nx Ny. pose proof top_pos as Htop.
  destruct x as [sx|sx| |sx mx ex]; [| |congruence|];
    destruct y as [sy|sy| |sy my ey]; try congruence;
    try (pose proof (magnitude_bounds _ _ _ Hx) as Bx);
    try (pose proof (magnitude_bounds _ _ _ Hy) as By);
    unfold magnitude in *; cbn [SFcompare xulps].
  1-8: try (destruct sx); try (destruct sy); f_equal; symmetry;
    first [ apply Z.compare_eq_iff; lia
          | apply Z.compare_lt_iff; lia
          | apply Z.compare_gt_iff; lia ].
  - pose proof (magnitude_compare sx sy mx my ex ey Hx Hy) as Hc.
    pose proof (magnitude_compare sy sx my mx ey ex Hy Hx) as Hc'.
    unfold magnitude in Hc, Hc'.
    destruct sx, sy; f_equal.
    + rewrite Z.compare_opp. rewrite <- Hc'.
      destruct (Z.compare_spec ex ey) as [E|L|G].
      * subst ey. rewrite Z.compare_refl.
        apply (Pos.compare_cont_antisym mx my Eq).
      * apply Z.compare_gt_iff in L. rewrite L. reflexivity.
      * apply Z.compare_lt_iff in G. rewrite G. reflexivity.
    + symmetry. apply Z.compare_lt_iff. lia.
    + symmetry. apply Z.compare_gt_iff. lia.
    + exact Hc.
Qed.


(** ** Rounding an integer mantissa: [binary_round] *)

Lemma iter_xO (m d : positive) :
  Zpos (Pos.iter xO m d) = Zpos m * 2 ^ Zpos d.
Proof.
  induction d as [|d IH] using Pos.peano_ind.
  - simpl. lia.
  - rewrite Pos.iter_succ, Pos2Z.inj_xO, IH, Pos2Z.inj_succ.
    rewrite Z.pow_succ_r by lia. ring.
Qed.

Lemma shl_align_spec (mx : positive) (ex ex' : Z) :
  exists m',
    shl_align mx ex ex' = (m', Z.min ex ex') /\
    Zpos m' = Zpos mx * 2 ^ (ex - Z.min ex ex').
Proof.
  unfold shl_align. destruct (ex' - ex) as [|d|d] eqn:E.
  - exists mx. rewrite Z.min_l by lia. rewrite Z.sub_diag.
    change (2 ^ 0) with 1. split; [reflexivity | lia].
  - exists mx. rewrite Z.min_l by lia. rewrite Z.sub_diag.
    change (2 ^ 0) with 1. split; [reflexivity | lia].
  - exists (Pos.iter xO mx d). rewrite Z.min_r by lia.
    split; [reflexivity|]. rewrite iter_xO. f_equal. f_equal. lia.
Qed.

Lemma Zdigits2_shift (m n : Z) :
  0 < m -> 0 <= n -> Zdigits2 (m * 2 ^ n) = Zdigits2 m + n.
Proof.
  intros Hm Hn. pose proof (Zdigits2_bounds m Hm) as [Hlo Hhi].
  pose proof (Zdigits2_pos m Hm) as Hd.
  pose proof (pow2_pos n Hn) as Hp.
  apply Zdigits2_unique; [|nia].
  replace (Zdigits2 m + n - 1) with ((Zdigits2 m - 1) + n) by lia.
  rewrite !Z.pow_add_r by lia. nia.
Qed.

Lemma scale_exact (m j : Z) :
  0 <= j -> scale_num m j = m * 2 ^ j /\ scale_den 1 j = 1.
Proof.
  intros Hj. unfold scale_num, scale_den.
  rewrite (Z.max_r 0 j), (Z.max_l 0 (- j)) by lia. split; reflexivity.
Qed.

(** [binary_round] rounds the integer [m * 2^e]. *)
Lemma binary_round_value (sx : bool) (m : positive) (e : Z) :
  -1074 <= e ->
  let r := binary_round prec emax sx m e in
  r <> S754_nan /\
  xulps r = signed sx (rnd_ulps (Zpos m * 2 ^ (e + 1074)) 1).
Proof.
  intros He r. unfold r, binary_round.
  destruct (shl_align_spec m e (fexp prec emax (Zpos (digits2_pos m) + e)))
    as (mz & Esh & Hmz).
  rewrite Esh.
  set (t := fexp prec emax (Zpos (digits2_pos m) + e)) in *.
  set (ez := Z.min e t) in *.
  assert (Ht : -1074 <= t) by (unfold t; rewrite fexp_eq; lia).
  assert (Hez : -1074 <= ez) by (unfold ez; lia).
  assert (Hdig : Zdigits2 (Zpos mz) + ez = Zpos (digits2_pos m) + e).
  { rewrite Hmz. rewrite Zdigits2_shift by (unfold ez; lia).
    simpl Zdigits2. lia. }
  assert (Hpre : ez <= fexp prec emax (Zdigits2 (Zpos mz) + ez)).
  { rewrite Hdig. fold t. unfold ez. lia. }
  destruct (binary_round_aux_value sx (Zpos mz) ez loc_Exact (Zpos mz) 1
              ltac:(lia) ltac:(lia) (repr_exact (Zpos mz)) Hpre)
    as [Hnan Hval].
  split; [exact Hnan|]. rewrite Hval. f_equal.
  destruct (scale_exact (Zpos mz) (ez + 1074) ltac:(lia)) as [-> ->].
  f_equal. rewrite Hmz. rewrite <- Z.mul_assoc, <- Z.pow_add_r by (unfold ez; lia).
  f_equal. f_equal. lia.
Qed.

(** ** Subtraction *)

(** The difference of two finite doubles is the rounding of the exact
    difference of their values. *)
Definition rnd_signed (D : Z) : Z :=
  match D with
  | Z0 => 0
  | Zpos _ => rnd_ulps D 1
  | Zneg _ => - rnd_ulps (- D) 1
  end.

Lemma binary_normalize_value (D e : Z) :
  -1074 <= e ->
  let r := binary_normalize prec emax D e false in
  r <> S754_nan /\ xulps r = rnd_signed (D * 2 ^ (e + 1074)).
Proof.
  intros He r. unfold r, binary_normalize.
  pose proof (pow2_pos (e + 1074) ltac:(lia)) as Hp.
  destruct D as [|p|p].
  - split; [discriminate | reflexivity].
  - destruct (binary_round_value false p e He) as [Hn Hv].
    split; [exact Hn|]. rewrite Hv. unfold signed, rnd_signed.
    destruct (Zpos p * 2 ^ (e + 1074)) eqn:E; try lia; reflexivity.
  - destruct (binary_round_value true p e He) as [Hn Hv].
    split; [exact Hn|]. rewrite Hv. unfold signed, rnd_signed.
    destruct (Zneg p * 2 ^ (e + 1074)) as [|q|q] eqn:E; try lia.
    f_equal. f_equal. lia.
Qed.

Lemma xulps_finite (s : bool) (m : positive) (e : Z) :
  xulps (S754_finite s m e) = signed s (Zpos m * 2 ^ (e + 1074)).
Proof. reflexivity. Qed.

Lemma SFsub_finite_value (sx sy : bool) (mx my : positive) (ex ey : Z) :
  valid_binary (S754_finite sx mx ex) = true ->
  valid_binary (S754_finite sy my ey) = true ->
  let x := S754_finite sx mx ex in
  let y := S754_finite sy my ey in
  let r := SFsub prec emax x y in
  r <> S754_nan /\ xulps r = rnd_signed (xulps x - xulps y).
Proof.
  intros Hx Hy x y r.
  destruct (valid_finite sx mx ex Hx) as (Hex & _).
  destruct (valid_finite sy my ey Hy) as (Hey & _).
  unfold r, x, y, SFsub.
  set (ez := Z.min ex ey).
  destruct (shl_align_spec mx ex ez) as (mx' & Ex & Hmx').
  destruct (shl_align_spec my ey ez) as (my' & Ey & Hmy').
  rewrite Ex, Ey. cbn [fst].
  replace (Z.min ex ez) with ez in Hmx' by (unfold ez; lia).
  replace (Z.min ey ez) with ez in Hmy' by (unfold ez; lia).
  assert (Hez : -1074 <= ez) by (unfold ez; lia).
  destruct (binary_normalize_value
              (cond_Zopp sx (Zpos mx') - cond_Zopp sy (Zpos my')) ez Hez)
    as [Hn Hv].
  split; [exact Hn|]. rewrite Hv. f_equal.
  rewrite !xulps_finite, Hmx', Hmy'.
  assert (Hsx : forall m e, -1074 <= ez <= e ->
            Zpos m * 2 ^ (e - ez) * 2 ^ (ez + 1074) = Zpos m * 2 ^ (e + 1074)).
  { intros m e H. rewrite <- Z.mul_assoc, <- Z.pow_add_r by lia.
    f_equal. f_equal. lia. }
  rewrite Z.mul_sub_distr_r.
  assert (Hc : forall s v w, cond_Zopp s v * w = signed s (v * w))
    by (intros [] v w; unfold cond_Zopp, signed; ring).
  rewrite !Hc, !Hsx by (unfold ez; lia). reflexivity.
Qed.


(** ** Division *)

Lemma new_location_repr (A B : Z) :
  0 <= A -> 0 < B ->
  repr A B (shr_record_of_loc (A / B) (new_location B (A mod B))).
Proof.
  intros HA HB. unfold repr. rewrite shr_m_of_loc.
  split; [reflexivity|].
  rewrite (double_mod A B HB).
  pose proof (Z.mod_pos_bound A B HB) as Hrem.
  set (rem := A mod B) in *.
  unfold new_location, new_location_even, new_location_odd.
  destruct (Z.even B) eqn:Ev.
  - destruct (Z.eqb_spec rem 0) as [E0|N0].
    + rewrite E0. rewrite Z.mod_0_l by lia. cbn.
      split; [symmetry; apply Z.leb_gt; lia | reflexivity].
    + destruct (Z.compare_spec (2 * rem) B) as [E|L|G];
        cbn [shr_record_of_loc shr_r shr_s].
      * split; [symmetry; apply Z.leb_le; lia|].
        rewrite E, Z.mod_same by lia. reflexivity.
      * split; [symmetry; apply Z.leb_gt; lia|].
        rewrite Z.mod_small by lia.
        destruct (Z.eqb_spec (2 * rem) 0); [lia | reflexivity].
      * split; [symmetry; apply Z.leb_le; lia|].
        replace ((2 * rem) mod B) with (2 * rem - B)
          by (apply Z.mod_unique with (q := 1); lia).
        destruct (Z.eqb_spec (2 * rem - B) 0); [lia | reflexivity].
  - assert (Hodd : 2 * rem <> B).
    { intros E. rewrite <- E in Ev. rewrite Z.even_mul in Ev. discriminate. }
    destruct (Z.eqb_spec rem 0) as [E0|N0].
    + rewrite E0. rewrite Z.mod_0_l by lia. cbn.
      split; [symmetry; apply Z.leb_gt; lia | reflexivity].
    + destruct (Z.compare_spec (2 * rem + 1) B) as [E|L|G];
        cbn [shr_record_of_loc shr_r shr_s].
      * split; [symmetry; apply Z.leb_gt; lia|].
        rewrite Z.mod_small by lia.
        destruct (Z.eqb_spec (2 * rem) 0); [lia | reflexivity].
      * split; [symmetry; apply Z.leb_gt; lia|].
        rewrite Z.mod_small by lia.
        destruct (Z.eqb_spec (2 * rem) 0); [lia | reflexivity].
      * split; [symmetry; apply Z.leb_le; lia|].
        replace ((2 * rem) mod B) with (2 * rem - B)
          by (apply Z.mod_unique with (q := 1); lia).
        destruct (Z.eqb_spec (2 * rem - B) 0); [lia | reflexivity].
Qed.

Lemma SFdiv_core_spec (m1 m2 : positive) (e1 e2 : Z) :
  exists q e' l,
    SFdiv_core_binary prec emax (Zpos m1) e1 (Zpos m2) e2 = (q, e', l) /\
    0 <= e1 - e2 - e' /\
    repr (Zpos m1 * 2 ^ (e1 - e2 - e')) (Zpos m2) (shr_record_of_loc q l) /\
    e' <= fexp prec emax (Zdigits2 q + e').
Proof.
  unfold SFdiv_core_binary.
  set (d1 := Zdigits2 (Zpos m1)). set (d2 := Zdigits2 (Zpos m2)).
  set (e' := Z.min (fexp prec emax (d1 + e1 - (d2 + e2))) (e1 - e2)).
  set (s := e1 - e2 - e').
  assert (Hs : 0 <= s) by (unfold s, e'; lia).
  set (m' := match s with
             | Z0 => Zpos m1
             | Zpos _ => Z.shiftl (Zpos m1) s
             | Zneg _ => 0
             end).
  assert (Hm' : m' = Zpos m1 * 2 ^ s).
  { unfold m'. destruct s as [|p|p] eqn:E; [simpl; lia | | lia].
    apply Z.shiftl_mul_pow2. lia. }
  destruct (Z.div_eucl m' (Zpos m2)) as [q r] eqn:Ediv.
  assert (Hq : q = m' / Zpos m2) by (unfold Z.div; rewrite Ediv; reflexivity).
  assert (Hr : r = m' mod Zpos m2)
    by (unfold Z.modulo; rewrite Ediv; reflexivity).
  exists q, e', (new_location (Zpos m2) r).
  split; [reflexivity|]. split; [exact Hs|].
  pose proof (pow2_pos s Hs) as Hps.
  split.
  - rewrite Hq, Hr, Hm'. apply new_location_repr; nia.
  - (* the quotient has enough digits *)
    assert (Hdig : d1 + s - d2 <= Zdigits2 q).
    { destruct (Z.le_gt_cases (d1 + s - d2) 0) as [Hsmall|Hpos].
      - pose proof (Zdigits2_nonneg q). lia.
      - pose proof (Zdigits2_bounds (Zpos m1) ltac:(lia)) as [Hlo1 _].
        pose proof (Zdigits2_bounds (Zpos m2) ltac:(lia)) as [_ Hhi2].
        fold d1 in Hlo1. fold d2 in Hhi2.
        pose proof (Zdigits2_pos (Zpos m2) ltac:(lia)) as Hd2. fold d2 in Hd2.
        pose proof (Zdigits2_pos (Zpos m1) ltac:(lia)) as Hd1. fold d1 in Hd1.
        assert (Hqge : 2 ^ (d1 + s - d2 - 1) <= q).
        { rewrite Hq, Hm'. apply Z.div_le_lower_bound; [lia|].
          assert (Hsplit : 2 ^ (d1 - 1) * 2 ^ s
                           = 2 ^ d2 * 2 ^ (d1 + s - d2 - 1)).
          { rewrite <- !Z.pow_add_r by lia. f_equal. lia. }
          pose proof (pow2_pos (d1 + s - d2 - 1) ltac:(lia)). nia. }
        pose proof (Zdigits2_ge_pow q (d1 + s - d2 - 1) ltac:(lia) Hqge).
        lia. }
    rewrite fexp_eq. unfold e' at 1. rewrite fexp_eq.
    unfold s in Hdig. lia.
Qed.

(** The quotient of two finite doubles is the rounding of the exact
    quotient of their values. *)
Lemma SFdiv_finite_value (sx sy : bool) (mx my : positive) (ex ey : Z) :
  valid_binary (S754_finite sx mx ex) = true ->
  valid_binary (S754_finite sy my ey) = true ->
  let r := SFdiv prec emax (S754_finite sx mx ex) (S754_finite sy my ey) in
  r <> S754_nan /\
  xulps r = signed (xorb sx sy)
              (rnd_ulps (magnitude mx ex * 2 ^ 1074) (magnitude my ey)).
Proof.
  intros Hx Hy r.
  destruct (valid_finite sx mx ex Hx) as (Hex & _).
  destruct (valid_finite sy my ey Hy) as (Hey & _).
  pose proof (magnitude_bounds sx mx ex Hx) as [Bx _].
  pose proof (magnitude_bounds sy my ey Hy) as [By _].
  unfold r, SFdiv.
  destruct (SFdiv_core_spec mx my ex ey) as (q & e' & l & Ecore & Hs & Hrec & Hpre).
  rewrite Ecore.
  set (s := ex - ey - e') in *.
  pose proof (pow2_pos s Hs) as Hps.
  destruct (binary_round_aux_value (xorb sx sy) q e' l (Zpos mx * 2 ^ s)
              (Zpos my) ltac:(nia) ltac:(lia) Hrec Hpre) as [Hn Hv].
  split; [exact Hn|]. rewrite Hv. f_equal.
  set (j := e' + 1074).
  assert (H1074 : 0 < 2 ^ 1074) by (apply pow2_pos; lia).
  apply rnd_ulps_ext.
  - apply scale_num_nonneg. nia.
  - apply scale_den_pos. lia.
  - nia.
  - lia.
  - unfold scale_num, scale_den, magnitude.
    destruct (Z.le_gt_cases 0 j) as [Hj|Hj].
    + rewrite (Z.max_r 0 j), (Z.max_l 0 (- j)) by lia.
      change (2 ^ 0) with 1.
      transitivity (Zpos mx * Zpos my * (2 ^ s * 2 ^ j * 2 ^ (ey + 1074)));
        [ring|].
      transitivity (Zpos mx * Zpos my * (2 ^ (ex + 1074) * 2 ^ 1074));
        [|ring].
      f_equal. rewrite <- !Z.pow_add_r by lia. f_equal. unfold s, j. lia.
    + rewrite (Z.max_l 0 j), (Z.max_r 0 (- j)) by lia.
      change (2 ^ 0) with 1.
      transitivity (Zpos mx * Zpos my * (2 ^ s * 2 ^ (ey + 1074)));
        [ring|].
      transitivity (Zpos mx * Zpos my
                    * (2 ^ (ex + 1074) * 2 ^ 1074 * 2 ^ (- j)));
        [|ring].
      f_equal. rewrite <- !Z.pow_add_r by lia. f_equal. unfold s, j. lia.
Qed.


(** ** Comparisons read on values *)

Lemma SFltb_false_xulps (x y : spec_float) :
  valid_binary x = true -> valid_binary y = true ->
  x <> S754_nan -> y <> S754_nan ->
  (SFltb x y = false <-> xulps y <= xulps x).
Proof.
  intros Hx Hy Nx Ny. unfold SFltb.
  rewrite (SFcompare_xulps x y Hx Hy Nx Ny).
  destruct (Z.compare_spec (xulps x) (xulps y)); split; intros; try lia;
    try reflexivity; discriminate.
Qed.

Lemma SFltb_true_xulps (x y : spec_float) :
  valid_binary x = true -> valid_binary y = true ->
  SFltb x y = true -> x <> S754_nan /\ y <> S754_nan /\ xulps x < xulps y.
Proof.
  intros Hx Hy H.
  assert (Nx : x <> S754_nan) by (intros ->; discriminate H).
  assert (Ny : y <> S754_nan)
    by (intros ->; destruct x; discriminate H).
  split; [exact Nx | split; [exact Ny|]].
  unfold SFltb in H. rewrite (SFcompare_xulps x y Hx Hy Nx Ny) in H.
  destruct (Z.compare_spec (xulps x) (xulps y)); try discriminate. lia.
Qed.

Lemma SFleb_true_xulps (x y : spec_float) :
  valid_binary x = true -> valid_binary y = true ->
  SFleb x y = true -> x <> S754_nan /\ y <> S754_nan /\ xulps x <= xulps y.
Proof.
  intros Hx Hy H.
  assert (Nx : x <> S754_nan) by (intros ->; discriminate H).
  assert (Ny : y <> S754_nan)
    by (intros ->; destruct x; discriminate H).
  split; [exact Nx | split; [exact Ny|]].
  unfold SFleb in H. rewrite (SFcompare_xulps x y Hx Hy Nx Ny) in H.
  destruct (Z.compare_spec (xulps x) (xulps y)); try discriminate; lia.
Qed.

(** A valid double of positive value is a positive finite number or plus
    infinity. *)
Lemma xulps_pos_inv (x : spec_float) :
  0 < xulps x ->
  (exists m e, x = S754_finite false m e) \/ x = S754_infinity false.
Proof.
  pose proof top_pos.
  destruct x as [s|s| |s m e]; cbn [xulps]; intros Hpos; try lia.
  - destruct s; [lia | right; reflexivity].
  - destruct s; [|left; eauto].
    assert (0 < 2 ^ (e + 1074) \/ 2 ^ (e + 1074) = 0).
    { destruct (Z.le_gt_cases 0 (e + 1074)).
      - left. apply pow2_pos. lia.
      - right. apply Z.pow_neg_r. lia. }
    nia.
Qed.

Lemma rnd_signed_mono (D D' : Z) : D <= D' -> rnd_signed D <= rnd_signed D'.
Proof.
  intros Hle. unfold rnd_signed.
  destruct D as [|p|p], D' as [|p'|p']; try lia.
  - apply rnd_ulps_nonneg; lia.
  - apply rnd_ulps_mono; lia.
  - pose proof (rnd_ulps_nonneg (- Zneg p) 1 ltac:(lia) ltac:(lia)). lia.
  - pose proof (rnd_ulps_nonneg (- Zneg p) 1 ltac:(lia) ltac:(lia)).
    pose proof (rnd_ulps_nonneg (Zpos p') 1 ltac:(lia) ltac:(lia)). lia.
  - assert (rnd_ulps (- Zneg p') 1 <= rnd_ulps (- Zneg p) 1)
      by (apply rnd_ulps_mono; lia).
    lia.
Qed.


(** ** A lower buy price keeps both tests of the filter *)

Lemma SFltb_inf_l (t : spec_float) : SFltb (S754_infinity false) t = false.
Proof. destruct t as [s|s| |s m e]; try reflexivity; destruct s; reflexivity. Qed.

Lemma SFltb_nan_l (t : spec_float) : SFltb S754_nan t = false.
Proof. reflexivity. Qed.

Lemma SFltb_below (x t : spec_float) :
  valid_binary x = true -> valid_binary t = true ->
  x <> S754_nan -> t <> S754_nan ->
  xulps x <= 0 -> 0 < xulps t -> SFltb x t = true.
Proof.
  intros Hx Ht Nx Nt Hle Hpos. unfold SFltb.
  rewrite (SFcompare_xulps x t Hx Ht Nx Nt).
  destruct (Z.compare_spec (xulps x) (xulps t)); try lia; reflexivity.
Qed.

(** With [p = X - b] and [q = p / b], and the same with a buy price [b']
    such that [0 < b' <= b]: when neither [p < t1] nor [q < t2] holds
    for a positive threshold [t1], neither [p' < t1] nor [q' < t2]
    holds. *)
Lemma threshold_mono (X b b' t1 t2 : spec_float) :
  let p := SF64sub X b in
  let p' := SF64sub X b' in
  let q := SF64div p b in
  let q' := SF64div p' b' in
  valid_binary X = true -> valid_binary b = true -> valid_binary b' = true ->
  valid_binary t1 = true -> valid_binary t2 = true ->
  valid_binary p = true -> valid_binary p' = true ->
  valid_binary q = true -> valid_binary q' = true ->
  SFltb (S754_zero false) b' = true -> SFleb b' b = true ->
  SFltb (S754_zero false) t1 = true ->
  SFltb p t1 = false -> SFltb q t2 = false ->
  SFltb p' t1 = false /\ SFltb q' t2 = false.
Proof.
  intros p p' q q' VX Vb Vb' Vt1 Vt2 Vp Vp' Vq Vq' Hb' Hbb Ht1 Hp Hq.
  pose proof top_pos as Htop.
  destruct (SFltb_true_xulps (S754_zero false) b' eq_refl Vb' Hb')
    as (_ & Nb' & Pb').
  destruct (SFleb_true_xulps _ _ Vb' Vb Hbb) as (_ & Nb & Lbb).
  destruct (SFltb_true_xulps (S754_zero false) t1 eq_refl Vt1 Ht1)
    as (_ & Nt1 & Pt1).
  cbn [xulps] in Pb', Pt1.
  assert (Pb : 0 < xulps b) by lia.
  assert (Hneg : forall x, valid_binary x = true -> x <> S754_nan ->
                   xulps x <= 0 -> SFltb x t1 = true)
    by (intros x Vx Nx Hx; apply SFltb_below; assumption).
  destruct (xulps_pos_inv b Pb) as [(mb & eb & Eb)|Eb];
    destruct (xulps_pos_inv b' Pb') as [(mb' & eb' & Eb')|Eb'];
    subst b b'.
  - (* both buy prices are finite *)
    destruct X as [sX|sX| |sX mX eX].
    + (* X is zero: the profit is negative *)
      exfalso. unfold p, SF64sub, SFsub in Hp, Vp.
      rewrite Hneg in Hp; [discriminate | exact Vp | discriminate|].
      cbn [xulps negb]. cbn [xulps] in Pb. lia.
    + destruct sX.
      * (* X is minus infinity *)
        exfalso. unfold p, SF64sub, SFsub in Hp.
        rewrite Hneg in Hp; [discriminate | reflexivity | discriminate|].
        cbn [xulps]. lia.
      * (* X is plus infinity *)
        unfold q', p'. cbn. split; apply SFltb_inf_l.
    + split; reflexivity.
    + (* X is finite: the two roundings are ordered *)
      destruct (SFsub_finite_value sX false mX mb eX eb VX Vb) as [Np Hvp].
      destruct (SFsub_finite_value sX false mX mb' eX eb' VX Vb') as [Np' Hvp'].
      fold SF64sub in Np, Hvp, Np', Hvp'. fold p in Np, Hvp.
      fold p' in Np', Hvp'.
      assert (Hpp : xulps p <= xulps p').
      { rewrite Hvp, Hvp'. apply rnd_signed_mono. lia. }
      apply (SFltb_false_xulps p t1 Vp Vt1 Np Nt1) in Hp.
      assert (Hp'ok : SFltb p' t1 = false)
        by (apply (SFltb_false_xulps p' t1 Vp' Vt1 Np' Nt1); lia).
      split; [exact Hp'ok|].
      destruct t2 as [s2|s2| |s2 m2 e2] eqn:Et2;
        try (assert (Nt2 : t2 <> S754_nan) by (rewrite Et2; discriminate));
        [| |destruct q'; reflexivity|]; rewrite <- Et2 in *.
      all: destruct (xulps_pos_inv p' ltac:(lia)) as [(mp' & ep' & Ep')|Ep'];
        [|unfold q'; rewrite Ep'; apply SFltb_inf_l].
      all: destruct (xulps_pos_inv p ltac:(lia)) as [(mp & ep & Ep)|Ep];
        [|exfalso; rewrite Ep in Hpp; rewrite Ep' in Hpp, Vp';
          pose proof (magnitude_bounds _ _ _ Vp') as Bp';
          cbn [xulps] in Hpp; unfold magnitude in Bp'; lia].
      all: rewrite Ep in Vp, Hpp; rewrite Ep' in Vp', Hpp;
        destruct (SFdiv_finite_value false false mp mb ep eb Vp Vb) as [Nq Hvq];
        destruct (SFdiv_finite_value false false mp' mb' ep' eb' Vp' Vb')
          as [Nq' Hvq'];
        fold SF64div in Nq, Hvq, Nq', Hvq';
        unfold q in Hq, Vq; rewrite Ep in Hq, Vq;
        unfold q' in Vq' |- *; rewrite Ep' in Vq' |- *;
        apply (SFltb_false_xulps _ t2 Vq Vt2 Nq Nt2) in Hq;
        apply (SFltb_false_xulps _ t2 Vq' Vt2 Nq' Nt2);
        rewrite Hvq in Hq; rewrite Hvq';
        pose proof (magnitude_bounds _ _ _ Vp) as [Bp _];
        pose proof (magnitude_bounds _ _ _ Vp') as [Bp' _];
        pose proof (magnitude_bounds _ _ _ Vb) as [Bb _];
        pose proof (magnitude_bounds _ _ _ Vb') as [Bb' _];
        cbn [xulps] in Hpp, Lbb; fold (magnitude mp ep) in Hpp;
        fold (magnitude mp' ep') in Hpp; fold (magnitude mb eb) in Lbb;
        fold (magnitude mb' eb') in Lbb;
        assert (H1074 : 0 < 2 ^ 1074) by (apply pow2_pos; lia);
        assert (Hqq : rnd_ulps (magnitude mp ep * 2 ^ 1074) (magnitude mb eb)
                      <= rnd_ulps (magnitude mp' ep' * 2 ^ 1074)
                           (magnitude mb' eb'))
          by (apply rnd_ulps_mono; nia);
        cbn [xorb signed] in Hq |- *; lia.
  - (* b' infinite and b finite: excluded by b' <= b *)
    exfalso. pose proof (magnitude_bounds _ _ _ Vb) as Bb.
    cbn [xulps] in Lbb. unfold magnitude in Bb. lia.
  - (* b infinite: the profit is minus infinity or NaN *)
    destruct X as [sX|sX| |sX mX eX].
    + exfalso. unfold p, SF64sub, SFsub in Hp.
      rewrite Hneg in Hp; [discriminate | reflexivity | discriminate|].
      cbn [xulps negb]. lia.
    + destruct sX.
      * exfalso. unfold p, SF64sub, SFsub in Hp.
        rewrite Hneg in Hp; [discriminate | reflexivity | discriminate|].
        cbn [xulps]. lia.
      * unfold q', p'. cbn. split; apply SFltb_inf_l.
    + split; reflexivity.
    + exfalso. unfold p, SF64sub, SFsub in Hp.
      rewrite Hneg in Hp; [discriminate | reflexivity | discriminate|].
      cbn [xulps negb]. lia.
  - (* both infinite *)
    destruct X as [sX|sX| |sX mX eX].
    + exfalso. unfold p, SF64sub, SFsub in Hp.
      rewrite Hneg in Hp; [discriminate | reflexivity | discriminate|].
      cbn [xulps negb]. lia.
    + destruct sX.
      * exfalso. unfold p, SF64sub, SFsub in Hp.
        rewrite Hneg in Hp; [discriminate | reflexivity | discriminate|].
        cbn [xulps]. lia.
      * split; reflexivity.
    + split; reflexivity.
    + exfalso. unfold p, SF64sub, SFsub in Hp.
      rewrite Hneg in Hp; [discriminate | reflexivity | discriminate|].
      cbn [xulps negb]. lia.
Qed.

End Binary64.

(* ================================================================= *)
(** * The order of binary64 under subtraction *)

Module Binary64Order.
Import Py Rounding Binary64.
Open Scope Z_scope.

(** A double is NaN, an infinity, or a number within the range. *)
Definition bounded_float (x : spec_float) : Prop :=
  match x with
  | S754_zero _ | S754_finite _ _ _ => True
  | S754_infinity _ | S754_nan => False
  end.

Inductive kind : spec_float -> Prop :=
| kind_nan : kind S754_nan
| kind_infinity (s : bool) : kind (S754_infinity s)
| kind_bounded (x : spec_float) : bounded_float x -> kind x.

Lemma kind_of (x : spec_float) : kind x.
Proof.
  destruct x; [apply kind_bounded; exact I | apply kind_infinity
              | apply kind_nan | apply kind_bounded; exact I].
Qed.

Lemma xulps_bounded (x : spec_float) :
  valid_binary x = true -> bounded_float x -> - top < xulps x < top.
Proof.
  pose proof top_pos.
  destruct x as [s|s| |s m e]; cbn [xulps bounded_float]; intros Hv Hb;
    try contradiction; [lia|].
  pose proof (magnitude_bounds s m e Hv) as Hm. unfold magnitude in Hm.
  destruct s; lia.
Qed.

Lemma xulps_range (x : spec_float) :
  valid_binary x = true -> - top <= xulps x <= top.
Proof.
  pose proof top_pos. intros Hv.
  destruct (kind_of x) as [|s|x Hb]; cbn [xulps]; [lia | destruct s; lia|].
  pose proof (xulps_bounded x Hv Hb). lia.
Qed.

(** Rounding leaves a double as it is. *)
Lemma rne_one (a : Z) : rne a 1 = a.
Proof.
  unfold round_half_even_div. rewrite Z.div_1_r, Z.mod_1_r. reflexivity.
Qed.

Lemma rnd_ulps_id (s : bool) (m : positive) (e : Z) :
  valid_binary (S754_finite s m e) = true ->
  rnd_ulps (magnitude m e) 1 = magnitude m e.
Proof.
  intros Hv. destruct (valid_finite s m e Hv) as (He & Hm & Hn).
  pose proof (magnitude_bounds s m e Hv) as Hmag.
  unfold rnd_ulps. rewrite Z.div_1_r. unfold magnitude in *.
  rewrite Zdigits2_shift by lia.
  assert (Hd : Zdigits2 (Zpos m) <= 53)
    by (apply Zdigits2_lt_pow; lia).
  destruct (Z.eq_dec e (-1074)) as [->|Hne].
  - rewrite Z.max_l by lia. change (2 ^ 0) with 1.
    rewrite Z.mul_1_r, rne_one, Z.mul_1_r. lia.
  - assert (Hd' : 52 < Zdigits2 (Zpos m))
      by (apply Zdigits2_ge_pow; [lia | apply Hn; lia]).
    rewrite Z.max_r by lia.
    replace (Zdigits2 (Zpos m) + (e + 1074) - 53) with (e + 1074) by lia.
    pose proof (pow2_pos (e + 1074) ltac:(lia)) as Hp.
    rewrite (rne_scale (Zpos m) 1 (2 ^ (e + 1074))) by lia.
    rewrite rne_one. lia.
Qed.

Lemma rnd_signed_pos (D : Z) : 0 < D -> rnd_signed D = rnd_ulps D 1.
Proof. destruct D; intros H; try lia; reflexivity. Qed.

Lemma rnd_signed_neg (D : Z) : D < 0 -> rnd_signed D = - rnd_ulps (- D) 1.
Proof. destruct D; intros H; try lia; reflexivity. Qed.

Lemma rnd_signed_id (x : spec_float) :
  valid_binary x = true -> bounded_float x ->
  rnd_signed (xulps x) = xulps x.
Proof.
  destruct x as [s|s| |s m e]; cbn [xulps bounded_float]; intros Hv Hb;
    try contradiction; [reflexivity|].
  pose proof (rnd_ulps_id s m e Hv) as Hid.
  pose proof (magnitude_bounds s m e Hv) as Hmag.
  unfold magnitude in *.
  destruct s.
  - rewrite rnd_signed_neg by lia. rewrite Z.opp_involutive, Hid.
    reflexivity.
  - rewrite rnd_signed_pos by lia. exact Hid.
Qed.

(** The difference of two numbers within the range is the rounding of
    their exact difference. *)
Lemma SFsub_bounded_value (x y : spec_float) :
  valid_binary x = true -> valid_binary y = true ->
  bounded_float x -> bounded_float y ->
  SF64sub x y <> S754_nan /\
  xulps (SF64sub x y) = rnd_signed (xulps x - xulps y).
Proof.
  intros Hx Hy Bx By.
  destruct x as [sx|sx| |sx mx ex]; try contradiction;
    destruct y as [sy|sy| |sy my ey]; try contradiction.
  - split; [destruct sx, sy; discriminate | destruct sx, sy; reflexivity].
  - split; [discriminate|].
    change (SF64sub (S754_zero sx) (S754_finite sy my ey))
      with (S754_finite (negb sy) my ey).
    assert (Hv : valid_binary (S754_finite (negb sy) my ey) = true)
      by exact Hy.
    rewrite <- (rnd_signed_id _ Hv I). f_equal.
    cbn [xulps]. destruct sy; cbn [negb]; lia.
  - split; [discriminate|].
    change (SF64sub (S754_finite sx mx ex) (S754_zero sy))
      with (S754_finite sx mx ex).
    rewrite <- (rnd_signed_id _ Hx I) at 1. f_equal.
    cbn [xulps]. destruct sx; lia.
  - exact (SFsub_finite_value sx sy mx my ex ey Hx Hy).
Qed.

Lemma SFsub_infinity_l (s : bool) (y : spec_float) :
  bounded_float y -> SF64sub (S754_infinity s) y = S754_infinity s.
Proof. destruct y; intros H; try contradiction; reflexivity. Qed.

Lemma SFsub_infinity_r (x : spec_float) (s : bool) :
  bounded_float x -> SF64sub x (S754_infinity s) = S754_infinity (negb s).
Proof. destruct x; intros H; try contradiction; reflexivity. Qed.

(** The difference grows with its first operand. *)
Lemma SFsub_mono_l (x x' y : spec_float) :
  valid_binary x = true -> valid_binary x' = true -> valid_binary y = true ->
  x <> S754_nan -> x' <> S754_nan -> y <> S754_nan ->
  xulps x <= xulps x' ->
  valid_binary (SF64sub x y) = true -> valid_binary (SF64sub x' y) = true ->
  SF64sub x y <> S754_nan -> SF64sub x' y <> S754_nan ->
  xulps (SF64sub x y) <= xulps (SF64sub x' y).
Proof.
  intros Vx Vx' Vy Nx Nx' Ny Hle Vr Vr' Nr Nr'.
  pose proof top_pos as Htop.
  destruct (kind_of y) as [|sy|y By]; [congruence| |].
  - (* the results are the same infinity *)
    assert (Hr : forall z, z <> S754_nan ->
                           SF64sub z (S754_infinity sy) <> S754_nan ->
                           SF64sub z (S754_infinity sy)
                           = S754_infinity (negb sy)).
    { intros z Nz. destruct z as [s|s| |s m e]; try congruence;
        try reflexivity. destruct s, sy; cbn; congruence. }
    rewrite (Hr x Nx Nr), (Hr x' Nx' Nr'). lia.
  - destruct (kind_of x) as [|sx|x Bx]; [congruence| |];
      destruct (kind_of x') as [|sx'|x' Bx']; try congruence.
    + rewrite !SFsub_infinity_l by exact By. exact Hle.
    + rewrite SFsub_infinity_l in * by exact By.
      pose proof (xulps_bounded x' Vx' Bx').
      pose proof (xulps_range _ Vr').
      destruct sx; cbn [xulps] in *; lia.
    + rewrite (SFsub_infinity_l sx' y By) in *.
      pose proof (xulps_bounded x Vx Bx).
      pose proof (xulps_range _ Vr).
      destruct sx'; cbn [xulps] in *; lia.
    + destruct (SFsub_bounded_value x y Vx Vy Bx By) as [_ ->].
      destruct (SFsub_bounded_value x' y Vx' Vy Bx' By) as [_ ->].
      apply rnd_signed_mono. lia.
Qed.

(** The difference shrinks as its second operand grows. *)
Lemma SFsub_mono_r (x y y' : spec_float) :
  valid_binary x = true -> valid_binary y = true -> valid_binary y' = true ->
  x <> S754_nan -> y <> S754_nan -> y' <> S754_nan ->
  xulps y <= xulps y' ->
  valid_binary (SF64sub x y) = true -> valid_binary (SF64sub x y') = true ->
  SF64sub x y <> S754_nan -> SF64sub x y' <> S754_nan ->
  xulps (SF64sub x y') <= xulps (SF64sub x y).
Proof.
  intros Vx Vy Vy' Nx Ny Ny' Hle Vr Vr' Nr Nr'.
  pose proof top_pos as Htop.
  destruct (kind_of x) as [|sx|x Bx]; [congruence| |].
  - (* the results are the infinity [x] *)
    assert (Hr : forall z, z <> S754_nan ->
                           SF64sub (S754_infinity sx) z <> S754_nan ->
                           SF64sub (S754_infinity sx) z = S754_infinity sx).
    { intros z Nz. destruct z as [s|s| |s m e]; try congruence;
        try reflexivity. destruct s, sx; cbn; congruence. }
    rewrite (Hr y Ny Nr), (Hr y' Ny' Nr'). lia.
  - destruct (kind_of y) as [|sy|y By]; [congruence| |];
      destruct (kind_of y') as [|sy'|y' By']; try congruence.
    + rewrite !SFsub_infinity_r by exact Bx.
      destruct sy, sy'; cbn [xulps negb] in *; lia.
    + rewrite (SFsub_infinity_r x sy Bx) in *.
      pose proof (xulps_bounded y' Vy' By').
      pose proof (xulps_range _ Vr').
      destruct sy; cbn [xulps negb] in *; lia.
    + rewrite (SFsub_infinity_r x sy' Bx) in *.
      pose proof (xulps_bounded y Vy By).
      pose proof (xulps_range _ Vr).
      destruct sy'; cbn [xulps negb] in *; lia.
    + destruct (SFsub_bounded_value x y Vx Vy Bx By) as [_ ->].
      destruct (SFsub_bounded_value x y' Vx Vy' Bx By') as [_ ->].
      apply rnd_signed_mono. lia.
Qed.

(** A difference of two doubles other than NaN is NaN only for two
    infinities of one sign. *)
Lemma SFsub_nan_inv (x y : spec_float) :
  valid_binary x = true -> valid_binary y = true ->
  x <> S754_nan -> y <> S754_nan -> SF64sub x y = S754_nan ->
  exists s, x = S754_infinity s /\ y = S754_infinity s.
Proof.
  intros Vx Vy Nx Ny.
  destruct (kind_of x) as [|sx|x Bx]; [congruence| |];
    destruct (kind_of y) as [|sy|y By]; try congruence.
  - destruct sx, sy; cbn; try discriminate; eauto.
  - rewrite SFsub_infinity_l by exact By. discriminate.
  - rewrite SFsub_infinity_r by exact Bx. discriminate.
  - intros H. destruct (SFsub_bounded_value x y Vx Vy Bx By) as [Hn _].
    contradiction.
Qed.

Lemma xulps_top_inv (x : spec_float) :
  valid_binary x = true -> x <> S754_nan -> top <= xulps x ->
  x = S754_infinity false.
Proof.
  pose proof top_pos. intros Vx Nx Hx.
  destruct (kind_of x) as [|s|x Bx]; [congruence| |].
  - destruct s; cbn [xulps] in Hx; [lia | reflexivity].
  - pose proof (xulps_bounded x Vx Bx). lia.
Qed.

Lemma xulps_bottom_inv (x : spec_float) :
  valid_binary x = true -> x <> S754_nan -> xulps x <= - top ->
  x = S754_infinity true.
Proof.
  pose proof top_pos. intros Vx Nx Hx.
  destruct (kind_of x) as [|s|x Bx]; [congruence| |].
  - destruct s; cbn [xulps] in Hx; [reflexivity | lia].
  - pose proof (xulps_bounded x Vx Bx). lia.
Qed.

Lemma nan_dec (x : spec_float) : {x = S754_nan} + {x <> S754_nan}.
Proof. destruct x; [right | right | left | right]; congruence. Qed.

Lemma SFltb_nan_r (x : spec_float) : SFltb x S754_nan = false.
Proof. destruct x; reflexivity. Qed.

(** ** A lower outbound shipping cost keeps both tests of the filter *)

(** With [p = (Y - so) - b] and [q = p / b] for a positive [b], and the
    same with a cost [so'] such that [so <= so']: when neither [p' < t1]
    nor [q' < t2] holds for a positive threshold [t1], neither [p < t1]
    nor [q < t2] holds. *)
Lemma shipping_mono (Y so so' b t1 t2 : spec_float) :
  let A := SF64sub Y so in
  let A' := SF64sub Y so' in
  let p := SF64sub A b in
  let p' := SF64sub A' b in
  let q := SF64div p b in
  let q' := SF64div p' b in
  valid_binary Y = true -> valid_binary so = true ->
  valid_binary so' = true -> valid_binary b = true ->
  valid_binary t1 = true -> valid_binary t2 = true ->
  valid_binary A = true -> valid_binary A' = true ->
  valid_binary p = true -> valid_binary p' = true ->
  valid_binary q = true -> valid_binary q' = true ->
  SFltb (S754_zero false) b = true -> SFleb so so' = true ->
  SFltb (S754_zero false) t1 = true ->
  SFltb p' t1 = false -> SFltb q' t2 = false ->
  SFltb p t1 = false /\ SFltb q t2 = false.
Proof.
  intros A A' p p' q q' VY Vso Vso' Vb Vt1 Vt2 VA VA' Vp Vp' Vq Vq'
    Hb Hso Ht1 Hp' Hq'.
  pose proof top_pos as Htop.
  destruct (SFltb_true_xulps (S754_zero false) b eq_refl Vb Hb)
    as (_ & Nb & Pb).
  destruct (SFleb_true_xulps _ _ Vso Vso' Hso) as (Nso & Nso' & Lso).
  destruct (SFltb_true_xulps (S754_zero false) t1 eq_refl Vt1 Ht1)
    as (_ & Nt1 & Pt1).
  cbn [xulps] in Pb, Pt1.
  (* a NaN profit passes both tests *)
  destruct (nan_dec p) as [Ep|Np].
  { unfold q. rewrite Ep. split; reflexivity. }
  assert (NA : A <> S754_nan)
    by (intros E; apply Np; unfold p; rewrite E; reflexivity).
  assert (NY : Y <> S754_nan)
    by (intros E; apply NA; unfold A; rewrite E; reflexivity).
  (* an infinite profit passes both tests *)
  assert (Hinf : p = S754_infinity false ->
                 SFltb p t1 = false /\ SFltb q t2 = false).
  { intros Ep. unfold q. rewrite Ep. split; [apply SFltb_inf_l|].
    destruct (xulps_pos_inv b Pb) as [(mb & eb & Eb)|Eb]; rewrite Eb.
    - apply SFltb_inf_l.
    - reflexivity. }
  destruct (nan_dec A') as [EA'|NA'].
  { (* Y and so' are the same infinity *)
    destruct (SFsub_nan_inv Y so' VY Vso' NY Nso' EA') as (s & EY & Eso').
    destruct s.
    - exfalso. rewrite Eso' in Lso. cbn [xulps] in Lso.
      pose proof (xulps_bottom_inv so Vso Nso Lso) as Eso.
      apply NA. unfold A. rewrite EY, Eso. reflexivity.
    - apply Hinf.
      assert (EA : A = S754_infinity false).
      { unfold A in NA |- *. rewrite EY in NA |- *.
        destruct so as [s|s| |s m e]; try reflexivity; try congruence.
        destruct s; [reflexivity | exfalso; apply NA; reflexivity]. }
      unfold p in Np |- *. rewrite EA in Np |- *.
      destruct b as [s|s| |s m e]; try reflexivity; try congruence.
      destruct s; [reflexivity | exfalso; apply Np; reflexivity]. }
  assert (HAA : xulps A' <= xulps A)
    by (apply SFsub_mono_r; assumption).
  destruct (nan_dec p') as [Ep'|Np'].
  { (* A' and b are plus infinity, and so is A *)
    exfalso.
    destruct (SFsub_nan_inv A' b VA' Vb NA' Nb Ep') as (s & EA' & Eb).
    rewrite Eb in Pb. destruct s; cbn [xulps] in Pb; [lia|].
    rewrite EA' in HAA. cbn [xulps] in HAA.
    pose proof (xulps_top_inv A VA NA HAA) as EA.
    apply Np. unfold p. rewrite EA, Eb. reflexivity. }
  assert (Hpp : xulps p' <= xulps p)
    by (apply SFsub_mono_l; assumption).
  apply (SFltb_false_xulps p' t1 Vp' Vt1 Np' Nt1) in Hp'.
  split; [apply (SFltb_false_xulps p t1 Vp Vt1 Np Nt1); lia|].
  destruct (xulps_pos_inv p ltac:(lia)) as [(mp & ep & Ep)|Ep];
    [|apply Hinf; exact Ep].
  destruct (xulps_pos_inv p' ltac:(lia)) as [(mp' & ep' & Ep')|Ep'].
  2:{ exfalso. rewrite Ep' in Hpp. rewrite Ep in Hpp, Vp.
      pose proof (magnitude_bounds _ _ _ Vp) as Bmp.
      cbn [xulps] in Hpp. unfold magnitude in Bmp. lia. }
  destruct (xulps_pos_inv b Pb) as [(mb & eb & Eb)|Eb].
  2:{ (* b is plus infinity: the profit is not positive *)
      exfalso. unfold p in Ep. rewrite Eb in Ep.
      destruct A as [s|s| |s m e]; try discriminate Ep.
      destruct s; discriminate Ep. }
  destruct (nan_dec t2) as [Et2|Nt2]; [rewrite Et2; apply SFltb_nan_r|].
  rewrite Ep in Vp, Hpp. rewrite Ep' in Vp', Hpp. rewrite Eb in Vb.
  destruct (SFdiv_finite_value false false mp mb ep eb Vp Vb) as [Nq Hvq].
  destruct (SFdiv_finite_value false false mp' mb ep' eb Vp' Vb)
    as [Nq' Hvq'].
  fold SF64div in Nq, Hvq, Nq', Hvq'.
  unfold q in Vq |- *. rewrite Ep, Eb in Vq |- *.
  unfold q' in Hq', Vq'. rewrite Ep', Eb in Hq', Vq'.
  apply (SFltb_false_xulps _ t2 Vq' Vt2 Nq' Nt2) in Hq'.
  apply (SFltb_false_xulps _ t2 Vq Vt2 Nq Nt2).
  rewrite Hvq' in Hq'. rewrite Hvq.
  pose proof (magnitude_bounds _ _ _ Vp) as [Bmp _].
  pose proof (magnitude_bounds _ _ _ Vp') as [Bmp' _].
  pose proof (magnitude_bounds _ _ _ Vb) as [Bmb _].
  cbn [xulps] in Hpp. fold (magnitude mp ep) in Hpp.
  fold (magnitude mp' ep') in Hpp.
  assert (H1074 : 0 < 2 ^ 1074) by (apply pow2_pos; lia).
  assert (Hqq : rnd_ulps (magnitude mp' ep' * 2 ^ 1074) (magnitude mb eb)
                <= rnd_ulps (magnitude mp ep * 2 ^ 1074) (magnitude mb eb))
    by (apply rnd_ulps_mono; nia).
  cbn [xorb signed] in Hq' |- *. lia.
Qed.

End Binary64Order.

(* ================================================================= *)
(** * Rounded quotients and products of binary64 *)

Module Binary64Round.
Import Py Rounding Binary64 Binary64Order.
Open Scope Z_scope.

Lemma Zdigits2_pos_eq (p : positive) :
  Zpos (digits2_pos p) = Zdigits2 (Zpos p).
Proof. reflexivity. Qed.

(** What [binary_round_aux] builds is a double of the format. *)
Lemma finish_valid (sx : bool) (M e1 : Z) :
  0 <= M <= 2 ^ 53 -> -1074 <= e1 ->
  (-1074 < e1 -> M = 0 \/ 2 ^ 52 <= M) ->
  let k2 := Z.max 0 (fexp prec emax (Zdigits2 M + e1) - e1) in
  valid_binary (finish sx (M / 2 ^ k2) (e1 + k2)) = true.
Proof.
  intros [HM0 HM53] He1 Hnorm k2.
  destruct (Z.eq_dec M (2 ^ 53)) as [E|NE].
  - assert (Hk2 : k2 = 1).
    { unfold k2. rewrite fexp_eq, E.
      change (Zdigits2 (2 ^ 53)) with 54. lia. }
    rewrite Hk2, E.
    change (2 ^ 53 / 2 ^ 1) with (Zpos (Z.to_pos (2 ^ 52))).
    unfold finish. change (emax - prec) with 971.
    destruct (Z.leb_spec (e1 + 1) 971) as [Hle|Hgt]; [|reflexivity].
    unfold SpecFloat.valid_binary, bounded, canonical_mantissa.
    rewrite Zdigits2_pos_eq.
    change (Zdigits2 (Zpos (Z.to_pos (2 ^ 52)))) with 53.
    rewrite fexp_eq. change (emax - prec) with 971.
    apply andb_true_iff. split; [apply Z.eqb_eq | apply Z.leb_le]; lia.
  - assert (Hlt : M < 2 ^ 53) by lia.
    pose proof (Zdigits2_lt_pow M 53 HM0 ltac:(lia) Hlt) as Hd.
    assert (Hk2 : k2 = 0) by (unfold k2; rewrite fexp_eq; lia).
    rewrite Hk2. change (2 ^ 0) with 1. rewrite Z.div_1_r, Z.add_0_r.
    destruct M as [|p|p]; [reflexivity| |lia]. unfold finish.
    change (emax - prec) with 971.
    destruct (Z.leb_spec e1 971) as [Hle|Hgt]; [|reflexivity].
    unfold SpecFloat.valid_binary, bounded, canonical_mantissa.
    rewrite Zdigits2_pos_eq, fexp_eq. change (emax - prec) with 971.
    apply andb_true_iff. split; [apply Z.eqb_eq | apply Z.leb_le; lia].
    destruct (Z.eq_dec e1 (-1074)) as [->|Hne]; [lia|].
    destruct (Hnorm ltac:(lia)) as [H0|H52]; [discriminate|].
    pose proof (Zdigits2_ge_pow (Zpos p) 52 ltac:(lia) H52). lia.
Qed.

Lemma binary_round_aux_valid (sx : bool) (mx ex : Z) (lx : location)
  (A B : Z) :
  0 <= A -> 0 < B -> repr A B (shr_record_of_loc mx lx) ->
  ex <= fexp prec emax (Zdigits2 mx + ex) ->
  valid_binary (binary_round_aux prec emax sx mx ex lx) = true.
Proof.
  intros HA HB Hrec Hpre.
  assert (Hmx : mx = A / B).
  { destruct Hrec as (Hm & _). rewrite shr_m_of_loc in Hm. exact Hm. }
  assert (Hmx0 : 0 <= mx) by (rewrite Hmx; apply Z.div_pos; lia).
  rewrite (binary_round_aux_int sx mx ex lx A B HA HB Hrec).
  rewrite fexp_eq in Hpre.
  set (d := Zdigits2 mx) in *.
  assert (Hd0 : 0 <= d) by apply Zdigits2_nonneg.
  set (k := Z.max 0 (fexp prec emax (d + ex) - ex)).
  assert (Hk : k = Z.max (d + ex - 53) (-1074) - ex)
    by (unfold k; rewrite fexp_eq; lia).
  set (e1 := ex + k).
  assert (He1 : e1 = Z.max (d + ex - 53) (-1074)) by (unfold e1; lia).
  assert (Hk0 : 0 <= k) by lia.
  pose proof (pow2_pos k Hk0) as Hpk.
  set (M := rne A (B * 2 ^ k)).
  assert (Hmxlt : mx < 2 ^ d).
  { destruct (Z.eq_dec mx 0) as [E|N].
    - rewrite E. apply pow2_pos. lia.
    - apply Zdigits2_bounds. lia. }
  assert (Hdiv : A / (B * 2 ^ k) = mx / 2 ^ k)
    by (rewrite <- Z.div_div by lia; rewrite Hmx; reflexivity).
  assert (HM : 0 <= M <= 2 ^ 53).
  { split; [apply rne_nonneg; nia|].
    pose proof (rne_bounds A (B * 2 ^ k) ltac:(nia)) as [_ Hb].
    fold M in Hb. rewrite Hdiv in Hb.
    assert (mx / 2 ^ k < 2 ^ 53).
    { apply Z.div_lt_upper_bound; [lia|].
      rewrite <- Z.pow_add_r by lia.
      pose proof (pow2_le d (k + 53) Hd0 ltac:(lia)). lia. }
    lia. }
  assert (Hnorm : -1074 < e1 -> M = 0 \/ 2 ^ 52 <= M).
  { intros Hgt. right.
    assert (Hd1 : 1 <= d) by lia.
    assert (Hmxpos : 0 < mx).
    { destruct (Z.eq_dec mx 0) as [E|N]; [|lia].
      unfold d in Hd1. rewrite E in Hd1. simpl in Hd1. lia. }
    pose proof (Zdigits2_bounds mx Hmxpos) as [Hlo _]. fold d in Hlo.
    pose proof (rne_bounds A (B * 2 ^ k) ltac:(nia)) as [Hb _].
    fold M in Hb. rewrite Hdiv in Hb.
    assert (2 ^ 52 <= mx / 2 ^ k).
    { apply Z.div_le_lower_bound; [lia|].
      rewrite <- Z.pow_add_r by lia.
      replace (k + 52) with (d - 1) by lia. exact Hlo. }
    lia. }
  exact (finish_valid sx M e1 HM ltac:(lia) Hnorm).
Qed.

(** The quotient of two integers, as [round] divides them. *)
Lemma SFdiv_signed_integers (s : bool) (p1 p2 : positive) :
  let r := SFdiv prec emax (S754_finite s p1 0) (S754_finite false p2 0) in
  valid_binary r = true /\
  r <> S754_nan /\
  xulps r = signed s (rnd_ulps (Zpos p1 * 2 ^ 1074) (Zpos p2)).
Proof.
  intros r. unfold r, SFdiv.
  destruct (SFdiv_core_spec p1 p2 0 0)
    as (q & e' & l & Ecore & Hs & Hrec & Hpre).
  rewrite Ecore. rewrite xorb_false_r.
  set (t := 0 - 0 - e') in *.
  pose proof (pow2_pos t Hs) as Hps.
  assert (HA : 0 <= Zpos p1 * 2 ^ t) by nia.
  split.
  - exact (binary_round_aux_valid s q e' l
             (Zpos p1 * 2 ^ t) (Zpos p2) HA ltac:(lia) Hrec Hpre).
  - destruct (binary_round_aux_value s q e' l
                (Zpos p1 * 2 ^ t) (Zpos p2) HA ltac:(lia) Hrec Hpre)
      as [Hn Hv].
    split; [exact Hn|]. rewrite Hv. f_equal.
    set (j := e' + 1074).
    assert (H1074 : 0 < 2 ^ 1074) by (apply pow2_pos; lia).
    apply rnd_ulps_ext.
    + apply scale_num_nonneg. exact HA.
    + apply scale_den_pos. lia.
    + apply Z.mul_nonneg_nonneg; lia.
    + lia.
    + unfold scale_num, scale_den.
      destruct (Z.le_gt_cases 0 j) as [Hj|Hj].
      * rewrite (Z.max_r 0 j), (Z.max_l 0 (- j)) by lia.
        change (2 ^ 0) with 1.
        transitivity (Zpos p1 * Zpos p2 * (2 ^ t * 2 ^ j)); [ring|].
        transitivity (Zpos p1 * Zpos p2 * 2 ^ 1074); [|ring].
        f_equal. rewrite <- Z.pow_add_r by lia. f_equal. unfold t, j. lia.
      * rewrite (Z.max_l 0 j), (Z.max_r 0 (- j)) by lia.
        change (2 ^ 0) with 1.
        transitivity (Zpos p1 * Zpos p2 * 2 ^ t); [ring|].
        transitivity (Zpos p1 * Zpos p2 * (2 ^ 1074 * 2 ^ (- j))); [|ring].
        f_equal. rewrite <- Z.pow_add_r by lia. f_equal. unfold t, j. lia.
Qed.

Lemma SFdiv_integers (p1 p2 : positive) :
  let r := SFdiv prec emax (S754_finite false p1 0) (S754_finite false p2 0) in
  valid_binary r = true /\
  r <> S754_nan /\
  xulps r = rnd_ulps (Zpos p1 * 2 ^ 1074) (Zpos p2).
Proof. exact (SFdiv_signed_integers false p1 p2). Qed.

(** The product of a double by a normal one is the rounding of the
    exact product. *)
Lemma SFmul_normal_value (sx sy : bool) (mx my : positive) (ex ey : Z) :
  valid_binary (S754_finite sx mx ex) = true ->
  valid_binary (S754_finite sy my ey) = true ->
  2 ^ 52 <= Zpos my ->
  let j := ex + ey + 1074 in
  let r := SF64mul (S754_finite sx mx ex) (S754_finite sy my ey) in
  r <> S754_nan /\
  xulps r = signed (xorb sx sy)
              (rnd_ulps (scale_num (Zpos mx * Zpos my) j) (scale_den 1 j)).
Proof.
  intros Hx Hy Hnorm j r. unfold r, SF64mul, SFmul.
  rewrite Pos2Z.inj_mul.
  assert (Hpre : ex + ey
                 <= fexp prec emax (Zdigits2 (Zpos mx * Zpos my) + (ex + ey))).
  { rewrite fexp_eq.
    assert (2 ^ 52 <= Zpos mx * Zpos my) by nia.
    pose proof (Zdigits2_ge_pow (Zpos mx * Zpos my) 52 ltac:(lia) H). lia. }
  exact (binary_round_aux_value (xorb sx sy) (Zpos mx * Zpos my) (ex + ey)
           loc_Exact (Zpos mx * Zpos my) 1 ltac:(lia) ltac:(lia)
           (repr_exact _) Hpre).
Qed.


(** ** Rounding to decimals keeps a value at or above 25 *)

(** The double 25.0, in units of the last place. *)
Definition ulps_25 : Z := 25 * 2 ^ 1074.

Lemma rnd_ulps_25 : rnd_ulps ulps_25 1 = ulps_25.
Proof.
  assert (Hv : valid_binary (S754_finite false 7036874417766400 (-48)) = true)
    by reflexivity.
  assert (Hm : magnitude 7036874417766400 (-48) = ulps_25).
  { unfold magnitude, ulps_25.
    change (-48 + 1074) with 1026. change 1074 with (48 + 1026).
    rewrite Z.pow_add_r by lia.
    change (Zpos 7036874417766400) with (25 * 2 ^ 48). ring. }
  rewrite <- Hm. exact (rnd_ulps_id false _ _ Hv).
Qed.

Lemma scaled_digits_25 (m : positive) (e n : Z) :
  -1074 <= e -> 0 <= n ->
  ulps_25 <= Zpos m * 2 ^ (e + 1074) ->
  25 * 10 ^ n <= scaled_digits m e n.
Proof.
  intros He Hn Hx. unfold ulps_25 in Hx. unfold scaled_digits.
  assert (H10 : 0 < 10 ^ n) by (apply Z.pow_pos_nonneg; lia).
  assert (H1074 : 0 < 2 ^ 1074) by (apply pow2_pos; lia).
  destruct (Z.leb_spec 0 e) as [Hpos|Hneg].
  - rewrite Z.pow_add_r in Hx by lia.
    pose proof (pow2_pos e Hpos) as Hpe.
    assert (25 <= Zpos m * 2 ^ e) by nia. nia.
  - pose proof (pow2_pos (- e) ltac:(lia)) as Hpe.
    assert (Hsplit : 2 ^ (e + 1074) * 2 ^ (- e) = 2 ^ 1074).
    { rewrite <- Z.pow_add_r by lia. f_equal. lia. }
    assert (Hm : 25 * 2 ^ (- e) <= Zpos m) by nia.
    replace (25 * 10 ^ n) with (rne (25 * 10 ^ n) 1) by apply rne_one.
    apply rne_mono; [lia | lia | nia].
Qed.

Lemma decimal_at_least_25 (k n : Z) :
  0 <= n -> 25 * 10 ^ n <= k ->
  let r := Prim2SF (decimal_to_float false k n) in
  r <> S754_nan /\ ulps_25 <= xulps r.
Proof.
  intros Hn Hk r.
  assert (H10 : 0 < 10 ^ n) by (apply Z.pow_pos_nonneg; lia).
  destruct k as [|p|p]; try lia.
  unfold r, decimal_to_float.
  destruct (SFdiv_integers p (Z.to_pos (10 ^ n))) as (Hv & Hnan & Hval).
  rewrite (Prim2SF_SF2Prim _ Hv). split; [exact Hnan|].
  rewrite Hval, Z2Pos.id by lia.
  rewrite <- rnd_ulps_25.
  assert (H1074 : 0 < 2 ^ 1074) by (apply pow2_pos; lia).
  apply rnd_ulps_mono; unfold ulps_25; try lia; nia.
Qed.

End Binary64Round.

(* ================================================================= *)
(** * The order of a sample of numbers *)

Module OrderFacts.
Import F64 F64Facts Py PyFacts Binary64.
Open Scope float_scope.

(** A sample of numbers: no element is NaN. *)
Definition numbers (l : list float) : Prop :=
  Forall (fun x => is_nan x = false) l.

(** [x <= y], the order a sorted sample follows. *)
Definition at_most (x y : float) : Prop := (x <=? y) = true.

Lemma ltb_at_most (x y : float) : (x <? y) = true -> at_most x y.
Proof.
  unfold at_most. rewrite ltb_spec, leb_spec. unfold SFltb, SFleb.
  destruct (SFcompare (Prim2SF x) (Prim2SF y)) as [[]|]; congruence.
Qed.

Lemma not_ltb_at_most (x y : float) :
  is_nan x = false -> is_nan y = false -> (x <? y) = false -> at_most y x.
Proof.
  intros Hx Hy H. unfold at_most. rewrite (ltb_false_leb x y Hx Hy) in H.
  apply negb_false_iff in H. exact H.
Qed.

Lemma at_most_trans (x y z : float) : at_most x y -> at_most y z -> at_most x z.
Proof.
  unfold at_most. rewrite !leb_spec. intros Hxy Hyz.
  destruct (SFleb_true_xulps _ _ (Prim2SF_valid x) (Prim2SF_valid y) Hxy)
    as (Nx & _ & Lxy).
  destruct (SFleb_true_xulps _ _ (Prim2SF_valid y) (Prim2SF_valid z) Hyz)
    as (_ & Nz & Lyz).
  unfold SFleb.
  rewrite (SFcompare_xulps _ _ (Prim2SF_valid x) (Prim2SF_valid z) Nx Nz).
  destruct (Z.compare_spec (xulps (Prim2SF x)) (xulps (Prim2SF z)));
    [reflexivity | reflexivity | lia].
Qed.

Lemma insort_In (x y : float) (l : list float) :
  In y (insort x l) -> y = x \/ In y l.
Proof.
  intros H. apply (Permutation_in y (Permutation_sym (insort_perm x l))) in H.
  destruct H as [H|H]; auto.
Qed.

Lemma insort_sorted (x : float) (l : list float) :
  is_nan x = false -> numbers l ->
  StronglySorted at_most l -> StronglySorted at_most (insort x l).
Proof.
  intros Hx Hl Hs. induction Hs as [|y l Hs IH Hy]; simpl.
  - constructor; constructor.
  - inversion Hl as [|? ? Ny Nl]; subst.
    destruct (x <? y) eqn:E.
    + constructor; [constructor; assumption|].
      constructor; [apply ltb_at_most; exact E|].
      rewrite Forall_forall in Hy |- *. intros z Hz.
      apply at_most_trans with y; [apply ltb_at_most; exact E | exact (Hy z Hz)].
    + constructor; [exact (IH Nl)|].
      rewrite Forall_forall in Hy |- *. intros z Hz.
      apply insort_In in Hz. destruct Hz as [->|Hz].
      * apply not_ltb_at_most; assumption.
      * exact (Hy z Hz).
Qed.

Lemma insort_numbers (x : float) (l : list float) :
  is_nan x = false -> numbers l -> numbers (insort x l).
Proof.
  intros Hx Hl. unfold numbers in *. rewrite Forall_forall in *.
  intros y Hy. apply insort_In in Hy. destruct Hy as [->|Hy]; auto.
Qed.

Lemma fold_insort_sorted (l acc : list float) :
  numbers l -> numbers acc -> StronglySorted at_most acc ->
  StronglySorted at_most (fold_left (fun a x => insort x a) l acc).
Proof.
  revert acc. induction l as [|x l IH]; intros acc Hl Ha Hs; simpl.
  - exact Hs.
  - inversion Hl as [|? ? Hx Hl']; subst.
    apply IH; [exact Hl' | apply insort_numbers; assumption
              | apply insort_sorted; assumption].
Qed.

(** On a sample of numbers [sorted] returns the sample in ascending
    order. *)
Lemma sorted_sorted (l : list float) :
  numbers l -> StronglySorted at_most (sorted l).
Proof.
  intros Hl. apply fold_insort_sorted; [exact Hl | constructor | constructor].
Qed.

(** The statistical median of a sample: with the sample put in ascending
    order, the middle element when the count is odd, the mean of the two
    middle elements when it is even. *)
Definition statistical_median (sample : list float) (m : float) : Prop :=
  exists s,
    Permutation sample s /\
    StronglySorted at_most s /\
    let n := List.length sample in
    if Nat.odd n then nth_error s (n / 2) = Some m
    else exists a b,
        nth_error s (n / 2 - 1) = Some a /\
        nth_error s (n / 2) = Some b /\
        m = (a + b) / 2.

Lemma median_statistical (sample : list float) :
  sample <> [] -> numbers sample ->
  exists m, median sample = Some m /\ statistical_median sample m.
Proof.
  intros Hne Hnum.
  destruct (median_defined sample Hne) as [m Hm]. exists m.
  split; [exact Hm|]. exists (sorted sample).
  split; [apply sorted_perm|]. split; [apply sorted_sorted; exact Hnum|].
  cbv zeta. unfold median in Hm. cbv zeta in Hm.
  rewrite sorted_length in Hm.
  destruct (Nat.eqb (List.length sample) 0); [discriminate|].
  rewrite <- Nat.bit0_mod, Nat.bit0_odd in Hm.
  destruct (Nat.odd (List.length sample)).
  - exact Hm.
  - cbv beta iota in Hm.
    destruct (nth_error (sorted sample) (List.length sample / 2 - 1))
      as [a|]; [|discriminate].
    destruct (nth_error (sorted sample) (List.length sample / 2))
      as [b|]; [|discriminate].
    injection Hm as <-. exists a, b. auto.
Qed.

End OrderFacts.

(* ================================================================= *)
(** * Rounding to decimals, by what it returns *)

Module DecimalFacts.
Import Py Rounding Binary64 Binary64Order Binary64Round.
Open Scope Z_scope.

(** [y] is a double nearest to the rational [n / d]: it is a number of
    the format, and no number of the format is closer to [n / d]. The
    values are compared in units of the last place, [2^-1074]. *)
Definition nearest_double (n d : Z) (y : float) : Prop :=
  bounded_float (Prim2SF y) /\
  forall z : float,
    bounded_float (Prim2SF z) ->
    Z.abs (xulps (Prim2SF y) * d - n * 2 ^ 1074)
    <= Z.abs (xulps (Prim2SF z) * d - n * 2 ^ 1074).

(** [y] is the number [x] rounded to [ndigits] decimals: a double
    nearest to [k / 10^ndigits], where [k] is the integer nearest to
    [x * 10^ndigits], the even one on a tie. *)
Definition rounded_decimal (ndigits : Z) (x y : float) : Prop :=
  exists k : Z,
    nearest_even k (xulps (Prim2SF x) * 10 ^ ndigits) (2 ^ 1074) /\
    nearest_double k (10 ^ ndigits) y.

(** What [round(x, ndigits)] has to return: the rounded number, and [x]
    itself when [x] is NaN or an infinity. *)
Definition rounded_field (ndigits : Z) (x y : float) : Prop :=
  match Prim2SF x with
  | S754_nan | S754_infinity _ => y = x
  | S754_zero _ | S754_finite _ _ _ => rounded_decimal ndigits x y
  end.

(** ** The nearest integer, on equal fractions and on opposites *)

Lemma nearest_even_ext (k a1 d1 a2 d2 : Z) :
  0 < d1 -> 0 < d2 -> a1 * d2 = a2 * d1 ->
  nearest_even k a1 d1 -> nearest_even k a2 d2.
Proof.
  intros H1 H2 E [Hn Ht]. unfold nearest_even.
  assert (Hs : Z.abs (2 * (k * d2 - a2)) * d1
               = Z.abs (2 * (k * d1 - a1)) * d2).
  { rewrite <- (Z.abs_eq d1) at 1 by lia.
    rewrite <- (Z.abs_eq d2) at 2 by lia.
    rewrite <- !Z.abs_mul. f_equal. nia. }
  split.
  - apply Z.mul_le_mono_pos_r with d1; [exact H1|]. rewrite Hs. nia.
  - intros Ed. apply Ht. rewrite Ed in Hs.
    apply Z.mul_reg_r with d2; [lia|]. rewrite <- Hs. ring.
Qed.

Lemma nearest_even_opp (k a d : Z) :
  nearest_even k a d -> nearest_even (- k) (- a) d.
Proof.
  unfold nearest_even.
  replace (2 * (- k * d - - a)) with (- (2 * (k * d - a))) by ring.
  rewrite Z.abs_opp, Z.even_opp. exact (fun H => H).
Qed.

(** ** The doubles as a grid *)

(** Above [2^(K+52)] units the values of the format are multiples of
    [2^K] units. *)
Definition on_grid (V : Z) : Prop :=
  forall K, 0 <= K -> (exists u, V = u * 2 ^ K) \/ Z.abs V < 2 ^ (K + 52).

Lemma on_grid_opp (V : Z) : on_grid V -> on_grid (- V).
Proof.
  intros H K HK. destruct (H K HK) as [[u ->]|Hlt].
  - left. exists (- u). ring.
  - right. rewrite Z.abs_opp. exact Hlt.
Qed.

Lemma xulps_on_grid (z : spec_float) :
  valid_binary z = true -> bounded_float z -> on_grid (xulps z).
Proof.
  intros Hv Hb K HK.
  destruct z as [s|s| |s m e]; cbn [bounded_float] in Hb; try contradiction.
  - left. exists 0. reflexivity.
  - destruct (valid_finite s m e Hv) as (He & Hm & _).
    assert (Hg : (exists u, Zpos m * 2 ^ (e + 1074) = u * 2 ^ K) \/
                 Zpos m * 2 ^ (e + 1074) < 2 ^ (K + 52)).
    { destruct (Z.le_gt_cases K (e + 1074)) as [Hle|Hgt].
      - left. exists (Zpos m * 2 ^ (e + 1074 - K)).
        rewrite <- Z.mul_assoc, <- Z.pow_add_r by lia.
        do 2 f_equal. lia.
      - right.
        pose proof (pow2_pos (e + 1074) ltac:(lia)) as Hp.
        pose proof (pow2_le (e + 1074) (K - 1) ltac:(lia) ltac:(lia)) as Hq.
        replace (K + 52) with (53 + (K - 1)) by lia.
        rewrite (Z.pow_add_r 2 53 (K - 1)) by lia.
        apply Z.lt_le_trans with (2 ^ 53 * 2 ^ (e + 1074)).
        + apply Z.mul_lt_mono_pos_r; assumption.
        + apply Z.mul_le_mono_nonneg_l; [lia | exact Hq]. }
    pose proof (pow2_pos (e + 1074) ltac:(lia)) as Hp.
    cbn [xulps]. destruct s.
    + destruct Hg as [[u E]|Hlt].
      * left. exists (- u). rewrite E. ring.
      * right. rewrite Z.abs_opp, Z.abs_eq by nia. exact Hlt.
    + destruct Hg as [[u E]|Hlt].
      * left. exists u. exact E.
      * right. rewrite Z.abs_eq by nia. exact Hlt.
Qed.

(** ** Rounding to nearest returns a nearest double *)

Lemma rne_nearest_multiple (P Q K u : Z) :
  0 < Q -> 0 <= K ->
  Z.abs (rne P (Q * 2 ^ K) * 2 ^ K * Q - P) <= Z.abs (u * 2 ^ K * Q - P).
Proof.
  intros HQ HK. pose proof (pow2_pos K HK) as Hp.
  assert (HD : 0 < Q * 2 ^ K) by nia.
  destruct (round_half_even_div_nearest P (Q * 2 ^ K) HD) as [Hn _].
  set (j := rne P (Q * 2 ^ K)) in *. set (D := Q * 2 ^ K) in *.
  replace (j * 2 ^ K * Q) with (j * D) by (unfold D; ring).
  replace (u * 2 ^ K * Q) with (u * D) by (unfold D; ring).
  destruct (Z.eq_dec u j) as [->|Hne]; [lia|].
  assert (Hgap : D <= Z.abs (u * D - j * D)).
  { replace (u * D - j * D) with ((u - j) * D) by ring.
    rewrite Z.abs_mul, (Z.abs_eq D) by lia.
    assert (1 <= Z.abs (u - j)) by lia. nia. }
  lia.
Qed.

Lemma rnd_ulps_nearest (P Q V : Z) :
  0 <= P -> 0 < Q -> rnd_ulps P Q < top -> on_grid V ->
  Z.abs (rnd_ulps P Q * Q - P) <= Z.abs (V * Q - P).
Proof.
  intros HP HQ Htop Hgrid. unfold rnd_ulps in *.
  set (K := Z.max 0 (Zdigits2 (P / Q) - 53)) in *.
  assert (HK : 0 <= K) by (unfold K; lia).
  rewrite Z.min_l in * by lia.
  destruct (Hgrid K HK) as [[u ->]|Hlt];
    [apply rne_nearest_multiple; assumption|].
  destruct (Z.eq_dec K 0) as [E|NE].
  - rewrite E. change (2 ^ 0) with 1.
    replace (V * Q) with (V * 2 ^ 0 * Q) by (change (2 ^ 0) with 1; ring).
    replace (rne P (Q * 1) * 1 * Q) with (rne P (Q * 2 ^ 0) * 2 ^ 0 * Q)
      by (change (2 ^ 0) with 1; ring).
    apply rne_nearest_multiple; lia.
  - assert (Hd : Zdigits2 (P / Q) = K + 53) by (unfold K in *; lia).
    assert (Hq : 0 < P / Q).
    { destruct (Z.eq_dec (P / Q) 0) as [E0|N0].
      - rewrite E0 in Hd. change (Zdigits2 0) with 0 in Hd. lia.
      - pose proof (Z.div_pos P Q HP HQ). lia. }
    pose proof (Zdigits2_bounds (P / Q) Hq) as [Hlo _].
    rewrite Hd in Hlo. replace (K + 53 - 1) with (K + 52) in Hlo by lia.
    pose proof (Z.mul_div_le P Q HQ) as Hfloor.
    assert (Hbase : 2 ^ (K + 52) * Q <= P) by nia.
    pose proof (rne_nearest_multiple P Q K (2 ^ 52) HQ HK) as Hnear.
    replace (2 ^ 52 * 2 ^ K) with (2 ^ (K + 52)) in Hnear
      by (rewrite Z.add_comm, Z.pow_add_r by lia; reflexivity).
    assert (HV : V < 2 ^ (K + 52)) by lia.
    assert (V * Q <= 2 ^ (K + 52) * Q) by nia.
    lia.
Qed.

(** ** The last step of [round] *)

(** The last step of [round] returns a double nearest to the decimal,
    when the decimal is within the range. *)
Lemma decimal_to_float_nearest (s : bool) (k n : Z) :
  0 <= k -> 0 <= n ->
  rnd_ulps (k * 2 ^ 1074) (10 ^ n) < top ->
  nearest_double (signed s k) (10 ^ n) (decimal_to_float s k n).
Proof.
  intros Hk Hn Htop.
  assert (H10 : 0 < 10 ^ n) by (apply Z.pow_pos_nonneg; lia).
  destruct k as [|p|p]; [| |lia].
  - assert (Hz : Prim2SF (decimal_to_float s 0 n) = S754_zero s)
      by (destruct s; reflexivity).
    unfold nearest_double. rewrite Hz. split; [exact I|].
    intros z _. destruct s; cbn [xulps signed]; lia.
  - unfold decimal_to_float, nearest_double.
    destruct (SFdiv_signed_integers s p (Z.to_pos (10 ^ n)))
      as (Hv & Hnan & Hval).
    rewrite (Prim2SF_SF2Prim _ Hv).
    rewrite Z2Pos.id in Hval by lia.
    set (r := SFdiv prec emax _ _) in *.
    set (R := rnd_ulps (Zpos p * 2 ^ 1074) (10 ^ n)) in *.
    assert (HP : 0 <= Zpos p * 2 ^ 1074)
      by (apply Z.mul_nonneg_nonneg; [lia | apply Z.pow_nonneg; lia]).
    pose proof (rnd_ulps_nonneg _ _ HP H10) as HR. fold R in HR.
    pose proof top_pos as Ht.
    split.
    + destruct r as [sr|sr| |sr mr er]; cbn [bounded_float];
        [exact I | | congruence | exact I].
      cbn [xulps] in Hval. destruct sr, s; cbn [signed] in Hval; lia.
    + intros z Hz. rewrite Hval.
      pose proof (xulps_on_grid (Prim2SF z) (Prim2SF_valid z) Hz) as Hg.
      destruct s; cbn [signed].
      * pose proof (rnd_ulps_nearest _ _ _ HP H10 Htop (on_grid_opp _ Hg))
          as Hnear. fold R in Hnear. lia.
      * pose proof (rnd_ulps_nearest _ _ _ HP H10 Htop Hg) as Hnear.
        fold R in Hnear. lia.
Qed.

(** ** [round] returns the rounded number *)

Lemma scaled_digits_nonneg (m : positive) (e n : Z) :
  0 <= n -> 0 <= scaled_digits m e n.
Proof.
  intros Hn. unfold scaled_digits.
  assert (H10 : 0 < 10 ^ n) by (apply Z.pow_pos_nonneg; lia).
  destruct (Z.leb_spec 0 e) as [He|He].
  - pose proof (pow2_pos e He). nia.
  - apply rne_nonneg; [nia | apply pow2_pos; lia].
Qed.

(** The decimal that [round] builds from a double is within the
    range. *)
Lemma scaled_digits_in_range (s : bool) (m : positive) (e n : Z) :
  valid_binary (S754_finite s m e) = true -> 0 <= n ->
  rnd_ulps (scaled_digits m e n * 2 ^ 1074) (10 ^ n) < top.
Proof.
  intros Hv Hn.
  destruct (valid_finite s m e Hv) as (He & Hm & _).
  assert (H10 : 0 < 10 ^ n) by (apply Z.pow_pos_nonneg; lia).
  assert (H1074 : 0 < 2 ^ 1074) by (apply pow2_pos; lia).
  pose proof (scaled_digits_nonneg m e n Hn) as Hk.
  unfold scaled_digits in *. destruct (Z.leb_spec 0 e) as [Hpos|Hneg].
  - pose proof (pow2_pos e Hpos) as Hpe.
    rewrite (rnd_ulps_ext _ _ (magnitude m e) 1); try lia.
    + rewrite (rnd_ulps_id s m e Hv).
      apply (magnitude_bounds s m e Hv).
    + pose proof (magnitude_bounds s m e Hv). lia.
    + unfold magnitude. rewrite Z.pow_add_r by lia. ring.
  - pose proof (pow2_pos (- e) ltac:(lia)) as Hpe.
    pose proof (rne_bounds (Zpos m * 10 ^ n) (2 ^ (- e)) Hpe) as [_ Hhi].
    assert (Hdiv : Zpos m * 10 ^ n / 2 ^ (- e) <= Zpos m * 10 ^ n).
    { apply Z.div_le_upper_bound; [lia|]. nia. }
    assert (Hv' : valid_binary (S754_finite false 4503599627370496 1) = true)
      by reflexivity.
    apply Z.le_lt_trans with (rnd_ulps (magnitude 4503599627370496 1) 1).
    + apply rnd_ulps_mono; try lia.
      * pose proof (magnitude_bounds false _ _ Hv'). lia.
      * replace (magnitude 4503599627370496 1) with (2 ^ 53 * 2 ^ 1074)
          by reflexivity.
        set (k := round_half_even_div (Zpos m * 10 ^ n) (2 ^ (- e))) in *.
        assert (Hk53 : k <= 2 ^ 53 * 10 ^ n) by nia.
        set (A := 2 ^ 1074) in *. nia.
    + rewrite (rnd_ulps_id false _ _ Hv').
      apply (magnitude_bounds false _ _ Hv').
Qed.

Lemma round_ndigits_rounded (x : float) (n : Z) :
  0 <= n -> rounded_field n x (round_ndigits x n).
Proof.
  intros Hn. unfold rounded_field, round_ndigits.
  assert (H10 : 0 < 10 ^ n) by (apply Z.pow_pos_nonneg; lia).
  assert (H1074 : 0 < 2 ^ 1074) by (apply pow2_pos; lia).
  pose proof (Prim2SF_valid x) as Hv.
  destruct (Prim2SF x) as [s|s| |s m e] eqn:E; try reflexivity.
  - exists 0. rewrite E. cbn [xulps]. split.
    + unfold nearest_even.
      replace (2 * (0 * 2 ^ 1074 - 0 * 10 ^ n)) with 0 by ring.
      split; [simpl Z.abs; lia | intros _; reflexivity].
    + unfold nearest_double. rewrite E. split; [exact I|].
      intros z _. cbn [xulps]. lia.
  - destruct (valid_finite s m e Hv) as (He & Hm & _).
    pose proof (scaled_digits_nonneg m e n Hn) as Hk.
    exists (signed s (scaled_digits m e n)). rewrite E. split.
    + assert (Hne : nearest_even (scaled_digits m e n)
                      (Zpos m * 2 ^ (e + 1074) * 10 ^ n) (2 ^ 1074)).
      { apply (nearest_even_ext _ (Zpos m * 10 ^ n * 2 ^ Z.max e 0)
                 (2 ^ Z.max (- e) 0) _ _
                 (pow2_pos (Z.max (- e) 0) ltac:(lia)) H1074);
          [|apply scaled_digits_nearest].
        destruct (Z.le_gt_cases 0 e) as [Hpos|Hneg].
        - rewrite (Z.max_l e 0), (Z.max_r (- e) 0) by lia.
          rewrite Z.pow_add_r by lia. change (2 ^ 0) with 1. ring.
        - rewrite (Z.max_r e 0), (Z.max_l (- e) 0) by lia.
          change (2 ^ 0) with 1.
          replace (2 ^ 1074) with (2 ^ (e + 1074) * 2 ^ (- e))
            by (rewrite <- Z.pow_add_r by lia; f_equal; lia).
          ring. }
      cbn [xulps]. destruct s; cbn [signed]; [|exact Hne].
      replace (- (Zpos m * 2 ^ (e + 1074)) * 10 ^ n)
        with (- (Zpos m * 2 ^ (e + 1074) * 10 ^ n)) by ring.
      apply nearest_even_opp. exact Hne.
    + apply decimal_to_float_nearest; [exact Hk | exact Hn|].
      exact (scaled_digits_in_range s m e n Hv Hn).
Qed.

End DecimalFacts.

(* ================================================================= *)
(** * The estimator *)

Module EstimatorFacts.
Import F64 F64Facts Py PyFacts Rounding Estimator Binary64Order OrderFacts
  DecimalFacts.
Open Scope string_scope.
Open Scope float_scope.

(** An active listing as [parse_active_items] builds it from a price and a
    shipping cost. *)
Definition listing (price shipping : float) : ActiveListing :=
  {| active_title := "Nintendo Game Boy";
     active_item_id := "1001";
     active_url := "https://www.ebay.co.uk/itm/1001";
     active_price_gbp := price;
     active_shipping_gbp := shipping;
     active_buy_price_gbp := price + shipping |}.

(** The listing [a] offered at the buy price [b]. *)
Definition with_buy_price (a : ActiveListing) (b : float) : ActiveListing :=
  {| active_title := active_title a;
     active_item_id := active_item_id a;
     active_url := active_url a;
     active_price_gbp := active_price_gbp a;
     active_shipping_gbp := active_shipping_gbp a;
     active_buy_price_gbp := b |}.

Lemma median_some_nonempty (sold : list float) (med : float) :
  median sold = Some med -> Nat.eqb (List.length sold) 0 = false.
Proof.
  unfold median. rewrite sorted_length.
  destruct (Nat.eqb (List.length sold) 0); [discriminate | reflexivity].
Qed.

(** What [compute_row] decides once the median is known: it returns a row
    exactly when neither test [x < threshold] fires. *)
Lemma compute_row_accepts (kw : string) (a : ActiveListing)
  (sold : list float) (r1 r2 fx so med : float) :
  median sold = Some med ->
  let p := expected_profit med r1 r2 fx so (active_buy_price_gbp a) in
  let mg := margin p (active_buy_price_gbp a) in
  compute_row kw a sold r1 r2 fx so <> None <->
  (p <? MIN_PROFIT_GBP) = false /\ (mg <? MIN_MARGIN) = false.
Proof.
  intros Hmed p mg. unfold compute_row.
  rewrite (median_some_nonempty _ _ Hmed), Hmed.
  fold p. fold mg.
  destruct (p <? MIN_PROFIT_GBP); [split; [congruence | intros [? _]; discriminate]|].
  destruct (mg <? MIN_MARGIN); [split; [congruence | intros [_ ?]; discriminate]|].
  split; [auto | discriminate].
Qed.

(** C1, as amended. For every active listing, non-empty sold sample of
    numbers (of median [med]) and fee model for which the expected profit
    and the margin are numbers (not NaN), [compute_row] returns a row if
    and only if [expected_profit >= 25.0] and [margin >= 0.25] hold
    together. *)
Theorem compute_row_accepts_iff_bounds (kw : string) (a : ActiveListing)
  (sold : list float) (r1 r2 fx so med : float) :
  numbers sold ->
  median sold = Some med ->
  let p := expected_profit med r1 r2 fx so (active_buy_price_gbp a) in
  let mg := margin p (active_buy_price_gbp a) in
  is_nan p = false -> is_nan mg = false ->
  (compute_row kw a sold r1 r2 fx so <> None <->
   geb p MIN_PROFIT_GBP = true /\ geb mg MIN_MARGIN = true).
Proof.
  intros _ Hmed p mg Hp Hm.
  pose proof (compute_row_accepts kw a sold r1 r2 fx so med Hmed) as Hacc.
  cbv zeta in Hacc. fold p in Hacc. fold mg in Hacc.
  rewrite Hacc. unfold geb.
  rewrite (ltb_false_leb p MIN_PROFIT_GBP Hp eq_refl).
  rewrite (ltb_false_leb mg MIN_MARGIN Hm eq_refl).
  rewrite !negb_false_iff. tauto.
Qed.

Lemma numbers_80_85_90 : numbers [80; 85; 90].
Proof. repeat constructor. Qed.

Lemma compute_row_accepts_iff_bounds_witness :
  let a := listing 20 0 in
  let p := expected_profit 85 0.128 0.029 0.30 4.50 (active_buy_price_gbp a) in
  let mg := margin p (active_buy_price_gbp a) in
  numbers [80; 85; 90] /\
  median [80; 85; 90] = Some 85 /\
  is_nan p = false /\ is_nan mg = false /\
  (compute_row "game boy" a [80; 85; 90] 0.128 0.029 0.30 4.50 <> None <->
   geb p MIN_PROFIT_GBP = true /\ geb mg MIN_MARGIN = true).
Proof.
  intros a p mg.
  split; [exact numbers_80_85_90|].
  split; [reflexivity|]. split; [reflexivity|]. split; [reflexivity|].
  exact (compute_row_accepts_iff_bounds "game boy" a [80; 85; 90]
           0.128 0.029 0.30 4.50 85 numbers_80_85_90 eq_refl eq_refl eq_refl).
Defined.

(** C1 as stated fails. A sold total that is NaN makes the expected profit
    and the margin NaN; both tests [expected_profit < 25.0] and
    [margin < 0.25] are then false and [compute_row] returns a row,
    although neither [expected_profit >= 25.0] nor [margin >= 0.25]
    holds. A fee rate that is NaN does the same with the sample
    [80, 85, 90]. *)
Lemma compute_row_accepts_nan_profit :
  let a := listing 20 0 in
  let p := expected_profit nan 0.128 0.029 0.30 4.50 (active_buy_price_gbp a) in
  median [nan] = Some nan /\
  ~ (compute_row "game boy" a [nan] 0.128 0.029 0.30 4.50 <> None <->
     geb p MIN_PROFIT_GBP = true /\
     geb (margin p (active_buy_price_gbp a)) MIN_MARGIN = true) /\
  compute_row "game boy" a [nan] 0.128 0.029 0.30 4.50 <> None /\
  geb p MIN_PROFIT_GBP = false /\
  compute_row "game boy" a [80; 85; 90] nan 0.029 0.30 4.50 <> None /\
  geb (expected_profit 85 nan 0.029 0.30 4.50 (active_buy_price_gbp a))
    MIN_PROFIT_GBP = false.
Proof.
  cbv zeta. split; [reflexivity|]. split.
  - intros [H _].
    assert (Hacc : compute_row "game boy" (listing 20 0) [nan]
                     0.128 0.029 0.30 4.50 <> None)
      by (vm_compute; discriminate).
    destruct (H Hacc) as [Hp _]. vm_compute in Hp. discriminate.
  - repeat split; vm_compute; discriminate || reflexivity.
Qed.

(** C2. With an empty sold sample [compute_row] returns no row, whatever
    the keyword, the active listing and the fee model. *)
Theorem compute_row_empty_sample (kw : string) (a : ActiveListing)
  (r1 r2 fx so : float) :
  compute_row kw a [] r1 r2 fx so = None.
Proof. reflexivity. Qed.

(** C3, as amended. The median that [compute_row] works with is the
    statistical median of the sold sample: for a sample of numbers that is
    not empty there is an [m] that is the middle element of the sample put in
    ascending order when the count is odd, and the mean of the two middle
    elements when it is even, such that the two tests of [compute_row] are
    made on the profit computed from [m], and the median, the fees and
    the profit of the row returned are those computed from [m]. For a
    sample of 10, 20 and 30 this median is 20 and for a sample of 10 and
    20 it is 15, in whatever order the sample lists them. *)
Theorem median_sold_is_statistical_median :
  (forall (kw : string) (a : ActiveListing) (sold : list float)
          (r1 r2 fx so : float),
     sold <> [] -> numbers sold ->
     exists m,
       statistical_median sold m /\
       median sold = Some m /\
       let p := expected_profit m r1 r2 fx so (active_buy_price_gbp a) in
       (compute_row kw a sold r1 r2 fx so <> None <->
        (p <? MIN_PROFIT_GBP) = false /\
        (margin p (active_buy_price_gbp a) <? MIN_MARGIN) = false) /\
       forall row,
         compute_row kw a sold r1 r2 fx so = Some row ->
         row_median_sold_price_gbp row = round_ndigits m 2 /\
         row_ebay_fee_gbp row = round_ndigits (ebay_fee m r1) 2 /\
         row_payment_fee_gbp row = round_ndigits (payment_fee m r2 fx) 2 /\
         row_expected_profit_gbp row = round_ndigits p 2) /\
  statistical_median [10; 20; 30] 20 /\
  statistical_median [30; 10; 20] 20 /\
  statistical_median [10; 20] 15 /\
  statistical_median [20; 10] 15 /\
  (forall kw a r1 r2 fx so row,
     compute_row kw a [10; 20; 30] r1 r2 fx so = Some row ->
     row_median_sold_price_gbp row = 20) /\
  (forall kw a r1 r2 fx so row,
     compute_row kw a [10; 20] r1 r2 fx so = Some row ->
     row_median_sold_price_gbp row = 15).
Proof.
  assert (Hgen : forall (kw : string) (a : ActiveListing) (sold : list float)
                   (r1 r2 fx so : float),
             sold <> [] -> numbers sold ->
             exists m,
               statistical_median sold m /\
               median sold = Some m /\
               let p := expected_profit m r1 r2 fx so (active_buy_price_gbp a) in
               (compute_row kw a sold r1 r2 fx so <> None <->
                (p <? MIN_PROFIT_GBP) = false /\
                (margin p (active_buy_price_gbp a) <? MIN_MARGIN) = false) /\
               forall row,
                 compute_row kw a sold r1 r2 fx so = Some row ->
                 row_median_sold_price_gbp row = round_ndigits m 2 /\
                 row_ebay_fee_gbp row = round_ndigits (ebay_fee m r1) 2 /\
                 row_payment_fee_gbp row
                 = round_ndigits (payment_fee m r2 fx) 2 /\
                 row_expected_profit_gbp row = round_ndigits p 2).
  { intros kw a sold r1 r2 fx so Hne Hnum.
    destruct (median_statistical sold Hne Hnum) as (m & Hm & Hstat).
    exists m. split; [exact Hstat|]. split; [exact Hm|]. cbv zeta. split.
    - exact (compute_row_accepts kw a sold r1 r2 fx so m Hm).
    - intros row. unfold compute_row.
      rewrite (median_some_nonempty _ _ Hm), Hm.
      destruct (_ <? MIN_PROFIT_GBP); [discriminate|].
      destruct (_ <? MIN_MARGIN); [discriminate|].
      intros H. injection H as <-. simpl. auto. }
  assert (Hex : forall sold m,
             sold <> [] -> numbers sold -> median sold = Some m ->
             statistical_median sold m).
  { intros sold m Hne Hnum Hm.
    destruct (median_statistical sold Hne Hnum) as (m' & Hm' & Hstat).
    rewrite Hm in Hm'. injection Hm' as <-. exact Hstat. }
  assert (Hrow : forall sold m kw a r1 r2 fx so row,
             median sold = Some m ->
             compute_row kw a sold r1 r2 fx so = Some row ->
             row_median_sold_price_gbp row = round_ndigits m 2).
  { intros sold m kw a r1 r2 fx so row Hm. unfold compute_row.
    rewrite (median_some_nonempty _ _ Hm), Hm.
    destruct (_ <? MIN_PROFIT_GBP); [discriminate|].
    destruct (_ <? MIN_MARGIN); [discriminate|].
    intros H. injection H as <-. reflexivity. }
  split; [exact Hgen|].
  split; [apply Hex; [discriminate | repeat constructor | reflexivity]|].
  split; [apply Hex; [discriminate | repeat constructor | reflexivity]|].
  split; [apply Hex; [discriminate | repeat constructor | reflexivity]|].
  split; [apply Hex; [discriminate | repeat constructor | reflexivity]|].
  split.
  - intros kw a r1 r2 fx so row H.
    exact (Hrow [10; 20; 30] 20 kw a r1 r2 fx so row eq_refl H).
  - intros kw a r1 r2 fx so row H.
    exact (Hrow [10; 20] 15 kw a r1 r2 fx so row eq_refl H).
Qed.

Lemma median_sold_is_statistical_median_witness :
  let sold := [90; 80; 100; 85] in
  let a := listing 20 0 in
  sold <> [] /\ numbers sold /\
  median sold = Some 87.5 /\
  exists m,
    statistical_median sold m /\
    median sold = Some m /\
    let p := expected_profit m 0.128 0.029 0.30 4.50 (active_buy_price_gbp a) in
    (compute_row "game boy" a sold 0.128 0.029 0.30 4.50 <> None <->
     (p <? MIN_PROFIT_GBP) = false /\
     (margin p (active_buy_price_gbp a) <? MIN_MARGIN) = false) /\
    forall row,
      compute_row "game boy" a sold 0.128 0.029 0.30 4.50 = Some row ->
      row_median_sold_price_gbp row = round_ndigits m 2 /\
      row_ebay_fee_gbp row = round_ndigits (ebay_fee m 0.128) 2 /\
      row_payment_fee_gbp row = round_ndigits (payment_fee m 0.029 0.30) 2 /\
      row_expected_profit_gbp row = round_ndigits p 2.
Proof.
  intros sold a.
  assert (Hne : sold <> []) by discriminate.
  assert (Hnum : numbers sold) by repeat constructor.
  split; [exact Hne|]. split; [exact Hnum|]. split; [reflexivity|].
  exact (proj1 median_sold_is_statistical_median "game boy" a sold
           0.128 0.029 0.30 4.50 Hne Hnum).
Defined.

(** C3 as stated fails. A sold sample that holds a NaN has no
    ascending order, and so no statistical median; [compute_row] still
    works with a median, which is NaN whichever way the two totals are
    listed, and returns a row that shows it. *)
Lemma median_sold_of_nan_sample :
  (forall m, ~ statistical_median [nan; 1] m) /\
  (forall m, ~ statistical_median [1; nan] m) /\
  (exists row,
     compute_row "game boy" (listing 20 0) [nan; 1] 0.128 0.029 0.30 4.50
       = Some row /\
     is_nan (row_median_sold_price_gbp row) = true) /\
  (exists row,
     compute_row "game boy" (listing 20 0) [1; nan] 0.128 0.029 0.30 4.50
       = Some row /\
     is_nan (row_median_sold_price_gbp row) = true).
Proof.
  assert (Hno : forall x y : float,
             (x <=? y) = false -> (y <=? x) = false ->
             forall m, ~ statistical_median [x; y] m).
  { intros x y Hxy Hyx m (s & Hperm & Hsorted & _).
    assert (Hcase : s = [x; y] \/ s = [y; x]).
    { pose proof (Permutation_length Hperm) as Hlen.
      destruct s as [|u [|v [|? ?]]]; try discriminate Hlen.
      assert (Hu : In u [x; y])
        by (apply (Permutation_in u (Permutation_sym Hperm)); left;
            reflexivity).
      assert (Hv : In v [x; y])
        by (apply (Permutation_in v (Permutation_sym Hperm)); right; left;
            reflexivity).
      assert (Hx : In x [u; v])
        by (apply (Permutation_in x Hperm); left; reflexivity).
      assert (Hy : In y [u; v])
        by (apply (Permutation_in y Hperm); right; left; reflexivity).
      simpl in Hu, Hv, Hx, Hy.
      destruct Hu as [ <- | [ <- | [ ] ] ]; destruct Hv as [ <- | [ <- | [ ] ] ];
        auto.
      - destruct Hy as [ -> | [ -> | [ ] ] ]; auto.
      - destruct Hx as [ -> | [ -> | [ ] ] ]; auto. }
    destruct Hcase as [ -> | -> ]; inversion Hsorted as [|? ? _ Hall]; subst;
      inversion Hall as [|? ? Hle _]; subst; unfold at_most in Hle;
      congruence. }
  split; [apply Hno; reflexivity|]. split; [apply Hno; reflexivity|].
  split; eexists; (split; [vm_compute; reflexivity | reflexivity]).
Qed.

(** C5, as amended. The two scenarios of the specification, evaluated
    in binary64. Listing of 40.00 plus 5.00 shipping, sold sample
    [80, 85, 90], default fee model: median 85, marketplace fee 10.88,
    payment fee 2.765, expected profit 21.855000000000004, and the
    listing is rejected. With a buy price of 20.00 the expected profit is
    46.855000000000004, the margin is 2.34275 and the listing is accepted,
    with the row shown. *)
Theorem scenario_game_boy :
  let sold := [80; 85; 90] in
  let r1 := DEFAULT_EBAY_FEE_RATE in
  let r2 := DEFAULT_PAYMENT_FEE_RATE in
  let fx := DEFAULT_PAYMENT_FIXED_FEE in
  let so := DEFAULT_SHIPPING_OUT in
  let a45 := listing 40.00 5.00 in
  let a20 := with_buy_price a45 20.00 in
  numbers sold /\
  active_buy_price_gbp a45 = 45.00 /\
  median sold = Some 85 /\
  ebay_fee 85 r1 = 10.88 /\
  payment_fee 85 r2 fx = 2.765 /\
  expected_profit 85 r1 r2 fx so 45.00 = 21.855000000000004 /\
  (expected_profit 85 r1 r2 fx so 45.00 <? MIN_PROFIT_GBP) = true /\
  compute_row "game boy" a45 sold r1 r2 fx so = None /\
  active_buy_price_gbp a20 = 20.00 /\
  expected_profit 85 r1 r2 fx so 20.00 = 46.855000000000004 /\
  margin (expected_profit 85 r1 r2 fx so 20.00) 20.00 = 2.34275 /\
  geb (expected_profit 85 r1 r2 fx so 20.00) MIN_PROFIT_GBP = true /\
  geb (margin (expected_profit 85 r1 r2 fx so 20.00) 20.00) MIN_MARGIN = true /\
  compute_row "game boy" a20 sold r1 r2 fx so =
    Some {| row_keyword := "game boy";
            row_active_title := active_title a20;
            row_active_item_id := active_item_id a20;
            row_active_url := active_url a20;
            row_active_buy_price_gbp := 20.00;
            row_median_sold_price_gbp := 85.00;
            row_sold_sample_size := 3;
            row_ebay_fee_gbp := 10.88;
            row_payment_fee_gbp := 2.77;
            row_shipping_out_gbp := 4.50;
            row_expected_profit_gbp := 46.86;
            row_margin_percent := 234.3 |}.
Proof.
  cbv zeta. split; [exact numbers_80_85_90|].
  repeat split; vm_compute; reflexivity.
Qed.

(** C5 as stated fails. The expected profit computed from the claim's
    own figures, [85 - 10.88 - 2.765 - 4.50 - 45.00] in binary64, is not
    the double 21.855 but the next one above it, and with the buy price
    20.00 it is the double next above 46.855; the differences are one
    unit in the last place, [2^-48] and [2^-47]. *)
Lemma scenario_profit_not_exact :
  let p45 := expected_profit 85 DEFAULT_EBAY_FEE_RATE
               DEFAULT_PAYMENT_FEE_RATE DEFAULT_PAYMENT_FIXED_FEE
               DEFAULT_SHIPPING_OUT 45.00 in
  let p20 := expected_profit 85 DEFAULT_EBAY_FEE_RATE
               DEFAULT_PAYMENT_FEE_RATE DEFAULT_PAYMENT_FIXED_FEE
               DEFAULT_SHIPPING_OUT 20.00 in
  p45 = 85 - 10.88 - 2.765 - 4.50 - 45.00 /\
  (p45 =? 21.855) = false /\
  (21.855 <? p45) = true /\
  p45 - 21.855 = 0x1p-48 /\
  p20 = 85 - 10.88 - 2.765 - 4.50 - 20.00 /\
  (p20 =? 46.855) = false /\
  (46.855 <? p20) = true /\
  p20 - 46.855 = 0x1p-47.
Proof.
  cbv zeta. repeat split; vm_compute; reflexivity.
Qed.

(** C6. When the buy price of the listing is zero or negative, the margin
    is not a quotient but the value -1, which is below the margin
    threshold, and [compute_row] returns no row, whatever the sold sample
    and the fee model. *)
Theorem compute_row_rejects_non_positive_buy (kw : string) (a : ActiveListing)
  (sold : list float) (r1 r2 fx so : float) :
  (active_buy_price_gbp a <=? 0) = true ->
  (forall p, margin p (active_buy_price_gbp a) = -1.0) /\
  (-1.0 <? MIN_MARGIN) = true /\
  compute_row kw a sold r1 r2 fx so = None.
Proof.
  intros Hb.
  assert (Hm : forall p, margin p (active_buy_price_gbp a) = -1.0).
  { intros p. unfold margin, gtb. rewrite (leb_not_gtb _ _ Hb). reflexivity. }
  split; [exact Hm | split; [reflexivity|]].
  unfold compute_row.
  destruct (Nat.eqb (List.length sold) 0); [reflexivity|].
  destruct (median sold) as [med|]; [|reflexivity].
  rewrite Hm.
  destruct (_ <? MIN_PROFIT_GBP); [reflexivity|].
  change (-1.0 <? MIN_MARGIN) with true. reflexivity.
Qed.

Lemma compute_row_rejects_non_positive_buy_witness :
  (active_buy_price_gbp (listing 0 0) <=? 0) = true /\
  (forall p, margin p (active_buy_price_gbp (listing 0 0)) = -1.0) /\
  (-1.0 <? MIN_MARGIN) = true /\
  compute_row "game boy" (listing 0 0) [80; 85; 90] 0.128 0.029 0.30 4.50 = None.
Proof.
  split; [reflexivity|].
  apply (compute_row_rejects_non_positive_buy "game boy" (listing 0 0)
           [80; 85; 90] 0.128 0.029 0.30 4.50).
  reflexivity.
Defined.

(** C9, as amended. In every row that [compute_row] returns for a sold
    sample of numbers, each of the six currency fields is its value (the
    buy price, the median, the two fees, the outbound shipping cost, the
    expected profit) rounded to 2 decimals, and the margin field is the
    margin times 100 rounded to 1 decimal: a double nearest to
    [k / 10^n], [k] being the integer nearest to the value times [10^n],
    the even one on a tie. A value that is NaN or infinite is written as
    it is. *)
Theorem compute_row_rounds_fields (kw : string) (a : ActiveListing)
  (sold : list float) (r1 r2 fx so : float) (row : OpportunityRow) :
  numbers sold ->
  compute_row kw a sold r1 r2 fx so = Some row ->
  exists med,
    median sold = Some med /\
    let buy := active_buy_price_gbp a in
    let p := expected_profit med r1 r2 fx so buy in
    rounded_field 2 buy (row_active_buy_price_gbp row) /\
    rounded_field 2 med (row_median_sold_price_gbp row) /\
    rounded_field 2 (ebay_fee med r1) (row_ebay_fee_gbp row) /\
    rounded_field 2 (payment_fee med r2 fx) (row_payment_fee_gbp row) /\
    rounded_field 2 so (row_shipping_out_gbp row) /\
    rounded_field 2 p (row_expected_profit_gbp row) /\
    rounded_field 1 (margin p buy * 100) (row_margin_percent row).
Proof.
  intros _. unfold compute_row.
  destruct (Nat.eqb (List.length sold) 0); [discriminate|].
  destruct (median sold) as [med|]; [|discriminate].
  destruct (_ <? MIN_PROFIT_GBP); [discriminate|].
  destruct (_ <? MIN_MARGIN); [discriminate|].
  intros H. injection H as <-. exists med. split; [reflexivity|].
  cbv zeta. cbn [row_active_buy_price_gbp row_median_sold_price_gbp
                 row_ebay_fee_gbp row_payment_fee_gbp row_shipping_out_gbp
                 row_expected_profit_gbp row_margin_percent].
  repeat split; apply round_ndigits_rounded; lia.
Qed.

Lemma compute_row_rounds_fields_witness :
  numbers [80; 85; 90] /\
  exists row,
    compute_row "game boy" (listing 20 0) [80; 85; 90] 0.128 0.029 0.30 4.50
      = Some row /\
    row_expected_profit_gbp row = 46.86 /\
    row_margin_percent row = 234.3 /\
    exists med,
      median [80; 85; 90] = Some med /\
      let buy := active_buy_price_gbp (listing 20 0) in
      let p := expected_profit med 0.128 0.029 0.30 4.50 buy in
      rounded_field 2 buy (row_active_buy_price_gbp row) /\
      rounded_field 2 med (row_median_sold_price_gbp row) /\
      rounded_field 2 (ebay_fee med 0.128) (row_ebay_fee_gbp row) /\
      rounded_field 2 (payment_fee med 0.029 0.30) (row_payment_fee_gbp row) /\
      rounded_field 2 4.50 (row_shipping_out_gbp row) /\
      rounded_field 2 p (row_expected_profit_gbp row) /\
      rounded_field 1 (margin p buy * 100) (row_margin_percent row).
Proof.
  split; [exact numbers_80_85_90|].
  eexists. split; [vm_compute; reflexivity|].
  split; [reflexivity|]. split; [reflexivity|].
  apply (compute_row_rounds_fields "game boy" (listing 20 0) [80; 85; 90]
           0.128 0.029 0.30 4.50).
  - exact numbers_80_85_90.
  - vm_compute. reflexivity.
Defined.

(** C9 as stated fails. With a fee rate that is NaN the row is returned
    and its marketplace fee, its expected profit and its margin are NaN;
    with a sold total that is infinite the median written is infinite.
    None of these fields is a number, with 2 decimals or otherwise. *)
Lemma accepted_row_not_rounded :
  (exists row,
     compute_row "game boy" (listing 20 0) [80; 85; 90] nan 0.029 0.30 4.50
       = Some row /\
     is_nan (row_ebay_fee_gbp row) = true /\
     is_nan (row_expected_profit_gbp row) = true /\
     is_nan (row_margin_percent row) = true /\
     ~ (exists k, nearest_double k (10 ^ 2) (row_ebay_fee_gbp row)) /\
     ~ (exists k, nearest_double k (10 ^ 2) (row_expected_profit_gbp row)) /\
     ~ (exists k, nearest_double k (10 ^ 1) (row_margin_percent row))) /\
  (exists row,
     compute_row "game boy" (listing 20 0) [infinity] 0.128 0.029 0.30 4.50
       = Some row /\
     row_median_sold_price_gbp row = infinity /\
     ~ (exists k, nearest_double k (10 ^ 2) (row_median_sold_price_gbp row))).
Proof.
  split.
  - eexists. split; [vm_compute; reflexivity|].
    cbn [row_ebay_fee_gbp row_expected_profit_gbp row_margin_percent].
    split; [reflexivity|]. split; [reflexivity|]. split; [reflexivity|].
    repeat split; intros [k [Hb _]]; vm_compute in Hb; exact Hb.
  - eexists. split; [vm_compute; reflexivity|].
    cbn [row_median_sold_price_gbp]. split; [reflexivity|].
    intros [k [Hb _]]. vm_compute in Hb. exact Hb.
Qed.

End EstimatorFacts.

(* ================================================================= *)
(** * The response parser *)

Module ParserFacts.
Import PyVal Estimator Parser.
Open Scope string_scope.
Open Scope float_scope.
Open Scope py_scope.

(** The element a field wraps under the API's convention: the default when
    the field is absent, the first element when it is a non-empty list;
    nothing for any other shape. *)
Definition unwrap (d : list (string * pyval)) (k : string) (default : pyval)
  : option pyval :=
  match lookup k d with
  | None => Some default
  | Some (PList (x :: _)) => Some x
  | Some _ => None
  end.

(** A parser of a few number strings, for the examples below. *)
Definition sample_float_of_str (s : string) : option float :=
  if String.eqb s "10.0" then Some 10
  else if String.eqb s "3.5" then Some 3.5
  else if String.eqb s "80.0" then Some 80
  else None.

Section ParserFacts.
Variable float_of_str : string -> option float.

(** [obj] is an object whose ["__value__"] reads as the number [f]. *)
Definition numeric_value (obj : pyval) (f : float) : Prop :=
  exists d v,
    obj = PDict d /\ lookup "__value__" d = Some v /\
    py_float float_of_str v = Ok f.

(** The shipping field of [ship] holds the number [f]. *)
Definition shipping_cost (ship : list (string * pyval)) (f : float) : Prop :=
  exists x rest,
    lookup "shippingServiceCost" ship = Some (PList (x :: rest)) /\
    numeric_value x f.

Lemma _get_price_some (obj : pyval) (f : float) :
  _get_price float_of_str obj = Some f <-> numeric_value obj f.
Proof.
  unfold _get_price, numeric_value, py_get. split.
  - destruct obj as [| | | | |l|d]; simpl; try discriminate.
    destruct (lookup "__value__" d) as [v|] eqn:E; simpl.
    + destruct (py_float float_of_str v) as [g|e] eqn:Ev; [|discriminate].
      intros H. injection H as <-. exists d, v. auto.
    + discriminate.
  - intros (d & v & -> & Hl & Hv). simpl. rewrite Hl. simpl.
    rewrite Hv. reflexivity.
Qed.

Lemma _get_price_none (obj : pyval) :
  _get_price float_of_str obj = None <-> forall f, ~ numeric_value obj f.
Proof.
  split.
  - intros H f Hf. apply _get_price_some in Hf. congruence.
  - intros H. destruct (_get_price float_of_str obj) as [f|] eqn:E;
      [|reflexivity].
    apply _get_price_some in E. destruct (H f E).
Qed.

Lemma unwrap_get (d : list (string * pyval)) (k : string)
  (default x : pyval) :
  unwrap d k default = Some x ->
  (y <- py_get (PDict d) k (PList [default]) ;; py_index0 y) = Ok x.
Proof.
  unfold unwrap, py_get. simpl.
  destruct (lookup k d) as [[| | | | |[|z l]|]|]; simpl; congruence.
Qed.

Lemma item_price_wrapped (d sel : list (string * pyval)) (price_obj : pyval) :
  unwrap d "sellingStatus" (PDict []) = Some (PDict sel) ->
  unwrap sel "currentPrice" (PDict []) = Some price_obj ->
  item_price float_of_str (PDict d) = Ok (_get_price float_of_str price_obj).
Proof.
  intros Hs Hc. unfold item_price.
  apply unwrap_get in Hs. apply unwrap_get in Hc.
  unfold bind in *.
  destruct (py_get (PDict d) "sellingStatus" (PList [PDict []])) as [x|];
    [|discriminate].
  rewrite Hs.
  destruct (py_get (PDict sel) "currentPrice" (PList [PDict []])) as [y|];
    [|discriminate].
  rewrite Hc. reflexivity.
Qed.

(** With a well-formed wrapper the shipping block raises nothing,
    whatever the shipping field holds. *)
Lemma item_shipping_wrapped (d ship : list (string * pyval)) :
  unwrap d "shippingInfo" (PDict []) = Some (PDict ship) ->
  exists shipping,
    item_shipping float_of_str (PDict d) = Ok shipping /\
    (forall f, shipping_cost ship f -> shipping = f) /\
    ((forall f, ~ shipping_cost ship f) -> shipping = 0).
Proof.
  intros Hw. unfold item_shipping.
  apply unwrap_get in Hw. unfold bind in *.
  destruct (py_get (PDict d) "shippingInfo" (PList [PDict []])) as [x|];
    [|discriminate].
  rewrite Hw. unfold py_get, shipping_cost.
  destruct (lookup "shippingServiceCost" ship) as [v|] eqn:El.
  - destruct v as [| | | | |[|x0 l]|];
      try (eexists; split; [reflexivity|];
           split; [intros ? (y & rest & Hy & _); discriminate
                  | reflexivity]).
    destruct (_get_price float_of_str x0) as [g|] eqn:Eg.
    + exists g. split; [reflexivity|]. split.
      * intros f (y & rest & Hy & Hf). injection Hy as <- <-.
        apply _get_price_some in Hf. congruence.
      * intros H. apply _get_price_some in Eg.
        destruct (H g). exists x0, l. auto.
    + exists 0. split; [reflexivity|]. split; [|reflexivity].
      intros f (y & rest & Hy & Hf). injection Hy as <- <-.
      apply _get_price_some in Hf. congruence.
  - exists 0. split.
    + simpl. reflexivity.
    + split; [intros f (y & rest & Hy & _); discriminate | reflexivity].
Qed.

(** A record the loop body skips leaves no trace in what the loop
    returns. *)
Lemma collect_skip {A} (body : pyval -> result (option A))
  (pre post : list pyval) (it : pyval) :
  body it = Ok None ->
  collect body (pre ++ it :: post)%list = collect body (pre ++ post)%list.
Proof.
  intros Hit. induction pre as [|x pre IH]; simpl.
  - rewrite Hit. simpl. destruct (collect body post); reflexivity.
  - rewrite IH. reflexivity.
Qed.

End ParserFacts.

(** Two records as the API sends them, and two with an empty wrapper. *)
Definition priced_item (shipping_info : list (string * pyval)) : pyval :=
  PDict ([("title", PList [PStr " Game Boy "]);
          ("itemId", PList [PStr "1001"]);
          ("viewItemURL", PList [PStr "https://www.ebay.co.uk/itm/1001"]);
          ("sellingStatus",
           PList [PDict [("currentPrice",
                          PList [PDict [("@currencyId", PStr "GBP");
                                        ("__value__", PStr "10.0")]])]])]
         ++ shipping_info)%list.

Definition unpriced_item (selling_status : pyval) : pyval :=
  PDict [("title", PList [PStr "Game Boy"]);
         ("itemId", PList [PStr "1002"]);
         ("viewItemURL", PList [PStr "https://www.ebay.co.uk/itm/1002"]);
         ("sellingStatus", selling_status)].

Definition reply (items : list pyval) : pyval :=
  PDict [("ack", PList [PStr "Success"]);
         ("searchResult", PList [PDict [("item", PList items)]])].



End ParserFacts.

(* ================================================================= *)
(** * The pagination fetcher *)

Module FetcherFacts.
Import PyVal Estimator Parser Fetcher.
Open Scope py_scope.

Lemma py_slice_to_length {A} (l : list A) (n : Z) :
  (0 <= n)%Z -> (Z.of_nat (List.length (py_slice_to l n)) <= n)%Z.
Proof.
  intros Hn. unfold py_slice_to.
  destruct (Z.leb_spec 0 n) as [_|H]; [|lia].
  pose proof (firstn_le_length (Z.to_nat n) l). rewrite length_firstn. lia.
Qed.

Lemma py_slice_to_firstn {A} (l : list A) (n : Z) :
  (0 <= n)%Z -> py_slice_to l n = firstn (Z.to_nat n) l.
Proof.
  intros Hn. unfold py_slice_to.
  destruct (Z.leb_spec 0 n); [reflexivity | lia].
Qed.

Section FetcherFacts.
Variable float_of_str : string -> option float.
Variable int_of_str : string -> option Z.
Variable World : Type.
Variable http_get : World -> Request -> result pyval * World.
Variable end_time_from : World -> Z -> string.
Variable sleep : World -> World.

(** The request [rq] asks for a page within the total that the reply [r]
    before it reports. *)
Definition asks_within (r : result pyval) (rq : Request) : Prop :=
  exists root total_pages page,
    r = Ok root /\
    total_pages_of int_of_str root = Ok total_pages /\
    req_page_number rq = Some page /\
    (page <= total_pages)%Z.

(** Every request after the first one asks for a page within the total
    reported by the reply just before it. *)
Fixpoint pages_within (calls : list Call) : Prop :=
  match calls with
  | [] => True
  | (_, r) :: rest =>
      match rest with
      | [] => True
      | (rq', _) :: _ => asks_within r rq'
      end /\ pages_within rest
  end.

(** The sold totals of the replies, in the order the API returned
    them. *)
Fixpoint fetched (calls : list Call) : list float :=
  match calls with
  | [] => []
  | (_, Ok root) :: rest =>
      match parse_sold_totals float_of_str root with
      | Ok totals => (totals ++ fetched rest)%list
      | Raise _ => fetched rest
      end
  | (_, Raise _) :: rest => fetched rest
  end.

Lemma pages_within_snoc (calls : list Call) (rq rq' : Request)
  (r r' : result pyval) :
  pages_within (calls ++ [(rq, r)]) ->
  asks_within r rq' ->
  pages_within ((calls ++ [(rq, r)]) ++ [(rq', r')]).
Proof.
  intros Hin Hask. induction calls as [|[rq0 r0] calls IH]; simpl in *.
  - auto.
  - destruct Hin as [Hhd Htl]. split; [|apply IH; exact Htl].
    destruct calls as [|[rq1 r1] calls']; simpl in *; exact Hhd.
Qed.

Lemma fetched_snoc (calls : list Call) (rq : Request) (root : pyval)
  (more : list float) :
  parse_sold_totals float_of_str root = Ok more ->
  fetched (calls ++ [(rq, Ok root)]) = (fetched calls ++ more)%list.
Proof.
  intros Hp. induction calls as [|[rq0 [root0|e0]] calls IH]; simpl.
  - rewrite Hp. apply app_nil_r.
  - rewrite IH.
    destruct (parse_sold_totals float_of_str root0);
      [apply app_assoc | reflexivity].
  - exact IH.
Qed.

(** What the loop keeps true: the calls so far end with the reply it
    holds, every page asked was within the total reported just before,
    and the totals are those of the replies in order. *)
Lemma sold_loop_spec (fuel : nat) :
  forall (w : World) (app_id keyword : string) (sold_limit : Z)
    (global_id end_from : string) (root : pyval) (totals : list float)
    (page : Z) (pre : list Call) (rq0 : Request)
    (res : result (list float)) (w' : World) (calls' : list Call),
    pages_within (pre ++ [(rq0, Ok root)]) ->
    totals = fetched (pre ++ [(rq0, Ok root)]) ->
    sold_loop float_of_str int_of_str http_get sleep fuel w app_id keyword
      sold_limit global_id end_from root totals page
      (pre ++ [(rq0, Ok root)]) = Some (res, w', calls') ->
    pages_within calls' /\
    (forall out, res = Ok out ->
       out = py_slice_to (fetched calls') sold_limit).
Proof.
  induction fuel as [|fuel IH];
    intros w app_id keyword sold_limit global_id end_from root totals page
      pre rq0 res w' calls' Hin Htot; simpl.
  - destruct (Z.of_nat (List.length totals) <? sold_limit)%Z.
    + destruct (total_pages_of int_of_str root) as [tp|e].
      * destruct (tp <? page + 1)%Z; [|discriminate].
        intros H. injection H as <- <- <-. split; [exact Hin|].
        intros out H. injection H as <-. rewrite Htot. reflexivity.
      * intros H. injection H as <- <- <-. split; [exact Hin|].
        intros out H. discriminate H.
    + intros H. injection H as <- <- <-. split; [exact Hin|].
      intros out H. injection H as <-. rewrite Htot. reflexivity.
  - destruct (Z.of_nat (List.length totals) <? sold_limit)%Z.
    + destruct (total_pages_of int_of_str root) as [tp|e] eqn:Etp.
      * destruct (Z.ltb_spec tp (page + 1)) as [Hlt|Hge].
        { intros H. injection H as <- <- <-. split; [exact Hin|].
          intros out H. injection H as <-. rewrite Htot. reflexivity. }
        set (rq := sold_request app_id keyword 100 (Some (page + 1)%Z)
                     global_id end_from).
        destruct (ebay_finding_call http_get w rq) as [r w1].
        assert (Hask : asks_within (Ok root) rq).
        { exists root, tp, (page + 1)%Z. repeat split; auto. }
        pose proof (pages_within_snoc pre rq0 rq (Ok root) r Hin Hask)
          as Hin'.
        destruct r as [root'|e].
        -- destruct (parse_sold_totals float_of_str root') as [more|e]
             eqn:Ep.
           ++ intros Hrun.
              assert (Htot' : (totals ++ more)%list =
                        fetched ((pre ++ [(rq0, Ok root)]) ++ [(rq, Ok root')])%list)
                by (rewrite (fetched_snoc _ rq root' more Ep), Htot; reflexivity).
              exact (IH _ _ _ _ _ _ _ _ _ _ _ _ _ _ Hin' Htot' Hrun).
           ++ intros H. injection H as <- <- <-. split; [exact Hin'|].
              intros out H. discriminate H.
        -- intros H. injection H as <- <- <-. split; [exact Hin'|].
           intros out H. discriminate H.
      * intros H. injection H as <- <- <-. split; [exact Hin|].
        intros out H. discriminate H.
    + intros H. injection H as <- <- <-. split; [exact Hin|].
      intros out H. injection H as <-. rewrite Htot. reflexivity.
Qed.

(** C4, as amended. For every keyword, every target size that is not
    negative and every behaviour of the API: each request after the
    first asks for a page no greater than the total-pages value of the
    reply just before it, and when [find_sold_totals] returns, it returns
    the first [sold_limit] sold totals of the replies, in the order the
    API returned them, so no more than [sold_limit] of them. *)
Theorem find_sold_totals_bounded (fuel : nat) (w : World)
  (app_id keyword : string) (sold_limit : Z) (global_id : string) (days : Z)
  (res : result (list float)) (w' : World) (calls : list Call) :
  (0 <= sold_limit)%Z ->
  find_sold_totals float_of_str int_of_str http_get end_time_from sleep
    fuel w app_id keyword sold_limit global_id days = Some (res, w', calls) ->
  pages_within calls /\
  (forall totals, res = Ok totals ->
     totals = firstn (Z.to_nat sold_limit) (fetched calls) /\
     (Z.of_nat (List.length totals) <= sold_limit)%Z).
Proof.
  intros Hlim. unfold find_sold_totals.
  set (rq := sold_request app_id keyword (Z.min sold_limit 100) None
               global_id (end_time_from w days)).
  destruct (ebay_finding_call http_get w rq) as [[root|e] w1].
  - destruct (parse_sold_totals float_of_str root) as [totals0|e] eqn:Ep.
    + intros Hrun.
      apply (sold_loop_spec fuel w1 app_id keyword sold_limit global_id
               (end_time_from w days) root totals0 1 [] rq) in Hrun.
      * destruct Hrun as [Hin Hout]. split; [exact Hin|].
        intros totals Hres. rewrite (Hout totals Hres).
        split; [apply py_slice_to_firstn | apply py_slice_to_length];
          exact Hlim.
      * simpl. auto.
      * simpl. rewrite Ep. symmetry. apply app_nil_r.
    + intros H. injection H as <- <- <-. split; [simpl; auto|].
      intros totals H. discriminate H.
  - intros H. injection H as <- <- <-. split; [simpl; auto|].
    intros totals H. discriminate H.
Qed.

(** The fetch comes to an end whenever the totals the API reports stay
    below some bound: [fuel] page fetches are enough when no reply
    reports more than [fuel + 1] pages. *)
Lemma sold_loop_returns (bound : Z)
  (Hbound : forall w rq root w',
      ebay_finding_call http_get w rq = (Ok root, w') ->
      forall tp, total_pages_of int_of_str root = Ok tp -> (tp <= bound)%Z)
  (fuel : nat) :
  forall (w : World) (app_id keyword : string) (sold_limit : Z)
    (global_id end_from : string) (root : pyval) (totals : list float)
    (page : Z) (calls : list Call),
    (forall tp, total_pages_of int_of_str root = Ok tp -> (tp <= bound)%Z) ->
    (bound - page <= Z.of_nat fuel)%Z ->
    sold_loop float_of_str int_of_str http_get sleep fuel w app_id keyword
      sold_limit global_id end_from root totals page calls <> None.
Proof.
  induction fuel as [|fuel IH];
    intros w app_id keyword sold_limit global_id end_from root totals page
      calls Hroot Hfuel; simpl.
  - destruct (Z.of_nat (List.length totals) <? sold_limit)%Z; [|discriminate].
    destruct (total_pages_of int_of_str root) as [tp|e] eqn:Etp;
      [|discriminate].
    specialize (Hroot tp eq_refl).
    destruct (Z.ltb_spec tp (page + 1)); [discriminate | lia].
  - destruct (Z.of_nat (List.length totals) <? sold_limit)%Z; [|discriminate].
    destruct (total_pages_of int_of_str root) as [tp|e] eqn:Etp;
      [|discriminate].
    destruct (Z.ltb_spec tp (page + 1)); [discriminate|].
    destruct (ebay_finding_call http_get w _) as [[root'|e] w1] eqn:Ecall;
      [|discriminate].
    destruct (parse_sold_totals float_of_str root'); [|discriminate].
    apply IH.
    + exact (Hbound _ _ _ _ Ecall).
    + lia.
Qed.

Lemma find_sold_totals_returns (bound : Z)
  (Hbound : forall w rq root w',
      ebay_finding_call http_get w rq = (Ok root, w') ->
      forall tp, total_pages_of int_of_str root = Ok tp -> (tp <= bound)%Z)
  (fuel : nat) (w : World) (app_id keyword : string) (sold_limit : Z)
  (global_id : string) (days : Z) :
  (bound - 1 <= Z.of_nat fuel)%Z ->
  find_sold_totals float_of_str int_of_str http_get end_time_from sleep
    fuel w app_id keyword sold_limit global_id days <> None.
Proof.
  intros Hfuel. unfold find_sold_totals.
  destruct (ebay_finding_call http_get w _) as [[root|e] w1] eqn:Ecall;
    [|discriminate].
  destruct (parse_sold_totals float_of_str root); [|discriminate].
  apply (sold_loop_returns bound Hbound).
  - exact (Hbound _ _ _ _ Ecall).
  - exact Hfuel.
Qed.
End FetcherFacts.

End FetcherFacts.

(* ================================================================= *)
(** * A sample service, for the closed examples *)

Module Samples.
Import PyVal Estimator Parser ParserFacts Fetcher Driver.
Open Scope string_scope.

Definition sample_int_of_str (s : string) : option Z :=
  if String.eqb s "1" then Some 1%Z
  else if String.eqb s "2" then Some 2%Z
  else None.

Definition sold_item (price : string) : pyval :=
  PDict [("sellingStatus",
          PList [PDict [("currentPrice",
                         PList [PDict [("__value__", PStr price)]])]])].

Definition completed_reply (items : list pyval) (total_pages : string)
  : pyval :=
  PDict [("findCompletedItemsResponse",
          PList [PDict [("ack", PList [PStr "Success"]);
                        ("searchResult", PList [PDict [("item", PList items)]]);
                        ("paginationOutput",
                         PList [PDict [("totalPages",
                                        PList [PStr total_pages])]])]])].

Definition active_reply (items : list pyval) : pyval :=
  PDict [("findItemsByKeywordsResponse",
          PList [PDict [("ack", PList [PStr "Success"]);
                        ("searchResult",
                         PList [PDict [("item", PList items)]])]])].

Definition failure_reply (operation : string) : pyval :=
  PDict [(operation ++ "Response",
          PList [PDict [("ack", PList [PStr "Failure"]);
                        ("errorMessage",
                         PList [PDict [("error",
                           PList [PDict [("errorId", PList [PStr "11002"]);
                                         ("message",
                                          PList [PStr "Invalid Application"])]])]])]])].

(** The world counts the requests served. The service fails at the HTTP
    level for the keyword "broken", refuses the keyword "denied", and
    otherwise serves one active listing priced 10.0 and two pages of two
    sold items at 80.0 each. *)
Definition World : Type := nat.

Definition http_get (w : World) (rq : Request) : result pyval * World :=
  (if String.eqb (req_keywords rq) "broken" then Raise HTTPError
   else if String.eqb (req_keywords rq) "denied"
        then Ok (failure_reply (req_operation rq))
   else if String.eqb (req_operation rq) "findItemsByKeywords"
        then Ok (active_reply [priced_item []])
   else Ok (completed_reply [sold_item "80.0"; sold_item "80.0"] "2"),
   S w).

Definition end_time_from (w : World) (days : Z) : string :=
  "2026-01-01T00:00:00.000Z".

Definition sleep (w : World) : World := w.

Definition args : Args :=
  {| app_id := "APP";
     active_limit := 20;
     sold_limit := 3;
     global_id := "EBAY-GB";
     ebay_fee_rate := DEFAULT_EBAY_FEE_RATE;
     payment_fee_rate := DEFAULT_PAYMENT_FEE_RATE;
     payment_fixed_fee := DEFAULT_PAYMENT_FIXED_FEE;
     shipping_out := DEFAULT_SHIPPING_OUT |}.

Definition fetch (sold_limit : Z) : option (Outcome World) :=
  find_sold_totals sample_float_of_str sample_int_of_str http_get
    end_time_from sleep 5 O "APP" "game boy" sold_limit "EBAY-GB" 90.

Definition run (keywords : list string)
  : option (list OpportunityRow * World) :=
  keyword_loop sample_float_of_str sample_int_of_str http_get end_time_from
    sleep 5 O args [] keywords.

End Samples.

(* ================================================================= *)
(** * The fetcher on the sample service *)

Module FetcherExamples.
Import PyVal Estimator Parser ParserFacts Fetcher FetcherFacts Samples.
Open Scope float_scope.

Lemma find_sold_totals_bounded_witness :
  (0 <= 3)%Z /\
  match fetch 3 with
  | Some (res, _, calls) =>
      res = Ok [80; 80; 80] /\
      pages_within sample_int_of_str calls /\
      (forall totals, res = Ok totals ->
         totals = firstn (Z.to_nat 3) (fetched sample_float_of_str calls) /\
         (Z.of_nat (List.length totals) <= 3)%Z)
  | None => False
  end.
Proof.
  split; [lia|].
  destruct (fetch 3) as [[[res w'] calls]|] eqn:E.
  - split; [vm_compute in E; congruence|].
    apply (find_sold_totals_bounded sample_float_of_str sample_int_of_str
             World http_get end_time_from sleep 5 O "APP" "game boy" 3 "EBAY-GB" 90
             res w' calls); [lia | exact E].
  - vm_compute in E. discriminate E.
Defined.

(** C4 as stated fails for a negative target size: with [sold_limit = -1]
    and a first page of two sold totals, the loop is not entered and
    [totals[:-1]] returns one total, which is more than [-1]. *)
Lemma find_sold_totals_negative_limit :
  exists w' calls,
    fetch (-1) = Some (Ok [80], w', calls) /\
    ~ (Z.of_nat (List.length [80]) <= -1)%Z.
Proof.
  eexists _, _. split; [vm_compute; reflexivity | simpl; lia].
Qed.

End FetcherExamples.

(* ================================================================= *)
(** * The keyword loop *)

Module DriverFacts.
Import PyVal Estimator Parser ParserFacts Fetcher Driver Samples.
Open Scope py_scope.

Section DriverFacts.
Variable float_of_str : string -> option float.
Variable int_of_str : string -> option Z.
Variable World : Type.
Variable http_get : World -> Request -> result pyval * World.
Variable end_time_from : World -> Z -> string.
Variable sleep : World -> World.

(** The acknowledgement [ebay_finding_call] reads in a decoded reply. *)
Definition ack_of (operation : string) (data : pyval) : result string :=
  x <- py_get data (operation ++ "Response")%string (PList [PDict []]) ;;
  root <- py_index0 x ;;
  y <- py_get root "ack"%string (PList [PStr ""]) ;;
  a <- py_index0 y ;;
  py_lower (py_or a (PStr "")).

Definition acknowledged (operation : string) (data : pyval) : bool :=
  match ack_of operation data with
  | Ok ack => String.eqb ack "success" || String.eqb ack "warning"
  | Raise _ => false
  end.

(** A call fails at the HTTP level or by its acknowledgement. *)
Definition call_fails (w : World) (rq : Request) : bool :=
  match fst (http_get w rq) with
  | Raise _ => true
  | Ok data => negb (acknowledged (req_operation rq) data)
  end.

Lemma call_fails_raises (w : World) (rq : Request) :
  call_fails w rq = true ->
  exists e, ebay_finding_call http_get w rq = (Raise e, snd (http_get w rq)).
Proof.
  unfold call_fails, ebay_finding_call, acknowledged, ack_of.
  destruct (http_get w rq) as [[data|e] w']; simpl; [|eauto].
  destruct (py_get data _ _) as [x|e]; simpl; [|eauto].
  destruct (py_index0 x) as [root|e]; simpl; [|eauto].
  destruct (py_get root _ _) as [y|e]; simpl; [|eauto].
  destruct (py_index0 y) as [a|e]; simpl; [|eauto].
  destruct (py_lower _) as [ack|e]; simpl; [|eauto].
  destruct (String.eqb ack "success" || String.eqb ack "warning");
    [discriminate|].
  intros _.
  destruct (py_get root "errorMessage" _) as [z|e]; simpl; [|eauto].
  destruct (py_index0 z) as [m|e]; simpl; [|eauto].
  destruct (py_get m "error" _) as [errs|e]; simpl; [|eauto].
  destruct (py_iter errs) as [es|e]; simpl; [|eauto].
  destruct (mapM error_text es) as [u|e]; simpl; eauto.
Qed.

(** A failed call to fetch the active listings, or a failed first call
    to fetch the sold totals, makes the fetch of the keyword raise. *)
Lemma fetch_keyword_raises (fuel : nat) (w : World) (args : Args)
  (kw : string) :
  let rq := active_request (app_id args) kw (active_limit args)
              (global_id args) in
  call_fails w rq = true ->
  exists e, fetch_keyword float_of_str int_of_str http_get end_time_from
              sleep fuel w args kw = Some (Raise e, snd (http_get w rq)).
Proof.
  intros rq Hfail. destruct (call_fails_raises w rq Hfail) as [e He].
  exists e. unfold fetch_keyword, find_active. fold rq. rewrite He.
  reflexivity.
Qed.

Lemma fetch_keyword_raises_sold (fuel : nat) (w : World) (args : Args)
  (kw : string) (active_items : list ActiveListing) (w1 : World) :
  find_active float_of_str http_get w (app_id args) kw (active_limit args)
    (global_id args) = (Ok active_items, w1) ->
  let rq := sold_request (app_id args) kw (Z.min (sold_limit args) 100)
              None (global_id args) (end_time_from w1 90) in
  call_fails w1 rq = true ->
  exists e, fetch_keyword float_of_str int_of_str http_get end_time_from
              sleep fuel w args kw = Some (Raise e, snd (http_get w1 rq)).
Proof.
  intros Hact rq Hfail. destruct (call_fails_raises w1 rq Hfail) as [e He].
  exists e. unfold fetch_keyword. rewrite Hact.
  unfold find_sold_totals. fold rq. rewrite He. reflexivity.
Qed.

Lemma keyword_loop_app (fuel : nat) (args : Args) (before after : list string) :
  forall (w : World) (rows : list OpportunityRow),
    keyword_loop float_of_str int_of_str http_get end_time_from sleep fuel
      w args rows (before ++ after) =
    match keyword_loop float_of_str int_of_str http_get end_time_from sleep
            fuel w args rows before with
    | Some (rows1, w1) =>
        keyword_loop float_of_str int_of_str http_get end_time_from sleep
          fuel w1 args rows1 after
    | None => None
    end.
Proof.
  induction before as [|kw before IH]; intros w rows; simpl.
  - reflexivity.
  - destruct (keyword_step _ _ _ _ _ _ _ _ _ _) as [[rows' w']|];
      [apply IH | reflexivity].
Qed.

(** C7. When the fetch of a keyword raises (an HTTP-level failure, an
    acknowledgement other than success or warning, or any other
    exception of the two fetches), the iteration for that keyword leaves
    the accumulated rows as they were, and the loop goes on with the
    keywords after it: the run over the whole list is the run over the
    list without the failing keyword's contribution. *)
Theorem failing_keyword_is_skipped (fuel : nat) (w : World) (args : Args)
  (rows : list OpportunityRow) (before after : list string) (kw : string)
  (rows1 : list OpportunityRow) (w1 : World) (e : exn) (w2 : World) :
  keyword_loop float_of_str int_of_str http_get end_time_from sleep fuel
    w args rows before = Some (rows1, w1) ->
  fetch_keyword float_of_str int_of_str http_get end_time_from sleep fuel
    w1 args kw = Some (Raise e, w2) ->
  keyword_step float_of_str int_of_str http_get end_time_from sleep fuel
    w1 args rows1 kw = Some (rows1, w2) /\
  keyword_loop float_of_str int_of_str http_get end_time_from sleep fuel
    w args rows (before ++ kw :: after) =
  keyword_loop float_of_str int_of_str http_get end_time_from sleep fuel
    w2 args rows1 after.
Proof.
  intros Hbefore Hfetch.
  assert (Hstep : keyword_step float_of_str int_of_str http_get
                    end_time_from sleep fuel w1 args rows1 kw
                  = Some (rows1, w2))
    by (unfold keyword_step; rewrite Hfetch; reflexivity).
  split; [exact Hstep|].
  rewrite keyword_loop_app, Hbefore. simpl. rewrite Hstep. reflexivity.
Qed.
End DriverFacts.

Lemma failing_keyword_is_skipped_witness :
  exists rows1 w1 e w2,
    run ["game boy"] = Some (rows1, w1) /\
    List.length rows1 = 1%nat /\
    fetch_keyword sample_float_of_str sample_int_of_str http_get
      end_time_from sleep 5 w1 args "denied" = Some (Raise e, w2) /\
    keyword_step sample_float_of_str sample_int_of_str http_get
      end_time_from sleep 5 w1 args rows1 "denied" = Some (rows1, w2) /\
    run (["game boy"] ++ "denied" :: ["lego"]) =
    keyword_loop sample_float_of_str sample_int_of_str http_get
      end_time_from sleep 5 w2 args rows1 ["lego"].
Proof.
  destruct (run ["game boy"]) as [[rows1 w1]|] eqn:Hbefore;
    [|vm_compute in Hbefore; discriminate Hbefore].
  destruct (fetch_keyword sample_float_of_str sample_int_of_str http_get
              end_time_from sleep 5 w1 args "denied")
    as [[[ok|e] w2]|] eqn:Hfetch.
  - exfalso. vm_compute in Hbefore. injection Hbefore as <- <-.
    vm_compute in Hfetch. discriminate Hfetch.
  - exists rows1, w1, e, w2.
    split; [reflexivity|].
    split; [vm_compute in Hbefore; injection Hbefore as <- <-; reflexivity|].
    split; [exact Hfetch|].
    exact (failing_keyword_is_skipped sample_float_of_str sample_int_of_str
             World http_get end_time_from sleep 5 O args [] ["game boy"] ["lego"]
             "denied" rows1 w1 e w2 Hbefore Hfetch).
  - exfalso. vm_compute in Hbefore. injection Hbefore as <- <-.
    vm_compute in Hfetch. discriminate Hfetch.
Defined.

End DriverFacts.

(* ================================================================= *)
(** * Acceptance is monotone in the buy price *)

Module MonotoneFacts.
Import F64 F64Facts Py PyFacts Estimator EstimatorFacts Binary64.
Open Scope float_scope.

(** The two tests of [compute_row], for a profit [X - b] and a margin
    [(X - b) / b], pass at a lower positive buy price when they pass at
    [b]. *)
Lemma tests_monotone (X b b' : float) :
  (0 <? b') = true -> (b' <=? b) = true ->
  (X - b <? MIN_PROFIT_GBP) = false ->
  ((X - b) / b <? MIN_MARGIN) = false ->
  (X - b' <? MIN_PROFIT_GBP) = false /\
  ((X - b') / b' <? MIN_MARGIN) = false.
Proof.
  intros Hb' Hbb Hp Hq.
  rewrite ltb_spec in Hb', Hp, Hq. rewrite leb_spec in Hbb.
  rewrite !ltb_spec.
  rewrite div_spec, sub_spec in Hq. rewrite sub_spec in Hp.
  rewrite !div_spec, !sub_spec.
  change (Prim2SF 0) with (S754_zero false) in Hb'.
  apply (threshold_mono (Prim2SF X) (Prim2SF b) (Prim2SF b')
           (Prim2SF MIN_PROFIT_GBP) (Prim2SF MIN_MARGIN));
    try apply Prim2SF_valid; try assumption.
  - rewrite <- sub_spec. apply Prim2SF_valid.
  - rewrite <- sub_spec. apply Prim2SF_valid.
  - unfold SF64div, SF64sub. rewrite <- sub_spec, <- div_spec.
    apply Prim2SF_valid.
  - unfold SF64div, SF64sub. rewrite <- sub_spec, <- div_spec.
    apply Prim2SF_valid.
  - vm_compute. reflexivity.
Qed.

(** C10. For a fixed fee model and sold sample, when [compute_row]
    accepts a listing whose buy price [b] is positive, it accepts the
    same listing at any buy price [b'] with [0 < b' <= b]. *)
Theorem acceptance_monotone_in_buy_price (kw : string) (a : ActiveListing)
  (sold : list float) (r1 r2 fx so : float) (b' : float) :
  gtb (active_buy_price_gbp a) 0 = true ->
  gtb b' 0 = true ->
  (b' <=? active_buy_price_gbp a) = true ->
  compute_row kw a sold r1 r2 fx so <> None ->
  compute_row kw (with_buy_price a b') sold r1 r2 fx so <> None.
Proof.
  unfold gtb. intros Hb Hb' Hle Hacc.
  destruct (median sold) as [med|] eqn:Hmed.
  - apply (compute_row_accepts kw a sold r1 r2 fx so med Hmed) in Hacc.
    apply (compute_row_accepts kw (with_buy_price a b') sold r1 r2 fx so med
             Hmed).
    cbv zeta in Hacc |- *. cbn [with_buy_price active_buy_price_gbp].
    unfold margin, gtb in Hacc |- *. rewrite Hb in Hacc. rewrite Hb'.
    unfold expected_profit in Hacc |- *.
    destruct Hacc as [Hp Hq].
    exact (tests_monotone _ _ _ Hb' Hle Hp Hq).
  - exfalso. apply Hacc. unfold compute_row. rewrite Hmed.
    destruct (Nat.eqb (List.length sold) 0); reflexivity.
Qed.

Lemma acceptance_monotone_in_buy_price_witness :
  let a := listing 20 0 in
  gtb (active_buy_price_gbp a) 0 = true /\
  gtb 12.5 0 = true /\
  (12.5 <=? active_buy_price_gbp a) = true /\
  compute_row "game boy" a [80; 85; 90] 0.128 0.029 0.30 4.50 <> None /\
  compute_row "game boy" (with_buy_price a 12.5) [80; 85; 90]
    0.128 0.029 0.30 4.50 <> None.
Proof.
  intros a.
  assert (Hacc : compute_row "game boy" a [80; 85; 90] 0.128 0.029 0.30 4.50
                 <> None) by (vm_compute; discriminate).
  split; [reflexivity|]. split; [reflexivity|]. split; [reflexivity|].
  split; [exact Hacc|].
  exact (acceptance_monotone_in_buy_price "game boy" a [80; 85; 90]
           0.128 0.029 0.30 4.50 12.5 eq_refl eq_refl eq_refl Hacc).
Defined.

End MonotoneFacts.

(* ================================================================= *)
(** * Strings: characters and [strip] *)

Module StrFacts.
Import PyVal.
Open Scope string_scope.
Open Scope list_scope.

Definition first_char (s : string) : option ascii :=
  match s with
  | EmptyString => None
  | String c _ => Some c
  end.

Fixpoint last_char (s : string) : option ascii :=
  match s with
  | EmptyString => None
  | String c EmptyString => Some c
  | String _ s' => last_char s'
  end.

(** [c] is a byte of [s]. *)
Fixpoint mem_char (c : ascii) (s : string) : bool :=
  match s with
  | EmptyString => false
  | String a s' => Ascii.eqb a c || mem_char c s'
  end.

(** ** Characters *)

Fixpoint continued (t : string) : bool :=
  match t with
  | EmptyString => true
  | String c t' => is_continuation c && continued t'
  end.

(** A character as [characters] cuts it: one byte and the continuation
    bytes after it. *)
Definition unit_of (ch : string) : Prop :=
  exists c t, ch = String c t /\ continued t = true.

(** A character that starts with a byte of its own. *)
Definition lead (ch : string) : Prop :=
  exists c t, ch = String c t /\ is_continuation c = false /\ continued t = true.

(** A list of characters as [characters] returns it: only the first can
    start with a continuation byte. *)
Definition shaped (l : list string) : Prop :=
  match l with
  | [] => True
  | ch :: rest => unit_of ch /\ Forall lead rest
  end.

Lemma lead_unit (ch : string) : lead ch -> unit_of ch.
Proof. intros (c & t & E & _ & H). exists c, t. auto. Qed.

Lemma from_characters_characters (s : string) :
  from_characters (characters s) = s.
Proof.
  induction s as [|c s IH]; simpl; [reflexivity|].
  destruct (characters s) as [|ch rest].
  - simpl in *. subst s. reflexivity.
  - destruct (starts_continued s); simpl in *; rewrite IH; reflexivity.
Qed.

Lemma characters_head (s : string) (ch : string) (rest : list string) :
  characters s = ch :: rest -> starts_continued ch = starts_continued s.
Proof.
  destruct s as [|c s]; simpl; [discriminate|].
  destruct (characters s) as [|ch' rest'].
  - intros H. injection H as <- _. reflexivity.
  - destruct (starts_continued s); intros H; injection H as <- _; reflexivity.
Qed.

Lemma characters_shaped (s : string) : shaped (characters s).
Proof.
  induction s as [|c s IH]; simpl; [exact I|].
  destruct (characters s) as [|ch rest] eqn:E.
  - split; [exists c, ""; auto | constructor].
  - pose proof (characters_head s ch rest E) as Hh.
    destruct IH as [(c' & t & -> & Ht) Hrest].
    destruct (starts_continued s) eqn:Es.
    + split; [|exact Hrest]. exists c, (String c' t). split; [reflexivity|].
      simpl in *. rewrite Hh, Ht. reflexivity.
    + split; [exists c, ""; auto|]. constructor; [|exact Hrest].
      exists c', t. simpl in Hh. auto.
Qed.

Lemma characters_nil (s : string) : characters s = [] -> s = "".
Proof.
  intros H. rewrite <- (from_characters_characters s), H. reflexivity.
Qed.

Lemma characters_continued (c : ascii) (t : string) :
  continued t = true -> characters (String c t) = [String c t].
Proof.
  revert c. induction t as [|d t IH]; intros c H; [reflexivity|].
  simpl in H. apply andb_true_iff in H. destruct H as [Hd Ht].
  change (characters (String c (String d t)))
    with (match characters (String d t) with
          | ch :: rest =>
              if starts_continued (String d t) then String c ch :: rest
              else String c EmptyString :: ch :: rest
          | [] => [String c EmptyString]
          end).
  rewrite (IH d Ht). simpl. rewrite Hd. reflexivity.
Qed.

Lemma characters_app_lead (c : ascii) (t s : string) :
  continued t = true -> starts_continued s = false ->
  characters (String c t ++ s)%string = String c t :: characters s.
Proof.
  intros Ht Hs. revert c. induction t as [|d t IH]; intros c.
  - simpl. destruct (characters s) as [|ch rest] eqn:E; [reflexivity|].
    rewrite Hs. reflexivity.
  - simpl in Ht. apply andb_true_iff in Ht. destruct Ht as [Hd Ht].
    change (characters (String c (String d t) ++ s)%string)
      with (match characters (String d t ++ s)%string with
            | ch :: rest =>
                if starts_continued (String d t ++ s)%string then String c ch :: rest
                else String c EmptyString :: ch :: rest
            | [] => [String c EmptyString]
            end).
    rewrite (IH Ht d). simpl. rewrite Hd. reflexivity.
Qed.

Lemma from_characters_lead (l : list string) :
  Forall lead l -> starts_continued (from_characters l) = false.
Proof.
  destruct 1 as [|ch l (c & t & -> & Hc & _) _]; [reflexivity|].
  simpl. exact Hc.
Qed.

Lemma characters_leads (l : list string) :
  Forall lead l -> characters (from_characters l) = l.
Proof.
  induction 1 as [|ch l (c & t & -> & Hc & Ht) Hl IH]; [reflexivity|].
  change (from_characters (String c t :: l))
    with (String c t ++ from_characters l)%string.
  rewrite (characters_app_lead c t _ Ht (from_characters_lead l Hl)), IH.
  reflexivity.
Qed.

(** Characters put together are read back as they were. *)
Lemma characters_from_characters (l : list string) :
  shaped l -> characters (from_characters l) = l.
Proof.
  destruct l as [|ch l]; [reflexivity|]. intros [(c & t & -> & Ht) Hl].
  change (from_characters (String c t :: l))
    with (String c t ++ from_characters l)%string.
  rewrite (characters_app_lead c t _ Ht (from_characters_lead l Hl)).
  rewrite (characters_leads l Hl). reflexivity.
Qed.

(** ** What [strip] drops and what it keeps *)

Lemma drop_white_split (l : list string) :
  exists w, l = w ++ drop_white l /\ forallb is_white w = true.
Proof.
  induction l as [|ch l (w & E & Hw)]; simpl.
  - exists []. auto.
  - destruct (is_white ch) eqn:Ec.
    + exists (ch :: w). simpl. rewrite Ec, Hw, <- E. auto.
    + exists []. auto.
Qed.

Lemma drop_white_head (l : list string) (ch : string) (rest : list string) :
  drop_white l = ch :: rest -> is_white ch = false.
Proof.
  induction l as [|a l IH]; simpl; [discriminate|].
  destruct (is_white a) eqn:E; [exact IH|].
  intros H. injection H as <- _. exact E.
Qed.

Lemma rstrip_split (l : list string) :
  exists w, l = rstrip l ++ w /\ forallb is_white w = true.
Proof.
  unfold rstrip. destruct (drop_white_split (rev l)) as (w & E & Hw).
  exists (rev w). split.
  - rewrite <- rev_app_distr, <- E, rev_involutive. reflexivity.
  - rewrite forallb_forall in *. intros x Hx. apply Hw, in_rev, Hx.
Qed.

Lemma shaped_suffix (a b : list string) : shaped (a ++ b) -> shaped b.
Proof.
  destruct a as [|x a]; [exact (fun H => H)|]. simpl. intros [_ H].
  apply Forall_app in H. destruct H as [_ H].
  destruct b as [|y b]; [exact I|]. inversion H; subst.
  split; [apply lead_unit; assumption | assumption].
Qed.

Lemma shaped_prefix (a b : list string) : shaped (a ++ b) -> shaped a.
Proof.
  destruct a as [|x a]; [exact (fun _ => I)|]. simpl. intros [Hx H].
  apply Forall_app in H. tauto.
Qed.

Lemma stripped_shaped (l : list string) :
  shaped l -> shaped (rstrip (lstrip l)).
Proof.
  intros H. unfold lstrip.
  destruct (drop_white_split l) as (w & E & _).
  rewrite E in H. apply shaped_suffix in H.
  destruct (rstrip_split (drop_white l)) as (w' & E' & _).
  rewrite E' in H. apply shaped_prefix in H. exact H.
Qed.

(** The characters of [strip s] are those of [s] without the white
    space at the two ends. *)
Lemma characters_strip (s : string) :
  characters (strip s) = rstrip (lstrip (characters s)).
Proof.
  unfold strip. apply characters_from_characters, stripped_shaped,
    characters_shaped.
Qed.

(** Neither the first nor the last character of [s] is white space. *)
Definition trimmed (s : string) : Prop :=
  (forall ch, hd_error (characters s) = Some ch -> is_white ch = false) /\
  (forall ch, hd_error (rev (characters s)) = Some ch -> is_white ch = false).

Lemma rstrip_last (l : list string) (ch : string) :
  hd_error (rev (rstrip l)) = Some ch -> is_white ch = false.
Proof.
  unfold rstrip. rewrite rev_involutive.
  destruct (drop_white (rev l)) as [|a r] eqn:E; simpl; [discriminate|].
  intros H. injection H as <-. exact (drop_white_head _ _ _ E).
Qed.

Lemma rstrip_first (l : list string) (ch : string) :
  hd_error (rstrip l) = Some ch -> hd_error l = Some ch.
Proof.
  destruct (rstrip_split l) as (w & E & _). rewrite E at 2.
  destruct (rstrip l); simpl; [discriminate | auto].
Qed.

Lemma strip_trimmed (s : string) : trimmed (strip s).
Proof.
  unfold trimmed. rewrite characters_strip. split; intros ch H.
  - apply rstrip_first in H. unfold lstrip in H.
    destruct (drop_white (characters s)) as [|a r] eqn:E; [discriminate|].
    simpl in H. injection H as <-. exact (drop_white_head _ _ _ E).
  - exact (rstrip_last _ ch H).
Qed.

Lemma drop_white_fixed (l : list string) :
  (forall ch, hd_error l = Some ch -> is_white ch = false) ->
  drop_white l = l.
Proof.
  destruct l as [|a l]; simpl; [reflexivity|].
  intros H. rewrite (H a eq_refl). reflexivity.
Qed.

(** A stripped string is left as it is by [strip]. *)
Lemma strip_fixed (s : string) : trimmed s -> strip s = s.
Proof.
  intros [Hf Hl]. unfold strip, lstrip, rstrip.
  rewrite (drop_white_fixed _ Hf), (drop_white_fixed _ Hl), rev_involutive.
  apply from_characters_characters.
Qed.

Lemma from_characters_empty (l : list string) :
  shaped l -> from_characters l = "" -> l = [].
Proof.
  destruct l as [|ch l]; [reflexivity|].
  intros [(c & t & -> & _) _]. discriminate.
Qed.

(** [strip] leaves nothing exactly of a string of white space. *)
Lemma strip_blank (s : string) :
  String.eqb (strip s) "" = forallb is_white (characters s).
Proof.
  destruct (String.eqb_spec (strip s) "") as [E|NE].
  - symmetry. pose proof (characters_strip s) as Hc. rewrite E in Hc.
    simpl in Hc. symmetry in Hc. unfold lstrip in Hc.
    destruct (drop_white_split (characters s)) as (w & Ew & Hw).
    destruct (rstrip_split (drop_white (characters s))) as (w' & Ew' & Hw').
    rewrite Hc in Ew'. simpl in Ew'. rewrite Ew, Ew', forallb_app, Hw, Hw'.
    reflexivity.
  - destruct (forallb is_white (characters s)) eqn:Ea; [|reflexivity].
    exfalso. apply NE. unfold strip, lstrip.
    assert (Hd : drop_white (characters s) = []).
    { clear NE. induction (characters s) as [|a l IH]; [reflexivity|].
      simpl in *. apply andb_true_iff in Ea. destruct Ea as [-> Ea]. auto. }
    rewrite Hd. reflexivity.
Qed.

(** ** The bytes of a stripped string *)

Lemma mem_char_app (c : ascii) (a b : string) :
  mem_char c (a ++ b)%string = mem_char c a || mem_char c b.
Proof.
  induction a as [|x a IH]; simpl; [reflexivity|].
  rewrite IH. apply orb_assoc.
Qed.

Lemma mem_from_characters (c : ascii) (l : list string) :
  mem_char c (from_characters l) = existsb (mem_char c) l.
Proof.
  induction l as [|ch l IH]; simpl; [reflexivity|].
  rewrite mem_char_app, IH. reflexivity.
Qed.

(** [strip] brings in no byte. *)
Lemma strip_mem (c : ascii) (s : string) :
  mem_char c (strip s) = true -> mem_char c s = true.
Proof.
  unfold strip, lstrip. rewrite mem_from_characters. intros H.
  rewrite <- (from_characters_characters s), mem_from_characters.
  destruct (drop_white_split (characters s)) as (w & E & _).
  destruct (rstrip_split (drop_white (characters s))) as (w' & E' & _).
  rewrite E, E', !existsb_app, H. rewrite orb_true_r. reflexivity.
Qed.

(** ** Strings with plain ends *)

(** An ASCII character other than white space. *)
Definition edge (c : ascii) : bool :=
  (nat_of_ascii c <? 128)%nat && negb (is_space c).

Lemma edge_not_white (c : ascii) (t : string) :
  edge c = true -> is_white (String c t) = false.
Proof.
  destruct c as [b0 b1 b2 b3 b4 b5 b6 b7].
  destruct b0, b1, b2, b3, b4, b5, b6, b7;
    (intros H; vm_compute in H; discriminate H) || (intros _; vm_compute; reflexivity).
Qed.

Lemma edge_not_continuation (c : ascii) :
  edge c = true -> is_continuation c = false.
Proof.
  unfold edge, is_continuation. intros H. apply andb_true_iff in H.
  destruct H as [H _]. apply Nat.ltb_lt in H.
  apply andb_false_iff. left. apply Nat.leb_gt. exact H.
Qed.

Lemma characters_first (c : ascii) (s : string) :
  exists t rest, characters (String c s) = String c t :: rest.
Proof.
  simpl. destruct (characters s) as [|ch rest]; [eauto|].
  destruct (starts_continued s); eauto.
Qed.

Lemma hd_rev_cons {A} (x y : A) (l : list A) :
  hd_error (rev (x :: y :: l)) = hd_error (rev (y :: l)).
Proof.
  simpl. destruct (rev l ++ [y]) eqn:E; [|reflexivity].
  destruct (rev l); discriminate.
Qed.

(** The last character of a string that ends with a byte of ASCII is
    that byte. *)
Lemma characters_last (s : string) (c : ascii) :
  last_char s = Some c -> is_continuation c = false ->
  hd_error (rev (characters s)) = Some (String c "").
Proof.
  intros Hl Hc. induction s as [|a s IH]; [discriminate|].
  destruct s as [|b s'].
  - simpl in Hl. injection Hl as <-. reflexivity.
  - specialize (IH Hl). remember (String b s') as s eqn:Es.
    change (characters (String a s))
      with (match characters s with
            | ch :: rest =>
                if starts_continued s then String a ch :: rest
                else String a EmptyString :: ch :: rest
            | [] => [String a EmptyString]
            end).
    destruct (characters s) as [|ch rest] eqn:E; [discriminate|].
    pose proof (characters_head s ch rest E) as Hh.
    destruct rest as [|ch' rest'].
    + simpl in IH. injection IH as ->. simpl in Hh. rewrite <- Hh, Hc.
      reflexivity.
    + rewrite hd_rev_cons in IH.
      destruct (starts_continued s); rewrite !hd_rev_cons; exact IH.
Qed.

Lemma edges_trimmed (k : string) :
  (forall c, first_char k = Some c -> edge c = true) ->
  (forall c, last_char k = Some c -> edge c = true) ->
  trimmed k.
Proof.
  intros Hf Hl. split; intros ch H.
  - destruct k as [|c k]; [discriminate|].
    destruct (characters_first c k) as (t & rest & E). rewrite E in H.
    simpl in H. injection H as <-.
    apply edge_not_white, Hf. reflexivity.
  - destruct (last_char k) as [c|] eqn:E.
    + pose proof (Hl c eq_refl) as Hc.
      rewrite (characters_last k c E (edge_not_continuation c Hc)) in H.
      injection H as <-. apply edge_not_white, Hc.
    + destruct k as [|a k]; [discriminate|]. exfalso. clear -E.
      revert a E. induction k as [|b k IH]; intros a E; [discriminate|].
      exact (IH b E).
Qed.

End StrFacts.

(* ================================================================= *)
(** * More on the response parser *)

Module ParserInvariants.
Import PyVal Estimator Parser ParserFacts StrFacts.
Open Scope string_scope.
Open Scope float_scope.
Open Scope py_scope.

Section ParserInvariants.
Variable float_of_str : string -> option float.

Lemma text_field_trimmed (it : pyval) (k t : string) :
  text_field it k = Ok t -> trimmed t.
Proof.
  unfold text_field.
  destruct (py_get it k _) as [x|]; [|discriminate]. simpl.
  destruct (py_index0 x) as [y|]; [|discriminate]. simpl.
  unfold py_strip. destruct (py_or y (PStr "")); try discriminate.
  intros H. injection H as <-. apply strip_trimmed.
Qed.

(** What a record leaves in the sold totals is the buy price it leaves in
    the active listings. *)
Lemma parse_sold_item_of_active (it : pyval) (r : option ActiveListing) :
  parse_active_item float_of_str it = Ok r ->
  parse_sold_item float_of_str it = Ok (option_map active_buy_price_gbp r).
Proof.
  unfold parse_active_item, parse_sold_item.
  destruct (text_field it "title"); [|discriminate]. simpl.
  destruct (text_field it "itemId"); [|discriminate]. simpl.
  destruct (text_field it "viewItemURL"); [|discriminate]. simpl.
  destruct (item_price float_of_str it) as [p|]; [|discriminate]. simpl.
  destruct (item_shipping float_of_str it) as [s|]; [|discriminate]. simpl.
  destruct p; intros H; injection H as <-; reflexivity.
Qed.

Lemma collect_sold_of_active (items : list pyval) :
  forall listings,
    collect (parse_active_item float_of_str) items = Ok listings ->
    collect (parse_sold_item float_of_str) items
      = Ok (map active_buy_price_gbp listings).
Proof.
  induction items as [|it items IH]; simpl; intros listings H.
  - injection H as <-. reflexivity.
  - destruct (parse_active_item float_of_str it) as [r|] eqn:E;
      [|discriminate].
    rewrite (parse_sold_item_of_active it r E). simpl in *.
    destruct (collect (parse_active_item float_of_str) items) as [out|];
      [|discriminate].
    rewrite (IH out eq_refl). simpl in *. injection H as <-.
    destruct r; reflexivity.
Qed.

(** X1. Both parsers read the same records: when [parse_active_items]
    returns the listings of a reply, [parse_sold_totals] returns, for the
    same reply, the buy prices of these listings, in the same order. *)
Theorem sold_totals_are_buy_prices (root : pyval)
  (listings : list ActiveListing) :
  parse_active_items float_of_str root = Ok listings ->
  parse_sold_totals float_of_str root
    = Ok (map active_buy_price_gbp listings).
Proof.
  unfold parse_active_items, parse_sold_totals.
  destruct (items_of root) as [items|]; [|discriminate]. simpl.
  apply collect_sold_of_active.
Qed.

(** The listing a record gives, when it gives one. *)
Definition well_formed (a : ActiveListing) : Prop :=
  active_buy_price_gbp a = active_price_gbp a + active_shipping_gbp a /\
  trimmed (active_title a) /\
  trimmed (active_item_id a) /\
  trimmed (active_url a).

Lemma parse_active_item_well_formed (it : pyval) (a : ActiveListing) :
  parse_active_item float_of_str it = Ok (Some a) -> well_formed a.
Proof.
  unfold parse_active_item.
  destruct (text_field it "title") as [t|] eqn:Et; [|discriminate]. simpl.
  destruct (text_field it "itemId") as [i|] eqn:Ei; [|discriminate]. simpl.
  destruct (text_field it "viewItemURL") as [u|] eqn:Eu; [|discriminate].
  simpl.
  destruct (item_price float_of_str it) as [p|]; [|discriminate]. simpl.
  destruct (item_shipping float_of_str it) as [s|]; [|discriminate]. simpl.
  destruct p; [|discriminate]. intros H. injection H as <-.
  unfold well_formed. simpl.
  split; [reflexivity|].
  split; [exact (text_field_trimmed _ _ _ Et)|].
  split; [exact (text_field_trimmed _ _ _ Ei)
         | exact (text_field_trimmed _ _ _ Eu)].
Qed.

Lemma collect_Forall {A} (body : pyval -> result (option A))
  (P : A -> Prop) :
  (forall it a, body it = Ok (Some a) -> P a) ->
  forall items out, collect body items = Ok out -> Forall P out.
Proof.
  intros Hbody. induction items as [|it items IH]; simpl; intros out H.
  - injection H as <-. constructor.
  - destruct (body it) as [r|] eqn:E; [|discriminate]. simpl in H.
    destruct (collect body items) as [out'|]; [|discriminate]. simpl in H.
    injection H as <-. specialize (IH out' eq_refl).
    destruct r; [constructor; [exact (Hbody it a E) | exact IH] | exact IH].
Qed.

(** X2. Every listing [parse_active_items] returns has a buy price that
    is its price plus its shipping cost, and a title, an identifier and a
    URL without white space at either end. *)
Theorem parsed_listings_well_formed (root : pyval)
  (listings : list ActiveListing) :
  parse_active_items float_of_str root = Ok listings ->
  Forall well_formed listings.
Proof.
  unfold parse_active_items.
  destruct (items_of root) as [items|]; [|discriminate]. simpl.
  apply collect_Forall. exact parse_active_item_well_formed.
Qed.

(** X3. A reply without results is an empty page, not an error: when
    the reply has no [searchResult], or when its [searchResult] has no
    [item], both parsers return the empty list. *)
Theorem parsers_without_results (d : list (string * pyval)) :
  lookup "searchResult" d = None \/
  (exists sr rest,
      lookup "searchResult" d = Some (PList (PDict sr :: rest)) /\
      lookup "item" sr = None) ->
  parse_active_items float_of_str (PDict d) = Ok [] /\
  parse_sold_totals float_of_str (PDict d) = Ok [].
Proof.
  unfold parse_active_items, parse_sold_totals, items_of, py_get.
  intros [H|(sr & rest & H & Hi)]; rewrite H; simpl.
  - split; reflexivity.
  - rewrite Hi. split; reflexivity.
Qed.

Lemma collect_raises {A} (body : pyval -> result (option A))
  (items : list pyval) :
  raises (collect body items) = true <->
  Exists (fun it => raises (body it) = true) items.
Proof.
  induction items as [|it items IH]; simpl.
  - split; [discriminate | intros H; inversion H].
  - destruct (body it) as [r|e] eqn:E; simpl.
    + destruct (collect body items) as [out|e]; simpl in *.
      * split; [discriminate|]. intros H. inversion H as [? ? H1|? ? H1]; subst.
        -- rewrite E in H1. discriminate.
        -- apply IH in H1. discriminate.
      * split; [|reflexivity]. intros _. apply Exists_cons_tl.
        apply IH. reflexivity.
    + split; [|reflexivity]. intros _. apply Exists_cons_hd.
      rewrite E. reflexivity.
Qed.

Lemma collect_length {A} (body : pyval -> result (option A))
  (items : list pyval) :
  forall out, collect body items = Ok out ->
              (List.length out <= List.length items)%nat.
Proof.
  induction items as [|it items IH]; simpl; intros out H.
  - injection H as <-. simpl. lia.
  - destruct (body it) as [r|]; [|discriminate]. simpl in H.
    destruct (collect body items) as [out'|]; [|discriminate]. simpl in H.
    injection H as <-. specialize (IH out' eq_refl).
    destruct r; simpl; lia.
Qed.

(** X4. A page is parsed as a whole or not at all: over the records
    [items] of a reply, each parser raises exactly when its loop body
    raises on one of the records, and otherwise returns at most one entry
    for each record. *)
Theorem parsers_all_or_nothing (root : pyval) (items : list pyval) :
  items_of root = Ok items ->
  (raises (parse_active_items float_of_str root) = true <->
   Exists (fun it => raises (parse_active_item float_of_str it) = true)
     items) /\
  (raises (parse_sold_totals float_of_str root) = true <->
   Exists (fun it => raises (parse_sold_item float_of_str it) = true)
     items) /\
  (forall listings,
      parse_active_items float_of_str root = Ok listings ->
      (List.length listings <= List.length items)%nat) /\
  (forall totals,
      parse_sold_totals float_of_str root = Ok totals ->
      (List.length totals <= List.length items)%nat).
Proof.
  intros Hitems. unfold parse_active_items, parse_sold_totals.
  rewrite Hitems. simpl.
  split; [apply collect_raises|]. split; [apply collect_raises|].
  split; apply collect_length.
Qed.
End ParserInvariants.

Lemma sold_totals_are_buy_prices_witness :
  let root := reply [priced_item []; unpriced_item (PList [PDict []])] in
  exists listings,
    parse_active_items sample_float_of_str root = Ok listings /\
    List.length listings = 1%nat /\
    parse_sold_totals sample_float_of_str root
      = Ok (map active_buy_price_gbp listings).
Proof.
  intros root. eexists. split; [reflexivity|]. split; [reflexivity|].
  apply (sold_totals_are_buy_prices sample_float_of_str root).
  reflexivity.
Defined.

(** A record whose title stands between a no-break space and an em
    space. *)
Definition wrapped_item : pyval :=
  PDict [("title", PList [PStr (utf8 160 ++ "Game Boy" ++ utf8 8195)]);
         ("itemId", PList [PStr " 1003"]);
         ("viewItemURL", PList [PStr "https://www.ebay.co.uk/itm/1003"]);
         ("sellingStatus",
          PList [PDict [("currentPrice",
                         PList [PDict [("__value__", PStr "10.0")]])]])].

Lemma parsed_listings_well_formed_witness :
  let root := reply [wrapped_item; unpriced_item (PList [PDict []])] in
  exists listings,
    parse_active_items sample_float_of_str root = Ok listings /\
    map active_title listings = ["Game Boy"] /\
    map active_item_id listings = ["1003"] /\
    Forall well_formed listings.
Proof.
  intros root. eexists. split; [vm_compute; reflexivity|].
  split; [reflexivity|]. split; [reflexivity|].
  apply (parsed_listings_well_formed sample_float_of_str root).
  vm_compute. reflexivity.
Defined.

Lemma parsers_without_results_witness :
  let d := [("ack", PList [PStr "Success"]);
            ("searchResult", PList [PDict [("@count", PStr "0")]])] in
  (lookup "searchResult" d = None \/
   (exists sr rest,
       lookup "searchResult" d = Some (PList (PDict sr :: rest)) /\
       lookup "item" sr = None)) /\
  parse_active_items sample_float_of_str (PDict d) = Ok [] /\
  parse_sold_totals sample_float_of_str (PDict d) = Ok [].
Proof.
  intros d.
  assert (H : lookup "searchResult" d = None \/
              (exists sr rest,
                  lookup "searchResult" d = Some (PList (PDict sr :: rest)) /\
                  lookup "item" sr = None))
    by (right; exists [("@count", PStr "0")], []; split; reflexivity).
  split; [exact H|].
  exact (parsers_without_results sample_float_of_str d H).
Defined.

Lemma parsers_all_or_nothing_witness :
  let items := [priced_item []; priced_item [("shippingInfo", PList [])]] in
  items_of (reply items) = Ok items /\
  raises (parse_active_items sample_float_of_str (reply items)) = true /\
  Exists (fun it => raises (parse_active_item sample_float_of_str it) = true)
    items.
Proof.
  intros items. split; [reflexivity|]. split; [reflexivity|].
  apply (proj1 (parsers_all_or_nothing sample_float_of_str (reply items)
                  items eq_refl)).
  reflexivity.
Defined.

End ParserInvariants.

(* ================================================================= *)
(** * One call of the Finding API *)

Module CallFacts.
Import PyVal Estimator Parser ParserFacts Fetcher Driver DriverFacts Messages
  Samples.
Open Scope string_scope.
Open Scope py_scope.

(** The element [ebay_finding_call] returns: the first one under the
    key of the operation's response. *)
Definition response_root (operation : string) (data : pyval) : result pyval :=
  x <- py_get data (operation ++ "Response") (PList [PDict []]) ;;
  py_index0 x.

(** [s] starts with [p]; [p] occurs in [s]. *)
Fixpoint starts_with (p s : string) : bool :=
  match p with
  | EmptyString => true
  | String c p' =>
      match s with
      | EmptyString => false
      | String c' s' => Ascii.eqb c c' && starts_with p' s'
      end
  end.

Fixpoint occurs (p s : string) : bool :=
  starts_with p s ||
  match s with
  | EmptyString => false
  | String _ s' => occurs p s'
  end.

Lemma starts_with_app (p a b : string) :
  starts_with p a = true -> starts_with p (a ++ b) = true.
Proof.
  revert a. induction p as [|c p IH]; intros a; simpl; [reflexivity|].
  destruct a as [|c' a]; simpl; [discriminate|].
  destruct (Ascii.eqb c c'); simpl; [apply IH | discriminate].
Qed.

Lemma starts_with_self (p b : string) : starts_with p (p ++ b) = true.
Proof.
  induction p as [|c p IH]; simpl; [reflexivity|].
  rewrite Ascii.eqb_refl. exact IH.
Qed.

Lemma occurs_app_l (p a b : string) :
  occurs p a = true -> occurs p (a ++ b) = true.
Proof.
  induction a as [|c a IH]; simpl.
  - rewrite orb_false_r. intros H.
    pose proof (starts_with_app p "" b H) as H'. simpl in H'.
    destruct b; simpl; rewrite H'; reflexivity.
  - intros H. apply orb_true_iff in H. apply orb_true_iff.
    destruct H as [H|H].
    + left. exact (starts_with_app p (String c a) b H).
    + right. exact (IH H).
Qed.

Lemma occurs_app_r (p a b : string) :
  occurs p b = true -> occurs p (a ++ b) = true.
Proof.
  intros H. induction a as [|c a IH]; simpl; [exact H|].
  rewrite IH. apply orb_true_r.
Qed.

Lemma occurs_self (p b : string) : occurs p (p ++ b) = true.
Proof.
  pose proof (starts_with_self p b) as H.
  destruct (p ++ b); simpl; rewrite H; reflexivity.
Qed.

Section CallFacts.
Variable World : Type.
Variable http_get : World -> Request -> result pyval * World.
Variable py_str : pyval -> string.

Lemma ebay_finding_call_world (w : World) (rq : Request) :
  snd (ebay_finding_call http_get w rq) = snd (http_get w rq).
Proof.
  unfold ebay_finding_call. destruct (http_get w rq). reflexivity.
Qed.

Lemma ebay_finding_call_ok (w : World) (rq : Request) (root : pyval) :
  fst (ebay_finding_call http_get w rq) = Ok root <->
  exists data d,
    fst (http_get w rq) = Ok data /\
    response_root (req_operation rq) data = Ok root /\
    root = PDict d /\
    acknowledged (req_operation rq) data = true.
Proof.
  unfold ebay_finding_call.
  destruct (http_get w rq) as [[data|e] w']; simpl.
  2:{ split; [discriminate|]. intros (data & d & H & _). discriminate H. }
  assert (Hcore :
    (x <- py_get data (req_operation rq ++ "Response") (PList [PDict []]) ;;
     root <- py_index0 x ;;
     y <- py_get root "ack" (PList [PStr ""]) ;;
     a <- py_index0 y ;;
     ack <- py_lower (py_or a (PStr "")) ;;
     if String.eqb ack "success" || String.eqb ack "warning" then Ok root
     else
       z <- py_get root "errorMessage" (PList [PDict []]) ;;
       m <- py_index0 z ;;
       errs <- py_get m "error" (PList []) ;;
       es <- py_iter errs ;;
       mapM error_text es ;;;
       Raise RuntimeError) = Ok root <->
    response_root (req_operation rq) data = Ok root /\
    (exists d, root = PDict d) /\
    acknowledged (req_operation rq) data = true).
  { unfold acknowledged, ack_of, response_root.
    destruct (py_get data _ _) as [x|e]; simpl.
    2:{ split; [discriminate | intros [H _]; discriminate H]. }
    destruct (py_index0 x) as [root0|e]; simpl.
    2:{ split; [discriminate | intros [H _]; discriminate H]. }
    destruct (py_get root0 "ack" _) as [y|e] eqn:Eget; simpl.
    2:{ split; [discriminate | intros (_ & _ & H); discriminate H]. }
    assert (Hd : exists d, root0 = PDict d)
      by (destruct root0; try discriminate Eget; eauto).
    destruct (py_index0 y) as [a|e]; simpl.
    2:{ split; [discriminate | intros (_ & _ & H); discriminate H]. }
    destruct (py_lower _) as [ack|e]; simpl.
    2:{ split; [discriminate | intros (_ & _ & H); discriminate H]. }
    destruct (String.eqb ack "success" || String.eqb ack "warning").
    - split.
      + intros H. injection H as <-. auto.
      + intros (H & _). exact H.
    - split; [|intros (_ & _ & H); discriminate H].
      destruct (py_get root0 "errorMessage" _) as [z|e]; simpl;
        [|discriminate].
      destruct (py_index0 z) as [m|e]; simpl; [|discriminate].
      destruct (py_get m "error" _) as [errs|e]; simpl; [|discriminate].
      destruct (py_iter errs) as [es|e]; simpl; [|discriminate].
      destruct (mapM error_text es) as [u|e]; simpl; discriminate. }
  rewrite Hcore. split.
  - intros (Hr & (d & Hd) & Ha). exists data, d. auto.
  - intros (data' & d & H & Hr & Hd & Ha). injection H as <-. eauto.
Qed.

(** X5. [ebay_finding_call] sends one request, and returns a reply root
    exactly when the request succeeded at the HTTP level and the reply
    acknowledges with [success] or [warning], in any letter case; the
    root returned is then a dictionary, the first element under the
    response key of the operation. *)
Theorem ebay_finding_call_returns (w : World) (rq : Request) :
  snd (ebay_finding_call http_get w rq) = snd (http_get w rq) /\
  forall root,
    fst (ebay_finding_call http_get w rq) = Ok root <->
    exists data d,
      fst (http_get w rq) = Ok data /\
      response_root (req_operation rq) data = Ok root /\
      root = PDict d /\
      acknowledged (req_operation rq) data = true.
Proof.
  split; [apply ebay_finding_call_world|].
  intros root. apply ebay_finding_call_ok.
Qed.

Lemma error_line_text (e : pyval) :
  match error_line py_str e, error_text e with
  | Ok _, Ok _ => True
  | Raise x, Raise y => x = y
  | _, _ => False
  end.
Proof.
  unfold error_line, error_text.
  destruct (py_get e "errorId" _) as [a|]; simpl; [|reflexivity].
  destruct (py_index0 a); simpl; [|reflexivity].
  destruct (py_get e "message" _) as [b|]; simpl; [|reflexivity].
  destruct (py_index0 b); simpl; [exact I | reflexivity].
Qed.

Lemma error_lines_texts (es : list pyval) :
  match mapM (error_line py_str) es, mapM error_text es with
  | Ok lines, Ok _ => List.length lines = List.length es
  | Raise x, Raise y => x = y
  | _, _ => False
  end.
Proof.
  induction es as [|e es IH]; simpl; [reflexivity|].
  pose proof (error_line_text e) as He.
  destruct (error_line py_str e), (error_text e); simpl;
    try contradiction; try exact He.
  destruct (mapM (error_line py_str) es), (mapM error_text es); simpl;
    try contradiction; try exact IH.
  simpl. f_equal. exact IH.
Qed.

Lemma error_line_colon (e : pyval) (line : string) :
  error_line py_str e = Ok line -> occurs ": " line = true.
Proof.
  unfold error_line.
  destruct (py_get e "errorId" _) as [a|]; simpl; [|discriminate].
  destruct (py_index0 a) as [i|]; simpl; [|discriminate].
  destruct (py_get e "message" _) as [b|]; simpl; [|discriminate].
  destruct (py_index0 b) as [m|]; simpl; [|discriminate].
  intros H. injection H as <-. apply occurs_app_r.
  exact (occurs_self ": " (format_value py_str m)).
Qed.

Lemma error_lines_colon (es : list pyval) :
  forall lines,
    mapM (error_line py_str) es = Ok lines ->
    Forall (fun line => occurs ": " line = true) lines.
Proof.
  induction es as [|e es IH]; simpl; intros lines H.
  - injection H as <-. constructor.
  - destruct (error_line py_str e) as [line|] eqn:E; [|discriminate].
    simpl in H.
    destruct (mapM (error_line py_str) es) as [rest|]; [|discriminate].
    simpl in H. injection H as <-.
    constructor; [exact (error_line_colon e line E) | exact (IH rest eq_refl)].
Qed.

Lemma concat_colon (line : string) (lines : list string) :
  occurs ": " line = true ->
  occurs ": " (String.concat "; " (line :: lines)) = true.
Proof.
  intros H. simpl. destruct lines; [exact H|].
  apply occurs_app_l. exact H.
Qed.

(** A reply that does not acknowledge makes the call raise: the
    exception of reading the list of errors, or [RuntimeError]. *)
Lemma refused_call_raises (w : World) (rq : Request)
  (data root : pyval) (ack : string) :
  fst (http_get w rq) = Ok data ->
  response_root (req_operation rq) data = Ok root ->
  ack_of (req_operation rq) data = Ok ack ->
  String.eqb ack "success" || String.eqb ack "warning" = false ->
  fst (ebay_finding_call http_get w rq) =
    match error_message py_str root with
    | Ok _ => Raise RuntimeError
    | Raise e => Raise e
    end.
Proof.
  intros Hget Hroot Hack Hrefused.
  unfold ebay_finding_call, error_message, error_entries.
  unfold ack_of in Hack. unfold response_root in Hroot.
  destruct (http_get w rq) as [r w']. simpl in Hget. subst r. simpl.
  destruct (py_get data _ _) as [x|]; [|discriminate]. simpl in *.
  rewrite Hroot in *. simpl in *.
  destruct (py_get root "ack" _) as [y|]; [|discriminate]. simpl in *.
  destruct (py_index0 y) as [a|]; [|discriminate]. simpl in *.
  rewrite Hack. simpl. rewrite Hrefused.
  destruct (py_get root "errorMessage" _) as [z|]; simpl; [|reflexivity].
  destruct (py_index0 z) as [m|]; simpl; [|reflexivity].
  destruct (py_get m "error" _) as [errs|]; simpl; [|reflexivity].
  destruct (py_iter errs) as [es|]; simpl; [|reflexivity].
  pose proof (error_lines_texts es) as H.
  destruct (mapM (error_line py_str) es), (mapM error_text es); simpl;
    try contradiction; [reflexivity | congruence].
Qed.

(** X6. When the reply does not acknowledge with [success] or
    [warning], the call raises [RuntimeError] as soon as the list of
    errors of the reply can be read, and the text it raises is never
    empty: it is "Unknown eBay API error" exactly when the reply lists
    no error, and otherwise one "identifier: message" for each error
    listed. *)
Theorem refused_call_message (w : World) (rq : Request)
  (data root : pyval) (ack : string) :
  fst (http_get w rq) = Ok data ->
  response_root (req_operation rq) data = Ok root ->
  ack_of (req_operation rq) data = Ok ack ->
  String.eqb ack "success" || String.eqb ack "warning" = false ->
  fst (ebay_finding_call http_get w rq) =
    match error_message py_str root with
    | Ok _ => Raise RuntimeError
    | Raise e => Raise e
    end /\
  forall msg,
    error_message py_str root = Ok msg ->
    msg <> "" /\
    exists es lines,
      error_entries root = Ok es /\
      mapM (error_line py_str) es = Ok lines /\
      List.length lines = List.length es /\
      (msg = "Unknown eBay API error" <-> es = []) /\
      (es <> [] -> msg = String.concat "; " lines).
Proof.
  intros Hget Hroot Hack Hrefused. split.
  - exact (refused_call_raises w rq data root ack Hget Hroot Hack Hrefused).
  - intros msg. unfold error_message.
    destruct (error_entries root) as [es|]; [|discriminate]. simpl.
    destruct (mapM (error_line py_str) es) as [lines|] eqn:El;
      [|discriminate].
    simpl. intros H. injection H as <-.
    pose proof (error_lines_colon es lines El) as Hcolon.
    pose proof (error_lines_texts es) as Hlen. rewrite El in Hlen.
    destruct (mapM error_text es); [|contradiction].
    destruct lines as [|line lines].
    + destruct es; [|discriminate Hlen]. simpl.
      split; [discriminate|]. exists [], []. repeat split; congruence.
    + inversion Hcolon as [|? ? Hline _]; subst.
      pose proof (concat_colon line lines Hline) as Hocc.
      destruct (String.eqb_spec (String.concat "; " (line :: lines)) "")
        as [E|NE].
      * rewrite E in Hocc. discriminate Hocc.
      * split; [exact NE|]. exists es, (line :: lines).
        split; [reflexivity|]. split; [exact El|].
        split; [exact Hlen|]. split; [|reflexivity].
        split.
        -- intros E. rewrite E in Hocc. discriminate Hocc.
        -- intros ->. discriminate Hlen.
Qed.
End CallFacts.

(** [str] of the values of the sample replies. *)
Definition sample_py_str (v : pyval) : string :=
  match v with
  | PNone => "None"
  | PBool true => "True"
  | PBool false => "False"
  | _ => "?"
  end.

Lemma refused_call_message_witness :
  let rq := active_request "APP" "denied" 20 "EBAY-GB" in
  exists data root,
    fst (http_get O rq) = Ok data /\
    response_root (req_operation rq) data = Ok root /\
    ack_of (req_operation rq) data = Ok "failure" /\
    fst (ebay_finding_call http_get O rq) = Raise RuntimeError /\
    error_message sample_py_str root = Ok "11002: Invalid Application".
Proof.
  intros rq. eexists. eexists.
  split; [reflexivity|]. split; [reflexivity|]. split; [reflexivity|].
  split; [|reflexivity].
  exact (proj1 (refused_call_message nat http_get sample_py_str O rq _ _
                  "failure" eq_refl eq_refl eq_refl eq_refl)).
Defined.

End CallFacts.

(* ================================================================= *)
(** * More on the pagination fetcher *)

Module PaginationFacts.
Import PyVal Estimator Parser ParserFacts Fetcher FetcherFacts Samples.
Open Scope py_scope.

(** The requests for [n] pages from page [page] on. *)
Fixpoint page_requests (app_id keyword global_id end_from : string)
  (page : Z) (n : nat) : list Request :=
  match n with
  | O => []
  | S n' =>
      sold_request app_id keyword 100 (Some page) global_id end_from
      :: page_requests app_id keyword global_id end_from (page + 1) n'
  end.

Section PaginationFacts.
Variable float_of_str : string -> option float.
Variable int_of_str : string -> option Z.
Variable World : Type.
Variable http_get : World -> Request -> result pyval * World.
Variable end_time_from : World -> Z -> string.
Variable sleep : World -> World.

Local Abbreviation parse := (parse_sold_totals float_of_str).
Local Abbreviation fetched := (FetcherFacts.fetched float_of_str).

(** A reply that came back and could be parsed. *)
Definition page_ok (c : Call) : Prop :=
  exists root totals, snd c = Ok root /\ parse root = Ok totals.

Section Loop.
Variables (app_id keyword : string) (sold_limit : Z)
  (global_id end_from : string).

(** The runs of the [while] loop of [find_sold_totals], entered in the
    world [w] with the last reply [root], the [totals] so far and the last
    page asked for: the calls made, what is returned or raised, and the
    world left. *)
Inductive pages : World -> pyval -> list float -> Z ->
                  list Call -> result (list float) -> World -> Prop :=
| pages_enough w root totals page :
    (sold_limit <= Z.of_nat (List.length totals))%Z ->
    pages w root totals page [] (Ok (py_slice_to totals sold_limit)) w
| pages_no_total w root totals page e :
    (Z.of_nat (List.length totals) < sold_limit)%Z ->
    total_pages_of int_of_str root = Raise e ->
    pages w root totals page [] (Raise e) w
| pages_exhausted w root totals page total_pages :
    (Z.of_nat (List.length totals) < sold_limit)%Z ->
    total_pages_of int_of_str root = Ok total_pages ->
    (total_pages < page + 1)%Z ->
    pages w root totals page [] (Ok (py_slice_to totals sold_limit)) w
| pages_call_fails w root totals page total_pages e w' :
    (Z.of_nat (List.length totals) < sold_limit)%Z ->
    total_pages_of int_of_str root = Ok total_pages ->
    (page + 1 <= total_pages)%Z ->
    let rq := sold_request app_id keyword 100 (Some (page + 1)%Z)
                global_id end_from in
    ebay_finding_call http_get w rq = (Raise e, w') ->
    pages w root totals page [(rq, Raise e)] (Raise e) w'
| pages_parse_fails w root totals page total_pages root' e w' :
    (Z.of_nat (List.length totals) < sold_limit)%Z ->
    total_pages_of int_of_str root = Ok total_pages ->
    (page + 1 <= total_pages)%Z ->
    let rq := sold_request app_id keyword 100 (Some (page + 1)%Z)
                global_id end_from in
    ebay_finding_call http_get w rq = (Ok root', w') ->
    parse root' = Raise e ->
    pages w root totals page [(rq, Ok root')] (Raise e) w'
| pages_next w root totals page total_pages root' more w' calls res w'' :
    (Z.of_nat (List.length totals) < sold_limit)%Z ->
    total_pages_of int_of_str root = Ok total_pages ->
    (page + 1 <= total_pages)%Z ->
    let rq := sold_request app_id keyword 100 (Some (page + 1)%Z)
                global_id end_from in
    ebay_finding_call http_get w rq = (Ok root', w') ->
    parse root' = Ok more ->
    pages (sleep w') root' (totals ++ more) (page + 1) calls res w'' ->
    pages w root totals page ((rq, Ok root') :: calls) res w''.

(** Every run of [sold_loop] that comes to an end is one of these. *)
Lemma sold_loop_pages (fuel : nat) :
  forall w root totals page calls0 res w' calls',
    sold_loop float_of_str int_of_str http_get sleep fuel w app_id keyword
      sold_limit global_id end_from root totals page calls0
    = Some (res, w', calls') ->
    exists calls,
      calls' = (calls0 ++ calls)%list /\
      pages w root totals page calls res w'.
Proof.
  induction fuel as [|fuel IH];
    intros w root totals page calls0 res w' calls'; simpl.
  - destruct (Z.ltb_spec (Z.of_nat (List.length totals)) sold_limit)
      as [Hlt|Hge].
    + destruct (total_pages_of int_of_str root) as [tp|e] eqn:Etp.
      * destruct (Z.ltb_spec tp (page + 1)) as [Hout|Hin]; [|discriminate].
        intros H. injection H as <- <- <-. exists [].
        split; [symmetry; apply app_nil_r|].
        exact (pages_exhausted w root totals page tp Hlt Etp Hout).
      * intros H. injection H as <- <- <-. exists [].
        split; [symmetry; apply app_nil_r|].
        exact (pages_no_total w root totals page e Hlt Etp).
    + intros H. injection H as <- <- <-. exists [].
      split; [symmetry; apply app_nil_r|].
      exact (pages_enough w root totals page Hge).
  - destruct (Z.ltb_spec (Z.of_nat (List.length totals)) sold_limit)
      as [Hlt|Hge].
    + destruct (total_pages_of int_of_str root) as [tp|e] eqn:Etp.
      * destruct (Z.ltb_spec tp (page + 1)) as [Hout|Hin].
        { intros H. injection H as <- <- <-. exists [].
          split; [symmetry; apply app_nil_r|].
          exact (pages_exhausted w root totals page tp Hlt Etp Hout). }
        destruct (ebay_finding_call http_get w _) as [[root'|e] w1] eqn:Ecall.
        -- destruct (parse root') as [more|e] eqn:Ep.
           ++ intros Hrun. apply IH in Hrun.
              destruct Hrun as (calls & -> & Hrun).
              eexists. split; [rewrite <- app_assoc; reflexivity|].
              exact (pages_next w root totals page tp root' more w1 calls
                       res w' Hlt Etp Hin Ecall Ep Hrun).
           ++ intros H. injection H as <- <- <-. eexists.
              split; [reflexivity|].
              exact (pages_parse_fails w root totals page tp root' e w1
                       Hlt Etp Hin Ecall Ep).
        -- intros H. injection H as <- <- <-. eexists.
           split; [reflexivity|].
           exact (pages_call_fails w root totals page tp e w1
                    Hlt Etp Hin Ecall).
      * intros H. injection H as <- <- <-. exists [].
        split; [symmetry; apply app_nil_r|].
        exact (pages_no_total w root totals page e Hlt Etp).
    + intros H. injection H as <- <- <-. exists [].
      split; [symmetry; apply app_nil_r|].
      exact (pages_enough w root totals page Hge).
Qed.

(** The pages are asked for one after the other. *)
Lemma pages_requests w root totals page calls res w' :
  pages w root totals page calls res w' ->
  map fst calls =
  page_requests app_id keyword global_id end_from (page + 1)
    (List.length calls).
Proof.
  induction 1 as [w root totals page Hge | w root totals page e Hlt Etp | w root totals page tp Hlt Etp Hout | w root totals page tp e w' Hlt Etp Hin rq Ecall | w root totals page tp root' e w' Hlt Etp Hin rq Ecall Ep | w root totals page tp root' more w' calls res w'' Hlt Etp Hin rq Ecall Ep Hrun IH];
    simpl; try reflexivity.
  rewrite IH. reflexivity.
Qed.

(** Before each call the totals are fewer than the target. *)
Lemma pages_below w root totals page calls res w' :
  pages w root totals page calls res w' ->
  forall k, (k < List.length calls)%nat ->
    (Z.of_nat (List.length (totals ++ fetched (firstn k calls)))
     < sold_limit)%Z.
Proof.
  induction 1 as [w root totals page Hge | w root totals page e Hlt Etp | w root totals page tp Hlt Etp Hout | w root totals page tp e w' Hlt Etp Hin rq Ecall | w root totals page tp root' e w' Hlt Etp Hin rq Ecall Ep | w root totals page tp root' more w' calls res w'' Hlt Etp Hin rq Ecall Ep Hrun IH];
    simpl; intros k Hk; try lia.
  - replace k with O by lia. simpl. rewrite app_nil_r. assumption.
  - replace k with O by lia. simpl. rewrite app_nil_r. assumption.
  - destruct k as [|k]; simpl.
    + rewrite app_nil_r. assumption.
    + rewrite Ep, app_assoc. apply IH. lia.
Qed.

(** A call that fails is the last one, and its exception is the
    outcome. *)
Lemma pages_abort w root totals page calls res w' :
  pages w root totals page calls res w' ->
  forall c0, page_ok c0 ->
    exists pre rq r,
      c0 :: calls = (pre ++ [(rq, r)])%list /\
      Forall page_ok pre /\
      (forall e, r = Raise e -> res = Raise e) /\
      (forall root e, r = Ok root -> parse root = Raise e -> res = Raise e).
Proof.
  induction 1 as [w root totals page Hge | w root totals page e Hlt Etp | w root totals page tp Hlt Etp Hout | w root totals page tp e w' Hlt Etp Hin rq Ecall | w root totals page tp root' e w' Hlt Etp Hin rq Ecall Ep | w root totals page tp root' more w' calls res w'' Hlt Etp Hin rq Ecall Ep Hrun IH];
    intros [rq0 r0] H0.
  1-3: exists [], rq0, r0; split; [reflexivity|]; split; [constructor|];
       destruct H0 as (root0 & t0 & Hr & Hp); simpl in Hr; subst r0;
       split; [discriminate|]; intros root1 e1 E; injection E as <-;
       congruence.
  - exists [(rq0, r0)], rq, (Raise e). split; [reflexivity|].
    split; [constructor; [exact H0 | constructor]|].
    split; [intros e1 E; injection E as <-; reflexivity | discriminate].
  - exists [(rq0, r0)], rq, (Ok root'). split; [reflexivity|].
    split; [constructor; [exact H0 | constructor]|].
    split; [discriminate|]. intros root1 e1 E. injection E as <-.
    congruence.
  - destruct (IH (rq, Ok root')) as (pre & rq1 & r1 & E & Hpre & Hr & Hp).
    { exists root', more. auto. }
    exists ((rq0, r0) :: pre), rq1, r1. split; [simpl; rewrite <- E; reflexivity|].
    split; [constructor; assumption|]. auto.
Qed.

(** A sample shorter than the target is everything the API had. *)
Lemma pages_short w root totals page calls res w' :
  pages w root totals page calls res w' ->
  forall rq0 out,
    res = Ok out ->
    (Z.of_nat (List.length out) < sold_limit)%Z ->
    out = (totals ++ fetched calls)%list /\
    exists pre rq last_root total_pages,
      (rq0, Ok root) :: calls = (pre ++ [(rq, Ok last_root)])%list /\
      total_pages_of int_of_str last_root = Ok total_pages /\
      (total_pages <= page + Z.of_nat (List.length calls))%Z.
Proof.
  assert (Hslice : forall (l : list float),
             (Z.of_nat (List.length (py_slice_to l sold_limit)) < sold_limit)%Z ->
             py_slice_to l sold_limit = l
             /\ (Z.of_nat (List.length l) < sold_limit)%Z).
  { intros l. unfold py_slice_to.
    destruct (Z.leb_spec 0 sold_limit) as [Hpos|Hneg]; [|lia].
    rewrite length_firstn. intros Hlen.
    assert (Hl : (List.length l <= Z.to_nat sold_limit)%nat) by lia.
    split; [apply firstn_all2; exact Hl | lia]. }
  induction 1 as [w root totals page Hge | w root totals page e Hlt Etp | w root totals page tp Hlt Etp Hout | w root totals page tp e w' Hlt Etp Hin rq Ecall | w root totals page tp root' e w' Hlt Etp Hin rq Ecall Ep | w root totals page tp root' more w' calls res w'' Hlt Etp Hin rq Ecall Ep Hrun IH];
    intros rq0 out Hres Hlen; try discriminate Hres.
  - injection Hres as <-. apply Hslice in Hlen. lia.
  - injection Hres as <-. apply Hslice in Hlen. destruct Hlen as [-> _].
    simpl. split; [symmetry; apply app_nil_r|].
    exists [], rq0, root, tp. split; [reflexivity|].
    split; [assumption | lia].
  - destruct (IH rq out Hres Hlen)
      as (Hout & pre & rq1 & last_root & tp1 & E & Htp & Hle).
    split.
    + simpl. rewrite Ep, app_assoc. exact Hout.
    + exists ((rq0, Ok root) :: pre), rq1, last_root, tp1.
      split; [simpl; rewrite <- E; reflexivity|].
      split; [exact Htp|]. simpl List.length. lia.
Qed.

(** The number of calls a run makes, when no reply reports more than
    [bound] pages. *)
Lemma pages_count (bound : Z)
  (Hbound : forall w rq root w',
      ebay_finding_call http_get w rq = (Ok root, w') ->
      forall tp, total_pages_of int_of_str root = Ok tp -> (tp <= bound)%Z)
  w root totals page calls res w' :
  pages w root totals page calls res w' ->
  (forall tp, total_pages_of int_of_str root = Ok tp -> (tp <= bound)%Z) ->
  (Z.of_nat (List.length calls) <= Z.max 0 (bound - page))%Z.
Proof.
  induction 1 as [w root totals page Hge | w root totals page e Hlt Etp | w root totals page tp Hlt Etp Hout | w root totals page tp e w' Hlt Etp Hin rq Ecall | w root totals page tp root' e w' Hlt Etp Hin rq Ecall Ep | w root totals page tp root' more w' calls res w'' Hlt Etp Hin rq Ecall Ep Hrun IH];
    intros Hroot; simpl List.length; try lia.
  - specialize (Hroot _ Etp). lia.
  - specialize (Hroot _ Etp). lia.
  - specialize (Hroot _ Etp).
    assert (Hroot' : forall tp, total_pages_of int_of_str root' = Ok tp ->
                                (tp <= bound)%Z)
      by exact (Hbound _ _ _ _ Ecall).
    specialize (IH Hroot'). lia.
Qed.

(** What a run returns is a slice of the totals it read. *)
Lemma pages_slice w root totals page calls res w' :
  pages w root totals page calls res w' ->
  forall out, res = Ok out ->
    out = py_slice_to (totals ++ fetched calls) sold_limit.
Proof.
  induction 1 as [w root totals page Hge | w root totals page e Hlt Etp | w root totals page tp Hlt Etp Hout | w root totals page tp e w' Hlt Etp Hin rq Ecall | w root totals page tp root' e w' Hlt Etp Hin rq Ecall Ep | w root totals page tp root' more w' calls res w'' Hlt Etp Hin rq Ecall Ep Hrun IH];
    intros out Hres; try discriminate Hres.
  - injection Hres as <-. simpl. rewrite app_nil_r. reflexivity.
  - injection Hres as <-. simpl. rewrite app_nil_r. reflexivity.
  - simpl. rewrite Ep, app_assoc. exact (IH out Hres).
Qed.
End Loop.

(** What [find_sold_totals] does before the loop, and the loop. *)
Lemma find_sold_totals_run (fuel : nat) (w : World)
  (app_id keyword : string) (sold_limit : Z) (global_id : string) (days : Z)
  (res : result (list float)) (w' : World) (calls : list Call) :
  find_sold_totals float_of_str int_of_str http_get end_time_from sleep
    fuel w app_id keyword sold_limit global_id days = Some (res, w', calls) ->
  let end_from := end_time_from w days in
  let rq := sold_request app_id keyword (Z.min sold_limit 100) None
              global_id end_from in
  (exists e, calls = [(rq, Raise e)] /\ res = Raise e /\
             ebay_finding_call http_get w rq = (Raise e, w')) \/
  (exists root e, calls = [(rq, Ok root)] /\ res = Raise e /\
                  ebay_finding_call http_get w rq = (Ok root, w') /\
                  parse root = Raise e) \/
  (exists root totals w1 more,
      calls = (rq, Ok root) :: more /\
      ebay_finding_call http_get w rq = (Ok root, w1) /\
      parse root = Ok totals /\
      pages app_id keyword sold_limit global_id end_from
        w1 root totals 1 more res w').
Proof.
  intros Hrun end_from rq. unfold find_sold_totals in Hrun.
  fold end_from in Hrun. fold rq in Hrun.
  destruct (ebay_finding_call http_get w rq) as [[root|e] w1] eqn:Ecall.
  - destruct (parse root) as [totals|e] eqn:Ep.
    + apply sold_loop_pages in Hrun. destruct Hrun as (more & -> & Hrun).
      right. right. exists root, totals, w1, more. auto.
    + injection Hrun as <- <- <-. right. left. exists root, e. auto.
  - injection Hrun as <- <- <-. left. exists e. auto.
Qed.

(** The size of the sample returned, for a target that is not
    negative. *)
Lemma find_sold_totals_length (fuel : nat) (w : World)
  (app_id keyword : string) (sold_limit : Z) (global_id : string) (days : Z)
  (totals : list float) (w' : World) (calls : list Call) :
  (0 <= sold_limit)%Z ->
  find_sold_totals float_of_str int_of_str http_get end_time_from sleep
    fuel w app_id keyword sold_limit global_id days
  = Some (Ok totals, w', calls) ->
  (Z.of_nat (List.length totals) <= sold_limit)%Z.
Proof.
  intros Hlim Erun.
  destruct (find_sold_totals_run _ _ _ _ _ _ _ _ _ _ Erun)
    as [(e & _ & H & _)|[(root & e & _ & H & _)
                        |(root & totals0 & w1 & more & -> & Ecall & Ep & Hrun)]];
    try discriminate H.
  rewrite (pages_slice _ _ _ _ _ _ _ _ _ _ _ _ Hrun totals eq_refl).
  apply py_slice_to_length. exact Hlim.
Qed.

(** X7. The fetch comes to an end after few calls: when no reply
    reports more than [bound] pages, [find_sold_totals] returns or raises
    after at most [bound] calls, and after one call when [bound] is below
    one; [bound - 1] page fetches are enough fuel. *)
Theorem find_sold_totals_call_count (bound : Z)
  (Hbound : forall w rq root w',
      ebay_finding_call http_get w rq = (Ok root, w') ->
      forall tp, total_pages_of int_of_str root = Ok tp -> (tp <= bound)%Z)
  (fuel : nat) (w : World) (app_id keyword : string) (sold_limit : Z)
  (global_id : string) (days : Z) :
  (bound - 1 <= Z.of_nat fuel)%Z ->
  exists res w' calls,
    find_sold_totals float_of_str int_of_str http_get end_time_from sleep
      fuel w app_id keyword sold_limit global_id days = Some (res, w', calls) /\
    (Z.of_nat (List.length calls) <= Z.max 1 bound)%Z.
Proof.
  intros Hfuel.
  pose proof (find_sold_totals_returns float_of_str int_of_str World
                http_get end_time_from sleep bound Hbound fuel w app_id
                keyword sold_limit global_id days Hfuel) as Hret.
  destruct (find_sold_totals _ _ _ _ _ _ _ _ _ _ _ _)
    as [[[res w'] calls]|] eqn:Erun; [|congruence].
  exists res, w', calls. split; [reflexivity|].
  destruct (find_sold_totals_run _ _ _ _ _ _ _ _ _ _ Erun)
    as [(e & -> & _)|[(root & e & -> & _)
                     |(root & totals & w1 & more & -> & Ecall & Ep & Hrun)]];
    simpl List.length; try lia.
  pose proof (pages_count _ _ _ _ _ bound Hbound _ _ _ _ _ _ _ Hrun
                (Hbound _ _ _ _ Ecall)) as Hcount.
  lia.
Qed.

(** X8. The requests of one fetch: the first asks for
    [min(sold_limit, 100)] entries and names no page; those after it ask
    for the pages 2, 3, ... in turn, 100 entries each, and all of them
    carry the same keyword, application, site and end-time filter, the
    time being read once. *)
Theorem find_sold_totals_requests (fuel : nat) (w : World)
  (app_id keyword : string) (sold_limit : Z) (global_id : string) (days : Z)
  (res : result (list float)) (w' : World) (calls : list Call) :
  find_sold_totals float_of_str int_of_str http_get end_time_from sleep
    fuel w app_id keyword sold_limit global_id days = Some (res, w', calls) ->
  map fst calls =
  sold_request app_id keyword (Z.min sold_limit 100) None global_id
    (end_time_from w days)
  :: page_requests app_id keyword global_id (end_time_from w days) 2
       (List.length calls - 1).
Proof.
  intros Erun.
  destruct (find_sold_totals_run _ _ _ _ _ _ _ _ _ _ Erun)
    as [(e & -> & _)|[(root & e & -> & _)
                     |(root & totals & w1 & more & -> & Ecall & Ep & Hrun)]];
    try reflexivity.
  simpl. rewrite Nat.sub_0_r. f_equal.
  exact (pages_requests _ _ _ _ _ _ _ _ _ _ _ _ Hrun).
Qed.

(** X9. A further page is asked for only while the sample is short:
    before each call after the first one, the sold totals of the replies
    received so far are fewer than [sold_limit]. *)
Theorem find_sold_totals_pages_on_demand (fuel : nat) (w : World)
  (app_id keyword : string) (sold_limit : Z) (global_id : string) (days : Z)
  (res : result (list float)) (w' : World) (calls : list Call) (k : nat) :
  find_sold_totals float_of_str int_of_str http_get end_time_from sleep
    fuel w app_id keyword sold_limit global_id days = Some (res, w', calls) ->
  (1 <= k < List.length calls)%nat ->
  (Z.of_nat (List.length (fetched (firstn k calls))) < sold_limit)%Z.
Proof.
  intros Erun Hk.
  destruct (find_sold_totals_run _ _ _ _ _ _ _ _ _ _ Erun)
    as [(e & -> & _)|[(root & e & -> & _)
                     |(root & totals & w1 & more & -> & Ecall & Ep & Hrun)]];
    simpl in Hk; try lia.
  destruct k as [|k]; [lia|]. simpl. rewrite Ep.
  apply (pages_below _ _ _ _ _ _ _ _ _ _ _ _ Hrun). lia.
Qed.

(** X10. A sample shorter than the target is all there was: when
    [find_sold_totals] returns fewer than [sold_limit] totals, it returns
    every sold total of every reply, and the last reply reported no page
    beyond those fetched. *)
Theorem short_sample_is_exhaustive (fuel : nat) (w : World)
  (app_id keyword : string) (sold_limit : Z) (global_id : string) (days : Z)
  (w' : World) (calls : list Call) (totals : list float) :
  find_sold_totals float_of_str int_of_str http_get end_time_from sleep
    fuel w app_id keyword sold_limit global_id days
  = Some (Ok totals, w', calls) ->
  (Z.of_nat (List.length totals) < sold_limit)%Z ->
  totals = fetched calls /\
  exists pre rq root total_pages,
    calls = (pre ++ [(rq, Ok root)])%list /\
    total_pages_of int_of_str root = Ok total_pages /\
    (total_pages <= Z.of_nat (List.length calls))%Z.
Proof.
  intros Erun Hlen.
  destruct (find_sold_totals_run _ _ _ _ _ _ _ _ _ _ Erun)
    as [(e & _ & H & _)|[(root & e & _ & H & _)
                        |(root & totals0 & w1 & more & -> & Ecall & Ep & Hrun)]];
    try discriminate H.
  destruct (pages_short _ _ _ _ _ _ _ _ _ _ _ _ Hrun
              (sold_request app_id keyword (Z.min sold_limit 100) None
                 global_id (end_time_from w days)) totals eq_refl Hlen)
    as (Hout & pre & rq & last_root & tp & E & Htp & Hle).
  split.
  - simpl. rewrite Ep. exact Hout.
  - exists pre, rq, last_root, tp. split; [exact E|].
    split; [exact Htp|]. simpl List.length. lia.
Qed.

(** X11. A page that fails ends the fetch: every call but the last
    one came back and was parsed, and when the last call raises, or its
    reply cannot be parsed, [find_sold_totals] raises that exception and
    returns none of the totals read before. *)
Theorem failed_page_aborts (fuel : nat) (w : World)
  (app_id keyword : string) (sold_limit : Z) (global_id : string) (days : Z)
  (res : result (list float)) (w' : World) (calls : list Call) :
  find_sold_totals float_of_str int_of_str http_get end_time_from sleep
    fuel w app_id keyword sold_limit global_id days = Some (res, w', calls) ->
  exists pre rq r,
    calls = (pre ++ [(rq, r)])%list /\
    Forall page_ok pre /\
    (forall e, r = Raise e -> res = Raise e) /\
    (forall root e, r = Ok root -> parse root = Raise e -> res = Raise e).
Proof.
  intros Erun.
  destruct (find_sold_totals_run _ _ _ _ _ _ _ _ _ _ Erun)
    as [(e & -> & -> & _)|[(root & e & -> & -> & _ & Ep)
                          |(root & totals & w1 & more & -> & Ecall & Ep & Hrun)]].
  - eexists [], _, _. split; [reflexivity|]. split; [constructor|].
    split; [intros e1 E; injection E as <-; reflexivity | discriminate].
  - eexists [], _, _. split; [reflexivity|]. split; [constructor|].
    split; [discriminate|]. intros root1 e1 E. injection E as <-. congruence.
  - apply (pages_abort _ _ _ _ _ _ _ _ _ _ _ _ Hrun).
    exists root, totals. auto.
Qed.

(** X12. A reply without [paginationOutput] is taken to be the only
    page: whatever [sold_limit] is, [find_sold_totals] makes no further
    call and returns the totals of that reply, cut to [sold_limit]. *)
Theorem missing_pagination_is_one_page (fuel : nat) (w : World)
  (app_id keyword : string) (sold_limit : Z) (global_id : string) (days : Z)
  (d : list (string * pyval)) (w1 : World) (totals : list float) :
  let rq := sold_request app_id keyword (Z.min sold_limit 100) None
              global_id (end_time_from w days) in
  ebay_finding_call http_get w rq = (Ok (PDict d), w1) ->
  lookup "paginationOutput" d = None ->
  int_of_str "1" = Some 1%Z ->
  parse (PDict d) = Ok totals ->
  find_sold_totals float_of_str int_of_str http_get end_time_from sleep
    fuel w app_id keyword sold_limit global_id days
  = Some (Ok (py_slice_to totals sold_limit), w1, [(rq, Ok (PDict d))]).
Proof.
  intros rq Ecall Hno Hint Ep. unfold find_sold_totals. fold rq.
  rewrite Ecall, Ep.
  assert (Htp : total_pages_of int_of_str (PDict d) = Ok 1%Z).
  { unfold total_pages_of, py_get. rewrite Hno. simpl. rewrite Hint.
    reflexivity. }
  destruct fuel; simpl; rewrite Htp;
    destruct (Z.of_nat (List.length totals) <? sold_limit)%Z; reflexivity.
Qed.
End PaginationFacts.

(** The sample service never reports more than two pages. *)
Lemma sample_total_pages (w : World) (rq : Request) (root : pyval)
  (w' : World) :
  ebay_finding_call http_get w rq = (Ok root, w') ->
  forall tp, total_pages_of sample_int_of_str root = Ok tp -> (tp <= 2)%Z.
Proof.
  unfold ebay_finding_call, http_get.
  destruct (String.eqb (req_keywords rq) "broken"); [discriminate|].
  destruct (String.eqb (req_keywords rq) "denied").
  - unfold failure_reply. simpl. rewrite String.eqb_refl. simpl.
    discriminate.
  - destruct (String.eqb_spec (req_operation rq) "findItemsByKeywords")
      as [E|NE].
    + rewrite E. simpl. intros H. injection H as <- <-.
      intros tp H. vm_compute in H. injection H as <-. lia.
    + unfold completed_reply. simpl.
      destruct (String.eqb _ "findCompletedItemsResponse"); simpl.
      * intros H. injection H as <- <-.
        intros tp H. vm_compute in H. injection H as <-. lia.
      * discriminate.
Qed.

Lemma find_sold_totals_call_count_witness :
  (2 - 1 <= Z.of_nat 1)%Z /\
  exists res w' calls,
    find_sold_totals sample_float_of_str sample_int_of_str http_get
      end_time_from sleep 1 O "APP" "game boy" 3 "EBAY-GB" 90
    = Some (res, w', calls) /\
    (Z.of_nat (List.length calls) <= Z.max 1 2)%Z.
Proof.
  split; [lia|].
  apply (find_sold_totals_call_count sample_float_of_str sample_int_of_str
           World http_get end_time_from sleep 2 sample_total_pages).
  lia.
Defined.

Lemma find_sold_totals_requests_witness :
  exists res w' calls,
    fetch 3 = Some (res, w', calls) /\
    List.length calls = 2%nat /\
    map fst calls =
    sold_request "APP" "game boy" (Z.min 3 100) None "EBAY-GB"
      (end_time_from O 90)
    :: page_requests "APP" "game boy" "EBAY-GB" (end_time_from O 90) 2
         (List.length calls - 1).
Proof.
  destruct (fetch 3) as [[[res w'] calls]|] eqn:E;
    [|vm_compute in E; discriminate E].
  exists res, w', calls. split; [reflexivity|].
  split; [vm_compute in E; injection E as <- <- <-; reflexivity|].
  exact (find_sold_totals_requests sample_float_of_str sample_int_of_str
           World http_get end_time_from sleep 5 O "APP" "game boy" 3
           "EBAY-GB" 90 res w' calls E).
Defined.

Lemma find_sold_totals_pages_on_demand_witness :
  exists res w' calls,
    fetch 3 = Some (res, w', calls) /\
    (1 <= 1 < List.length calls)%nat /\
    (Z.of_nat (List.length
                 (FetcherFacts.fetched sample_float_of_str (firstn 1 calls)))
     < 3)%Z.
Proof.
  destruct (fetch 3) as [[[res w'] calls]|] eqn:E;
    [|vm_compute in E; discriminate E].
  exists res, w', calls. split; [reflexivity|].
  assert (Hk : (1 <= 1 < List.length calls)%nat)
    by (vm_compute in E; injection E as <- <- <-; simpl; lia).
  split; [exact Hk|].
  exact (find_sold_totals_pages_on_demand sample_float_of_str
           sample_int_of_str World http_get end_time_from sleep 5 O "APP"
           "game boy" 3 "EBAY-GB" 90 res w' calls 1 E Hk).
Defined.

Lemma short_sample_is_exhaustive_witness :
  exists totals w' calls,
    fetch 5 = Some (Ok totals, w', calls) /\
    (Z.of_nat (List.length totals) < 5)%Z /\
    totals = FetcherFacts.fetched sample_float_of_str calls /\
    exists pre rq root total_pages,
      calls = (pre ++ [(rq, Ok root)])%list /\
      total_pages_of sample_int_of_str root = Ok total_pages /\
      (total_pages <= Z.of_nat (List.length calls))%Z.
Proof.
  destruct (fetch 5) as [[[[totals|e] w'] calls]|] eqn:E;
    try (vm_compute in E; discriminate E).
  exists totals, w', calls. split; [reflexivity|].
  assert (Hlen : (Z.of_nat (List.length totals) < 5)%Z)
    by (vm_compute in E; injection E as <- <- <-; simpl; lia).
  split; [exact Hlen|].
  exact (short_sample_is_exhaustive sample_float_of_str sample_int_of_str
           World http_get end_time_from sleep 5 O "APP" "game boy" 5
           "EBAY-GB" 90 w' calls totals E Hlen).
Defined.

Lemma failed_page_aborts_witness :
  exists res w' calls,
    find_sold_totals sample_float_of_str sample_int_of_str http_get
      end_time_from sleep 5 O "APP" "broken" 3 "EBAY-GB" 90
    = Some (res, w', calls) /\
    res = Raise HTTPError /\
    exists pre rq r,
      calls = (pre ++ [(rq, r)])%list /\
      Forall (page_ok sample_float_of_str) pre /\
      (forall e, r = Raise e -> res = Raise e) /\
      (forall root e,
          r = Ok root ->
          parse_sold_totals sample_float_of_str root = Raise e ->
          res = Raise e).
Proof.
  destruct (find_sold_totals sample_float_of_str sample_int_of_str http_get
              end_time_from sleep 5 O "APP" "broken" 3 "EBAY-GB" 90)
    as [[[res w'] calls]|] eqn:E; [|vm_compute in E; discriminate E].
  exists res, w', calls. split; [reflexivity|].
  split; [vm_compute in E; injection E as <- <- <-; reflexivity|].
  exact (failed_page_aborts sample_float_of_str sample_int_of_str
           World http_get end_time_from sleep 5 O "APP" "broken" 3
           "EBAY-GB" 90 res w' calls E).
Defined.

(** A service whose replies carry no [paginationOutput]. *)
Definition plain_reply : list (string * pyval) :=
  [("ack", PList [PStr "Success"]);
   ("searchResult",
    PList [PDict [("item", PList [sold_item "80.0"; sold_item "80.0"])]])].

Definition plain_get (w : World) (rq : Request) : result pyval * World :=
  (Ok (PDict [("findCompletedItemsResponse", PList [PDict plain_reply])]),
   S w).

Lemma missing_pagination_is_one_page_witness :
  let rq := sold_request "APP" "game boy" (Z.min 120 100) None "EBAY-GB"
              (end_time_from O 90) in
  ebay_finding_call plain_get O rq = (Ok (PDict plain_reply), 1%nat) /\
  find_sold_totals sample_float_of_str sample_int_of_str plain_get
    end_time_from sleep 0 O "APP" "game boy" 120 "EBAY-GB" 90
  = Some (Ok (py_slice_to [80; 80]%float 120), 1%nat,
          [(rq, Ok (PDict plain_reply))]).
Proof.
  intros rq. split; [reflexivity|].
  exact (missing_pagination_is_one_page sample_float_of_str
           sample_int_of_str World plain_get end_time_from sleep 0 O "APP"
           "game boy" 120 "EBAY-GB" 90 plain_reply 1%nat [80; 80]%float
           eq_refl eq_refl eq_refl eq_refl).
Defined.

End PaginationFacts.

(* ================================================================= *)
(** * The rows of the report *)

Module RowFacts.
Import F64 Py Estimator EstimatorFacts.
Open Scope string_scope.
Open Scope float_scope.

Lemma compute_row_some (kw : string) (a : ActiveListing)
  (sold : list float) (r1 r2 fx so : float) (row : OpportunityRow) :
  compute_row kw a sold r1 r2 fx so = Some row ->
  gtb (active_buy_price_gbp a) 0 = true /\
  row_keyword row = kw /\
  row_active_title row = active_title a /\
  row_active_item_id row = active_item_id a /\
  row_active_url row = active_url a /\
  row_sold_sample_size row = List.length sold /\
  (1 <= List.length sold)%nat.
Proof.
  unfold compute_row.
  destruct (Nat.eqb_spec (List.length sold) 0) as [|Hlen]; [discriminate|].
  destruct (median sold) as [med|]; [|discriminate].
  destruct (_ <? MIN_PROFIT_GBP); [discriminate|].
  unfold margin.
  destruct (gtb (active_buy_price_gbp a) 0).
  - destruct (_ <? MIN_MARGIN); [discriminate|].
    intros H. injection H as <-. simpl. repeat split. lia.
  - change (-1.0 <? MIN_MARGIN) with true. discriminate.
Qed.

(** X13. A row is returned only for a listing whose buy price is a
    positive number (not zero, negative or NaN) and for a sample that is
    not empty; the row carries the keyword, and the title, the identifier
    and the URL of the listing, as they are, and the size of the
    sample. *)
Theorem accepted_row_describes_listing (kw : string) (a : ActiveListing)
  (sold : list float) (r1 r2 fx so : float) (row : OpportunityRow) :
  compute_row kw a sold r1 r2 fx so = Some row ->
  gtb (active_buy_price_gbp a) 0 = true /\
  row_keyword row = kw /\
  row_active_title row = active_title a /\
  row_active_item_id row = active_item_id a /\
  row_active_url row = active_url a /\
  row_sold_sample_size row = List.length sold /\
  (1 <= List.length sold)%nat.
Proof.
  unfold compute_row.
  destruct (Nat.eqb_spec (List.length sold) 0) as [|Hlen]; [discriminate|].
  destruct (median sold) as [med|]; [|discriminate].
  destruct (_ <? MIN_PROFIT_GBP); [discriminate|].
  unfold margin.
  destruct (gtb (active_buy_price_gbp a) 0).
  - destruct (_ <? MIN_MARGIN); [discriminate|].
    intros H. injection H as <-. simpl. repeat split. lia.
  - change (-1.0 <? MIN_MARGIN) with true. discriminate.
Qed.

Lemma accepted_row_describes_listing_witness :
  exists row,
    compute_row "game boy" (listing 20 0) [80; 85; 90] 0.128 0.029 0.30 4.50
    = Some row /\
    gtb (active_buy_price_gbp (listing 20 0)) 0 = true /\
    row_keyword row = "game boy" /\
    row_active_title row = active_title (listing 20 0) /\
    row_active_item_id row = active_item_id (listing 20 0) /\
    row_active_url row = active_url (listing 20 0) /\
    row_sold_sample_size row = List.length [80; 85; 90] /\
    (1 <= List.length [80; 85; 90])%nat.
Proof.
  eexists. split; [vm_compute; reflexivity|].
  apply (accepted_row_describes_listing "game boy" (listing 20 0)
           [80; 85; 90] 0.128 0.029 0.30 4.50).
  vm_compute. reflexivity.
Defined.

End RowFacts.

(* ================================================================= *)
(** * More on the keyword loop *)

Module PipelineFacts.
Import PyVal Estimator EstimatorFacts Parser ParserFacts ParserInvariants
  Fetcher FetcherFacts CallFacts Driver DriverFacts Samples RowFacts
  PaginationFacts.
Open Scope string_scope.

Section PipelineFacts.
Variable float_of_str : string -> option float.
Variable int_of_str : string -> option Z.
Variable World : Type.
Variable http_get : World -> Request -> result pyval * World.
Variable end_time_from : World -> Z -> string.
Variable sleep : World -> World.

Local Abbreviation fetch_keyword' :=
  (fetch_keyword float_of_str int_of_str http_get end_time_from sleep).
Local Abbreviation keyword_step' :=
  (keyword_step float_of_str int_of_str http_get end_time_from sleep).
Local Abbreviation keyword_loop' :=
  (keyword_loop float_of_str int_of_str http_get end_time_from sleep).

Lemma rows_of_rows (P : OpportunityRow -> Prop) (args : Args) (kw : string)
  (sold : list float) :
  (forall a row,
      compute_row kw a sold (ebay_fee_rate args) (payment_fee_rate args)
        (payment_fixed_fee args) (shipping_out args) = Some row -> P row) ->
  forall items, Forall P (rows_of args kw items sold).
Proof.
  intros HP. induction items as [|a items IH]; simpl; [constructor|].
  destruct (compute_row kw a sold _ _ _ _) as [row|] eqn:E; simpl.
  - constructor; [exact (HP a row E) | exact IH].
  - exact IH.
Qed.

(** What one iteration adds to the rows. *)
Lemma keyword_step_block (fuel : nat) (w : World) (args : Args)
  (rows : list OpportunityRow) (kw : string)
  (rows' : list OpportunityRow) (w' : World) :
  keyword_step' fuel w args rows kw = Some (rows', w') ->
  exists block,
    rows' = (rows ++ block)%list /\
    (block = [] \/
     exists items sold,
       fetch_keyword' fuel w args kw = Some (Ok (items, sold), w') /\
       block = rows_of args kw items sold).
Proof.
  unfold keyword_step.
  destruct (fetch_keyword' fuel w args kw) as [[[[items sold]|e] w1]|] eqn:E;
    [| |discriminate]; intros H; injection H as <- <-.
  - exists (rows_of args kw items sold). split; [reflexivity|].
    right. exists items, sold. auto.
  - exists []. split; [symmetry; apply app_nil_r | left; reflexivity].
Qed.

(** The sold sample a keyword is given is one [find_sold_totals]
    returned. *)
Lemma fetch_keyword_sold (fuel : nat) (w : World) (args : Args) (kw : string)
  (items : list ActiveListing) (sold : list float) (w' : World) :
  fetch_keyword' fuel w args kw = Some (Ok (items, sold), w') ->
  exists w1 calls,
    find_sold_totals float_of_str int_of_str http_get end_time_from sleep
      fuel w1 (app_id args) kw (sold_limit args) (global_id args) 90
    = Some (Ok sold, w', calls).
Proof.
  unfold fetch_keyword.
  destruct (find_active _ _ _ _ _ _ _) as [[active|e] w1]; [|discriminate].
  destruct (find_sold_totals _ _ _ _ _ _ _ _ _ _ _ _)
    as [[[[totals|e] w2] calls]|] eqn:E; try discriminate.
  intros H. injection H as <- <- <-. eauto.
Qed.

(** X14. [find_active] sends one request, for the first page of the
    keyword, and returns listings only from a reply that acknowledges
    with [success] or [warning]; every listing returned has a buy price
    that is its price plus its shipping cost, and a stripped title,
    identifier and URL. *)
Theorem find_active_returns (w : World) (app keyword : string)
  (limit : Z) (site : string) (listings : list ActiveListing) (w' : World) :
  find_active float_of_str http_get w app keyword limit site
  = (Ok listings, w') ->
  let rq := active_request app keyword limit site in
  req_page_number rq = None /\
  w' = snd (http_get w rq) /\
  (exists data,
      fst (http_get w rq) = Ok data /\
      acknowledged (req_operation rq) data = true) /\
  Forall well_formed listings.
Proof.
  intros Hrun rq. unfold find_active in Hrun. fold rq in Hrun.
  pose proof (ebay_finding_call_world World http_get w rq) as Hw.
  pose proof (ebay_finding_call_ok World http_get w rq) as Hok.
  destruct (ebay_finding_call http_get w rq) as [[root|e] w1];
    [|discriminate].
  simpl in Hrun, Hw, Hok. injection Hrun as Hparse <-.
  split; [reflexivity|]. split; [exact Hw|]. split.
  - destruct (proj1 (Hok root) eq_refl) as (data & d & Hd & _ & _ & Ha).
    exists data. auto.
  - unfold parse_active_items in Hparse.
    destruct (items_of root) as [items|]; [|discriminate].
    simpl in Hparse.
    exact (collect_Forall _ well_formed
             (parse_active_item_well_formed float_of_str) items listings
             Hparse).
Qed.

(** X15. The loop only appends, keyword by keyword: what it returns
    is the rows it was given followed by one block of rows for each
    keyword, in the order of the keywords, and every row of a block
    carries the keyword of the block. *)
Theorem keyword_loop_appends_blocks (fuel : nat) (args : Args)
  (keywords : list string) :
  forall (w : World) (rows rows' : list OpportunityRow) (w' : World),
    keyword_loop' fuel w args rows keywords = Some (rows', w') ->
    exists blocks,
      rows' = (rows ++ List.concat blocks)%list /\
      Forall2 (fun kw block => Forall (fun r => row_keyword r = kw) block)
        keywords blocks.
Proof.
  induction keywords as [|kw rest IH]; simpl; intros w rows rows' w' H.
  - injection H as <- <-. exists []. split; [symmetry; apply app_nil_r|].
    constructor.
  - destruct (keyword_step' fuel w args rows kw) as [[rows1 w1]|] eqn:Es;
      [|discriminate].
    destruct (keyword_step_block _ _ _ _ _ _ _ Es) as (block & -> & Hb).
    destruct (IH _ _ _ _ H) as (blocks & -> & Hall).
    exists (block :: blocks). split; [simpl; symmetry; apply app_assoc|].
    constructor; [|exact Hall].
    destruct Hb as [->|(items & sold & _ & ->)]; [constructor|].
    apply rows_of_rows. intros a row Hrow.
    exact (proj1 (proj2 (compute_row_some _ _ _ _ _ _ _ _ Hrow))).
Qed.

Lemma keyword_loop_sample_sizes (fuel : nat) (args : Args)
  (keywords : list string) :
  (0 <= sold_limit args)%Z ->
  let sized (r : OpportunityRow) :=
    (1 <= row_sold_sample_size r)%nat /\
    (Z.of_nat (row_sold_sample_size r) <= sold_limit args)%Z in
  forall (w : World) (rows rows' : list OpportunityRow) (w' : World),
    Forall sized rows ->
    keyword_loop' fuel w args rows keywords = Some (rows', w') ->
    Forall sized rows'.
Proof.
  intros Hlim sized.
  induction keywords as [|kw rest IH]; simpl; intros w rows rows' w' Hrows H.
  - injection H as <- <-. exact Hrows.
  - destruct (keyword_step' fuel w args rows kw) as [[rows1 w1]|] eqn:Es;
      [|discriminate].
    refine (IH w1 rows1 rows' w' _ H).
    destruct (keyword_step_block _ _ _ _ _ _ _ Es) as (block & -> & Hb).
    apply Forall_app. split; [exact Hrows|].
    destruct Hb as [->|(items & sold & Ef & ->)]; [constructor|].
    destruct (fetch_keyword_sold _ _ _ _ _ _ _ Ef) as (w0 & calls & Erun).
    pose proof (find_sold_totals_length _ _ _ _ _ _ _ _ _ _ _ _ _ _ _ _
                  Hlim Erun) as Hlen.
    apply rows_of_rows. intros a row Hrow.
    destruct (compute_row_some _ _ _ _ _ _ _ _ Hrow)
      as (_ & _ & _ & _ & _ & Hsize & Hpos).
    unfold sized. rewrite Hsize. split; [exact Hpos | exact Hlen].
Qed.

(** X16. Every row of the report is backed by a sample within the
    target: for a target [sold_limit] that is not negative, the sample
    size of each row the loop returns is at least 1 and at most
    [sold_limit]; with a target of 0 the loop returns no row. *)
Theorem reported_sample_sizes (fuel : nat) (w : World) (args : Args)
  (keywords : list string) (rows : list OpportunityRow) (w' : World) :
  (0 <= sold_limit args)%Z ->
  keyword_loop' fuel w args [] keywords = Some (rows, w') ->
  Forall (fun r => (1 <= row_sold_sample_size r)%nat /\
                   (Z.of_nat (row_sold_sample_size r) <= sold_limit args)%Z)
    rows /\
  (sold_limit args = 0%Z -> rows = []).
Proof.
  intros Hlim Hrun.
  pose proof (keyword_loop_sample_sizes fuel args keywords Hlim w [] rows w'
                (Forall_nil _) Hrun) as Hall.
  split; [exact Hall|].
  intros H0. destruct rows as [|r rows]; [reflexivity|].
  inversion Hall as [|? ? [H1 H2] _]; subst. lia.
Qed.

(** X17. A keyword without active listings, or with an empty sold
    sample, adds no row and raises nothing: the iteration leaves the rows
    as they were. *)
Theorem empty_fetch_adds_no_row (fuel : nat) (w : World) (args : Args)
  (rows : list OpportunityRow) (kw : string)
  (items : list ActiveListing) (sold : list float) (w' : World) :
  fetch_keyword' fuel w args kw = Some (Ok (items, sold), w') ->
  items = [] \/ sold = [] ->
  keyword_step' fuel w args rows kw = Some (rows, w').
Proof.
  intros Ef Hempty. unfold keyword_step. rewrite Ef.
  assert (Hnone : rows_of args kw items sold = []).
  { destruct Hempty as [->| ->]; [reflexivity|]. clear Ef.
    induction items as [|a items IH]; [reflexivity|]. simpl. exact IH. }
  rewrite Hnone, app_nil_r. reflexivity.
Qed.

(** X18. When the call for the active listings fails, at the HTTP
    level or by its acknowledgement, the sold items of the keyword are
    not asked for: the iteration ends after that one request and leaves
    the rows as they were. *)
Theorem failed_active_call_ends_iteration (fuel : nat) (w : World)
  (args : Args) (rows : list OpportunityRow) (kw : string) :
  let rq := active_request (app_id args) kw (active_limit args)
              (global_id args) in
  call_fails World http_get w rq = true ->
  (exists e, fetch_keyword' fuel w args kw
             = Some (Raise e, snd (http_get w rq))) /\
  keyword_step' fuel w args rows kw = Some (rows, snd (http_get w rq)).
Proof.
  intros rq Hfail.
  destruct (fetch_keyword_raises float_of_str int_of_str World http_get
              end_time_from sleep fuel w args kw Hfail) as [e He].
  split; [exists e; exact He|].
  unfold keyword_step. rewrite He. reflexivity.
Qed.
End PipelineFacts.

Lemma find_active_returns_witness :
  let rq := active_request "APP" "game boy" 20 "EBAY-GB" in
  exists listings w',
    find_active sample_float_of_str http_get O "APP" "game boy" 20 "EBAY-GB"
    = (Ok listings, w') /\
    List.length listings = 1%nat /\
    req_page_number rq = None /\
    w' = snd (http_get O rq) /\
    (exists data,
        fst (http_get O rq) = Ok data /\
        acknowledged (req_operation rq) data = true) /\
    Forall well_formed listings.
Proof.
  intros rq. eexists. eexists. split; [reflexivity|].
  split; [reflexivity|].
  apply (find_active_returns sample_float_of_str World http_get O "APP"
           "game boy" 20 "EBAY-GB").
  reflexivity.
Defined.

Lemma keyword_loop_appends_blocks_witness :
  exists rows' w' blocks,
    run ["game boy"; "denied"] = Some (rows', w') /\
    List.length rows' = 1%nat /\
    rows' = ([] ++ List.concat blocks)%list /\
    Forall2 (fun kw block => Forall (fun r => row_keyword r = kw) block)
      ["game boy"; "denied"] blocks.
Proof.
  destruct (run ["game boy"; "denied"]) as [[rows' w']|] eqn:E;
    [|vm_compute in E; discriminate E].
  destruct (keyword_loop_appends_blocks sample_float_of_str sample_int_of_str
              World http_get end_time_from sleep 5 args
              ["game boy"; "denied"] O [] rows' w' E) as (blocks & Hb & Hall).
  exists rows', w', blocks. split; [reflexivity|].
  split; [vm_compute in E; injection E as <- <-; reflexivity|].
  split; [exact Hb | exact Hall].
Defined.

Lemma reported_sample_sizes_witness :
  (0 <= sold_limit args)%Z /\
  exists rows w',
    run ["game boy"] = Some (rows, w') /\
    List.length rows = 1%nat /\
    Forall (fun r => (1 <= row_sold_sample_size r)%nat /\
                     (Z.of_nat (row_sold_sample_size r) <= sold_limit args)%Z)
      rows /\
    (sold_limit args = 0%Z -> rows = []).
Proof.
  assert (Hlim : (0 <= sold_limit args)%Z) by (simpl; lia).
  split; [exact Hlim|].
  destruct (run ["game boy"]) as [[rows w']|] eqn:E;
    [|vm_compute in E; discriminate E].
  exists rows, w'. split; [reflexivity|].
  split; [vm_compute in E; injection E as <- <-; reflexivity|].
  exact (reported_sample_sizes sample_float_of_str sample_int_of_str
           World http_get end_time_from sleep 5 O args ["game boy"] rows w'
           Hlim E).
Defined.

(** A service without any active listing. *)
Definition idle_get (w : World) (rq : Request) : result pyval * World :=
  (if String.eqb (req_operation rq) "findItemsByKeywords"
   then Ok (active_reply [])
   else Ok (completed_reply [sold_item "80.0"] "1"),
   S w).

Lemma empty_fetch_adds_no_row_witness :
  fetch_keyword sample_float_of_str sample_int_of_str idle_get
    end_time_from sleep 0 O args "game boy"
  = Some (Ok ([], [80%float]), 2%nat) /\
  keyword_step sample_float_of_str sample_int_of_str idle_get
    end_time_from sleep 0 O args [] "game boy" = Some ([], 2%nat).
Proof.
  split; [reflexivity|].
  apply (empty_fetch_adds_no_row sample_float_of_str sample_int_of_str
           World idle_get end_time_from sleep 0 O args [] "game boy"
           [] [80%float] 2%nat); [reflexivity | left; reflexivity].
Defined.

Lemma failed_active_call_ends_iteration_witness :
  let rq := active_request (app_id args) "broken" (active_limit args)
              (global_id args) in
  call_fails World http_get O rq = true /\
  (exists e, fetch_keyword sample_float_of_str sample_int_of_str http_get
               end_time_from sleep 5 O args "broken"
             = Some (Raise e, snd (http_get O rq))) /\
  keyword_step sample_float_of_str sample_int_of_str http_get
    end_time_from sleep 5 O args [] "broken"
  = Some ([], snd (http_get O rq)).
Proof.
  intros rq. split; [reflexivity|].
  apply (failed_active_call_ends_iteration sample_float_of_str
           sample_int_of_str World http_get end_time_from sleep 5 O args []
           "broken").
  reflexivity.
Defined.

End PipelineFacts.

(* ================================================================= *)
(** * The keywords of the command line *)

Module KeywordFacts.
Import PyVal StrFacts ParserInvariants Main.
Open Scope string_scope.

(** ** [split] *)

Lemma split_comma_cons (s : string) :
  exists piece pieces, split_comma s = piece :: pieces.
Proof.
  destruct s as [|c s]; simpl; [eauto|].
  destruct (Ascii.eqb c ","); [eauto|].
  destruct (split_comma s); eauto.
Qed.

(** Joining the pieces with commas gives the string back. *)
Lemma concat_split_comma (s : string) :
  String.concat "," (split_comma s) = s.
Proof.
  induction s as [|c s IH]; [reflexivity|]. simpl.
  destruct (split_comma_cons s) as (piece & pieces & E).
  rewrite E in IH |- *.
  destruct (Ascii.eqb_spec c ",") as [->|NE].
  - simpl in IH |- *. rewrite IH. reflexivity.
  - simpl in IH |- *. destruct pieces; simpl; rewrite <- IH; reflexivity.
Qed.

Lemma split_comma_no_comma (s : string) :
  Forall (fun piece => mem_char "," piece = false) (split_comma s).
Proof.
  induction s as [|c s IH]; simpl; [repeat constructor|].
  destruct (Ascii.eqb c ",") eqn:E; [constructor; [reflexivity | exact IH]|].
  destruct (split_comma s) as [|piece pieces]; [repeat constructor|].
  - simpl. rewrite E. reflexivity.
  - inversion IH as [|? ? Hp Hps]; subst. constructor; [|exact Hps].
    simpl. rewrite E. exact Hp.
Qed.

Lemma split_comma_app (k t : string) :
  mem_char "," k = false ->
  split_comma (k ++ String "," t) = k :: split_comma t.
Proof.
  induction k as [|c k IH]; simpl; intros H; [reflexivity|].
  apply orb_false_iff in H. destruct H as [Hc Hk].
  rewrite Hc, (IH Hk). reflexivity.
Qed.

Lemma split_comma_plain (k : string) :
  mem_char "," k = false -> split_comma k = [k].
Proof.
  induction k as [|c k IH]; simpl; intros H; [reflexivity|].
  apply orb_false_iff in H. destruct H as [Hc Hk].
  rewrite Hc, (IH Hk). reflexivity.
Qed.

Lemma split_comma_concat (k : string) (ks : list string) :
  Forall (fun k => mem_char "," k = false) (k :: ks) ->
  split_comma (String.concat "," (k :: ks)) = k :: ks.
Proof.
  revert k. induction ks as [|k' ks IH]; intros k H.
  - inversion H; subst. simpl. apply split_comma_plain. assumption.
  - inversion H as [|? ? Hk Hks]; subst.
    change (String.concat "," (k :: k' :: ks))
      with (k ++ String "," (String.concat "," (k' :: ks))).
    rewrite (split_comma_app _ _ Hk), (IH k' Hks). reflexivity.
Qed.

(** ** [strip] *)

Lemma strip_no_comma (s : string) :
  mem_char "," s = false -> mem_char "," (strip s) = false.
Proof.
  intros H. destruct (mem_char "," (strip s)) eqn:E; [|reflexivity].
  apply strip_mem in E. congruence.
Qed.

(** ** [keywords_of] *)

(** X19. The keywords of a run are the pieces between the commas of
    the option, stripped, the blank ones left out: none is empty, none
    holds a comma, and none starts or ends with white space. *)
Theorem keywords_are_clean (s : string) :
  Forall (fun k => k <> "" /\ mem_char "," k = false /\ trimmed k)
    (keywords_of s).
Proof.
  unfold keywords_of. apply Forall_forall. intros k Hin.
  apply in_map_iff in Hin. destruct Hin as (piece & <- & Hin).
  apply filter_In in Hin. destruct Hin as [Hin Hkeep].
  split.
  - intros E. rewrite E in Hkeep. discriminate Hkeep.
  - split; [|apply strip_trimmed].
    apply strip_no_comma.
    pose proof (split_comma_no_comma s) as Hall.
    rewrite Forall_forall in Hall. exact (Hall piece Hin).
Qed.

(** A keyword that goes through [keywords_of] unchanged: not empty,
    without comma, its first and its last character being ASCII
    characters other than white space. *)
Definition plain (k : string) : Prop :=
  k <> "" /\
  mem_char "," k = false /\
  (forall c, first_char k = Some c -> edge c = true) /\
  (forall c, last_char k = Some c -> edge c = true).

Lemma plain_trimmed (k : string) : plain k -> trimmed k.
Proof.
  intros (_ & _ & Hf & Hl). exact (edges_trimmed k Hf Hl).
Qed.

Lemma keep_plain (ks : list string) :
  Forall plain ks ->
  map strip (filter (fun k => negb (String.eqb (strip k) "")) ks) = ks.
Proof.
  induction 1 as [|k ks Hk Hks IH]; simpl; [reflexivity|].
  pose proof (strip_fixed k (plain_trimmed k Hk)) as Es. rewrite Es.
  destruct Hk as (Hne & _).
  destruct (String.eqb_spec k "") as [E|_]; [contradiction|].
  simpl. rewrite Es, IH. reflexivity.
Qed.

(** X20. Keywords written one after the other with commas between
    them are read back as they are: for keywords that are not empty, hold
    no comma and start and end with a character that is not white space,
    [keywords_of] of their join is the list itself. *)
Theorem keywords_of_join (ks : list string) :
  Forall plain ks ->
  keywords_of (String.concat "," ks) = ks.
Proof.
  intros Hall. unfold keywords_of. destruct ks as [|k ks]; [reflexivity|].
  rewrite split_comma_concat.
  - apply keep_plain. exact Hall.
  - apply Forall_forall. intros k' Hin. rewrite Forall_forall in Hall.
    exact (proj1 (proj2 (Hall k' Hin))).
Qed.

(** A piece of the option that holds white space only. *)
Definition blank (piece : string) : Prop :=
  Forall (fun ch => is_white ch = true) (characters piece).

Lemma strip_empty_blank (piece : string) :
  String.eqb (strip piece) "" = true <-> blank piece.
Proof.
  rewrite strip_blank, forallb_forall. unfold blank.
  rewrite Forall_forall. tauto.
Qed.

(** An option gives no keyword exactly when every piece between its
    commas is white space. *)
Lemma keywords_of_blank (s : string) :
  keywords_of s = [] <-> Forall blank (split_comma s).
Proof.
  unfold keywords_of.
  induction (split_comma s) as [|piece pieces IH]; simpl.
  - split; [constructor | reflexivity].
  - pose proof (strip_empty_blank piece) as Hb.
    destruct (String.eqb (strip piece) ""); simpl.
    + rewrite IH. split.
      * intros H. constructor; [apply Hb; reflexivity | exact H].
      * intros H. inversion H; assumption.
    + split; [discriminate|]. intros H. inversion H as [|? ? Hp _]; subst.
      apply Hb in Hp. discriminate Hp.
Qed.

Lemma keywords_of_join_witness :
  Forall plain ["lego star wars"; "sony walkman"; "game boy"] /\
  keywords_of
    (String.concat "," ["lego star wars"; "sony walkman"; "game boy"])
  = ["lego star wars"; "sony walkman"; "game boy"].
Proof.
  assert (H : Forall plain ["lego star wars"; "sony walkman"; "game boy"]).
  { repeat constructor; try discriminate;
      intros c E; injection E as <-; reflexivity. }
  split; [exact H|].
  exact (keywords_of_join _ H).
Defined.

End KeywordFacts.

(* ================================================================= *)
(** * The run as a whole *)

Module MainFacts.
Import PyVal Estimator Parser ParserFacts Fetcher FetcherFacts CallFacts
  Driver DriverFacts Samples RowFacts PaginationFacts PipelineFacts Messages
  Main KeywordFacts.
Open Scope string_scope.

Section MainFacts.
Variable float_of_str : string -> option float.
Variable int_of_str : string -> option Z.
Variable World : Type.
Variable http_get : World -> Request -> result pyval * World.
Variable end_time_from : World -> Z -> string.
Variable sleep : World -> World.
Variable py_str : pyval -> string.

Local Abbreviation main_loop' :=
  (main_loop float_of_str int_of_str http_get end_time_from sleep).
Local Abbreviation main' :=
  (main float_of_str int_of_str http_get end_time_from sleep).
Local Abbreviation keyword_loop' :=
  (keyword_loop float_of_str int_of_str http_get end_time_from sleep).

(** The rows and the world of the loop of [main] are those of
    [keyword_loop]. *)
Lemma main_loop_rows (fuel : nat) (args : Args) (keywords : list string) :
  forall (w : World) (rows : list OpportunityRow) (log : list Message),
    keyword_loop' fuel w args rows keywords =
    match main_loop' fuel w args rows log keywords with
    | Some (rows', _, w') => Some (rows', w')
    | None => None
    end.
Proof.
  induction keywords as [|kw rest IH]; simpl; intros w rows log;
    [reflexivity|].
  unfold keyword_step.
  destruct (fetch_keyword _ _ _ _ _ _ _ _ _) as [[[[items sold]|e] w1]|];
    [apply IH | apply IH | reflexivity].
Qed.

(** X21. [main] returns the status 2 exactly when the application
    identifier is empty or the keyword option gives no keyword, which is
    when every piece between the commas of the option is white space
    only; it has then sent no request and written no report. In every
    other run that comes to an end it returns 0 and writes a report, whose
    rows are those of the keyword loop. *)
Theorem main_exit_status (fuel : nat) (w : World) (keywords : string)
  (args : Args) (run : Run World) :
  main' fuel w keywords args = Some run ->
  (exit_status run = 2%Z <->
   app_id args = "" \/ keywords_of keywords = []) /\
  (keywords_of keywords = [] <-> Forall blank (split_comma keywords)) /\
  (exit_status run = 2%Z -> report run = None /\ world_after run = w) /\
  (exit_status run <> 2%Z ->
   exit_status run = 0%Z /\
   exists rows,
     report run = Some rows /\
     keyword_loop' fuel w args [] (keywords_of keywords)
     = Some (rows, world_after run)).
Proof.
  unfold main.
  pose proof (keywords_of_blank keywords) as Hblank.
  destruct (String.eqb_spec (app_id args) "") as [Eapp|Napp].
  - intros H. injection H as <-. simpl.
    split; [split; auto|]. split; [exact Hblank|]. split; [auto|].
    intros H. contradiction.
  - destruct (keywords_of keywords) as [|kw kws] eqn:Ek.
    + intros H. injection H as <-. simpl.
      split; [split; auto|]. split; [exact Hblank|]. split; [auto|].
      intros H. contradiction.
    + rewrite (main_loop_rows fuel args (kw :: kws) w [] []).
      destruct (main_loop' fuel w args [] [] (kw :: kws))
        as [[[rows log] w']|]; [|discriminate].
      intros H. injection H as <-. simpl.
      split.
      * split; [discriminate|]. intros [H|H]; [contradiction | discriminate].
      * split; [exact Hblank|].
        split; [discriminate|]. intros _. split; [reflexivity|].
        exists rows. auto.
Qed.

Lemma main_loop_outage (Hdown : forall w rq, call_fails World http_get w rq = true)
  (fuel : nat) (args : Args) (keywords : list string) :
  forall (w : World) (rows : list OpportunityRow) (log : list Message),
  exists msgs w',
    main_loop' fuel w args rows log keywords
    = Some (rows, (log ++ msgs)%list, w') /\
    Forall2 (fun kw m => m = HttpErrorFor kw \/ m = ErrorFor kw)
      keywords msgs.
Proof.
  induction keywords as [|kw rest IH]; simpl; intros w rows log.
  - exists [], w. rewrite app_nil_r. split; [reflexivity | constructor].
  - destruct (fetch_keyword_raises float_of_str int_of_str World http_get
                end_time_from sleep fuel w args kw (Hdown _ _)) as [e He].
    rewrite He.
    destruct (IH (snd (http_get w
                         (active_request (app_id args) kw (active_limit args)
                            (global_id args))))
                rows (log ++ [caught kw e])%list) as (msgs & w' & Hrun & Hall).
    exists (caught kw e :: msgs), w'. split.
    + rewrite Hrun, <- app_assoc. reflexivity.
    + constructor; [|exact Hall].
      destruct e; simpl; auto.
Qed.

(** X22. When every request fails, a run with an application
    identifier and keywords still ends with the status 0 and a report
    without rows, for any fuel, and prints one error line for each
    keyword, in the order of the keywords. *)
Theorem main_survives_outage (fuel : nat) (w : World) (keywords : string)
  (args : Args) :
  (forall w rq, call_fails World http_get w rq = true) ->
  app_id args <> "" ->
  keywords_of keywords <> [] ->
  exists run,
    main' fuel w keywords args = Some run /\
    exit_status run = 0%Z /\
    report run = Some [] /\
    Forall2 (fun kw m => m = HttpErrorFor kw \/ m = ErrorFor kw)
      (keywords_of keywords) (stderr run).
Proof.
  intros Hdown Happ Hkw. unfold main.
  destruct (String.eqb_spec (app_id args) "") as [E|_]; [contradiction|].
  destruct (keywords_of keywords) as [|kw kws] eqn:Ek; [contradiction|].
  destruct (main_loop_outage Hdown fuel args (kw :: kws) w [] [])
    as (msgs & w' & Hrun & Hall).
  rewrite Hrun. eexists. split; [reflexivity|]. simpl. auto.
Qed.

(** What a keyword leaves: rows or one line of error. *)
Definition outcome_of (kw : string)
  (o : list OpportunityRow * list Message) : Prop :=
  (snd o = [] /\ Forall (fun r => row_keyword r = kw) (fst o)) \/
  (fst o = [] /\ (snd o = [HttpErrorFor kw] \/ snd o = [ErrorFor kw])).

Lemma main_loop_outcomes (fuel : nat) (args : Args)
  (keywords : list string) :
  forall (w : World) (rows : list OpportunityRow) (log : list Message)
    (rows' : list OpportunityRow) (log' : list Message) (w' : World),
    main_loop' fuel w args rows log keywords = Some (rows', log', w') ->
    exists outcomes,
      Forall2 outcome_of keywords outcomes /\
      rows' = (rows ++ List.concat (map fst outcomes))%list /\
      log' = (log ++ List.concat (map snd outcomes))%list.
Proof.
  induction keywords as [|kw rest IH]; simpl;
    intros w rows log rows' log' w' H.
  - injection H as <- <- <-. exists [].
    split; [constructor|]. simpl. rewrite !app_nil_r. auto.
  - destruct (fetch_keyword _ _ _ _ _ _ _ _ _)
      as [[[[items sold]|e] w1]|]; [| |discriminate].
    + destruct (IH _ _ _ _ _ _ H) as (outcomes & Hall & -> & ->).
      exists ((rows_of args kw items sold, []) :: outcomes).
      split; [constructor; [|exact Hall]|].
      * left. split; [reflexivity|]. simpl.
        apply rows_of_rows. intros a row Hrow.
        exact (proj1 (proj2 (compute_row_some _ _ _ _ _ _ _ _ Hrow))).
      * simpl. rewrite <- app_assoc. auto.
    + destruct (IH _ _ _ _ _ _ H) as (outcomes & Hall & -> & ->).
      exists (([], [caught kw e]) :: outcomes).
      split; [constructor; [|exact Hall]|].
      * right. split; [reflexivity|]. destruct e; simpl; auto.
      * simpl. rewrite <- app_assoc. auto.
Qed.

(** X23. Each keyword leaves rows or one line of error, never both:
    in a run that returns 0, the rows of the report and the lines printed
    on the standard error stream are, keyword by keyword and in the order
    of the keywords, either rows that carry the keyword and no line, or
    no row and one line that names the keyword. *)
Theorem main_keyword_outcomes (fuel : nat) (w : World) (keywords : string)
  (args : Args) (run : Run World) :
  main' fuel w keywords args = Some run ->
  exit_status run = 0%Z ->
  exists outcomes,
    Forall2 outcome_of (keywords_of keywords) outcomes /\
    report run = Some (List.concat (map fst outcomes)) /\
    stderr run = List.concat (map snd outcomes).
Proof.
  unfold main.
  destruct (String.eqb (app_id args) "");
    [intros H; injection H as <-; discriminate|].
  destruct (keywords_of keywords) as [|kw kws];
    [intros H; injection H as <-; discriminate|].
  destruct (main_loop' fuel w args [] [] (kw :: kws))
    as [[[rows log] w']|] eqn:E; [|discriminate].
  intros H _. injection H as <-. simpl.
  destruct (main_loop_outcomes _ _ _ _ _ _ _ _ _ E)
    as (outcomes & Hall & -> & ->).
  exists outcomes. auto.
Qed.

(** X24. The line printed tells the two kinds of failure apart: when
    the request for the active listings of a keyword fails at the HTTP
    level with [HTTPError], the loop prints the "HTTP error" line of the
    keyword; when the reply comes back but does not acknowledge, and its
    list of errors can be read, the loop prints the "Error" line; in both
    cases it goes on with the next keyword after that one request. *)
Theorem failed_keyword_line (fuel : nat) (w : World) (args : Args)
  (rows : list OpportunityRow) (log : list Message) (kw : string)
  (rest : list string) :
  let rq := active_request (app_id args) kw (active_limit args)
              (global_id args) in
  (fst (http_get w rq) = Raise HTTPError ->
   main_loop' fuel w args rows log (kw :: rest)
   = main_loop' fuel (snd (http_get w rq)) args rows
       (log ++ [HttpErrorFor kw]) rest) /\
  (forall data root ack msg,
      fst (http_get w rq) = Ok data ->
      response_root (req_operation rq) data = Ok root ->
      ack_of (req_operation rq) data = Ok ack ->
      String.eqb ack "success" || String.eqb ack "warning" = false ->
      error_message py_str root = Ok msg ->
      main_loop' fuel w args rows log (kw :: rest)
      = main_loop' fuel (snd (http_get w rq)) args rows
          (log ++ [ErrorFor kw]) rest).
Proof.
  intros rq. split.
  - intros Hget. simpl. unfold fetch_keyword, find_active. fold rq.
    unfold ebay_finding_call.
    destruct (http_get w rq) as [r w1]. simpl in Hget. subst r. reflexivity.
  - intros data root ack msg Hget Hroot Hack Hrefused Hmsg.
    pose proof (refused_call_raises World http_get py_str w rq data root ack
                  Hget Hroot Hack Hrefused) as Hraise.
    rewrite Hmsg in Hraise.
    pose proof (ebay_finding_call_world World http_get w rq) as Hw.
    simpl. unfold fetch_keyword, find_active. fold rq.
    destruct (ebay_finding_call http_get w rq) as [r w1].
    simpl in Hraise, Hw. subst r w1. reflexivity.
Qed.

Lemma main_loop_returns (bound : Z)
  (Hbound : forall w rq root w',
      ebay_finding_call http_get w rq = (Ok root, w') ->
      forall tp, total_pages_of int_of_str root = Ok tp -> (tp <= bound)%Z)
  (fuel : nat) (args : Args) (keywords : list string) :
  (bound - 1 <= Z.of_nat fuel)%Z ->
  forall (w : World) (rows : list OpportunityRow) (log : list Message),
    main_loop' fuel w args rows log keywords <> None.
Proof.
  intros Hfuel.
  induction keywords as [|kw rest IH]; simpl; intros w rows log;
    [discriminate|].
  unfold fetch_keyword.
  destruct (find_active _ _ _ _ _ _ _) as [[items|e] w1]; [|apply IH].
  pose proof (find_sold_totals_returns float_of_str int_of_str World
                http_get end_time_from sleep bound Hbound fuel w1
                (app_id args) kw (sold_limit args) (global_id args) 90
                Hfuel) as Hret.
  destruct (find_sold_totals _ _ _ _ _ _ _ _ _ _ _ _)
    as [[[[sold|e] w2] calls]|]; [apply IH | apply IH | congruence].
Qed.

(** X25. [main] comes to an end: when no reply reports more than
    [bound] pages, [bound - 1] page fetches for each keyword are enough
    fuel for the whole run. *)
Theorem main_terminates (bound : Z)
  (Hbound : forall w rq root w',
      ebay_finding_call http_get w rq = (Ok root, w') ->
      forall tp, total_pages_of int_of_str root = Ok tp -> (tp <= bound)%Z)
  (fuel : nat) (w : World) (keywords : string) (args : Args) :
  (bound - 1 <= Z.of_nat fuel)%Z ->
  exists run, main' fuel w keywords args = Some run.
Proof.
  intros Hfuel. unfold main.
  destruct (String.eqb (app_id args) ""); [eauto|].
  destruct (keywords_of keywords) as [|kw kws]; [eauto|].
  pose proof (main_loop_returns bound Hbound fuel args (kw :: kws) Hfuel
                w [] []) as Hret.
  destruct (main_loop' fuel w args [] [] (kw :: kws)) as [[[rows log] w']|];
    [eauto | congruence].
Qed.
End MainFacts.

(** A keyword option whose second piece is a no-break space and a
    space. *)
Definition sample_keywords : string :=
  "game boy," ++ utf8 160 ++ " ,denied".

Lemma main_exit_status_witness :
  exists run,
    main sample_float_of_str sample_int_of_str http_get end_time_from sleep
      5 O sample_keywords args = Some run /\
    keywords_of sample_keywords = ["game boy"; "denied"] /\
    exit_status run = 0%Z /\
    stderr run = [ErrorFor "denied"] /\
    (exit_status run = 2%Z <->
     app_id args = "" \/ keywords_of sample_keywords = []) /\
    (keywords_of sample_keywords = [] <->
     Forall blank (split_comma sample_keywords)) /\
    (exit_status run = 2%Z -> report run = None /\ world_after run = O) /\
    (exit_status run <> 2%Z ->
     exit_status run = 0%Z /\
     exists rows,
       report run = Some rows /\
       keyword_loop sample_float_of_str sample_int_of_str http_get
         end_time_from sleep 5 O args [] (keywords_of sample_keywords)
       = Some (rows, world_after run)).
Proof.
  destruct (main sample_float_of_str sample_int_of_str http_get
              end_time_from sleep 5 O sample_keywords args)
    as [run|] eqn:E; [|vm_compute in E; discriminate E].
  exists run. split; [reflexivity|].
  split; [vm_compute; reflexivity|].
  split; [vm_compute in E; injection E as <-; reflexivity|].
  split; [vm_compute in E; injection E as <-; reflexivity|].
  exact (main_exit_status sample_float_of_str sample_int_of_str World
           http_get end_time_from sleep 5 O sample_keywords args run E).
Defined.

Lemma main_terminates_witness :
  (2 - 1 <= Z.of_nat 1)%Z /\
  exists run,
    main sample_float_of_str sample_int_of_str http_get end_time_from sleep
      1 O "game boy,broken" args = Some run.
Proof.
  split; [lia|].
  apply (main_terminates sample_float_of_str sample_int_of_str World
           http_get end_time_from sleep 2 sample_total_pages).
  lia.
Defined.

Lemma main_keyword_outcomes_witness :
  let keywords := utf8 160 ++ "game boy,broken" in
  exists run outcomes,
    main sample_float_of_str sample_int_of_str http_get end_time_from sleep
      5 O keywords args = Some run /\
    keywords_of keywords = ["game boy"; "broken"] /\
    exit_status run = 0%Z /\
    stderr run = [HttpErrorFor "broken"] /\
    Forall2 outcome_of (keywords_of keywords) outcomes /\
    report run = Some (List.concat (map fst outcomes)) /\
    stderr run = List.concat (map snd outcomes).
Proof.
  intros keywords.
  destruct (main sample_float_of_str sample_int_of_str http_get
              end_time_from sleep 5 O keywords args)
    as [run|] eqn:E; [|vm_compute in E; discriminate E].
  assert (H0 : exit_status run = 0%Z)
    by (vm_compute in E; injection E as <-; reflexivity).
  destruct (main_keyword_outcomes sample_float_of_str sample_int_of_str
              World http_get end_time_from sleep 5 O keywords args
              run E H0) as (outcomes & Hall & Hrep & Herr).
  exists run, outcomes. split; [reflexivity|].
  split; [vm_compute; reflexivity|]. split; [exact H0|].
  split; [vm_compute in E; injection E as <-; reflexivity|].
  auto.
Defined.

Lemma failed_keyword_line_witness :
  let rq := active_request (app_id args) "broken" (active_limit args)
              (global_id args) in
  fst (http_get O rq) = Raise HTTPError /\
  main_loop sample_float_of_str sample_int_of_str http_get end_time_from
    sleep 5 O args [] [] ["broken"; "game boy"]
  = main_loop sample_float_of_str sample_int_of_str http_get end_time_from
      sleep 5 (snd (http_get O rq)) args [] ([] ++ [HttpErrorFor "broken"])
      ["game boy"].
Proof.
  intros rq. split; [reflexivity|].
  apply (proj1 (failed_keyword_line sample_float_of_str sample_int_of_str
                  World http_get end_time_from sleep sample_py_str 5 O args
                  [] [] "broken" ["game boy"])).
  reflexivity.
Defined.

(** A network that is down. *)
Definition down_get (w : World) (rq : Request) : result pyval * World :=
  (Raise HTTPError, S w).

Lemma main_survives_outage_witness :
  (forall w rq, call_fails World down_get w rq = true) /\
  app_id args <> "" /\
  keywords_of "lego, game boy" <> [] /\
  exists run,
    main sample_float_of_str sample_int_of_str down_get end_time_from sleep
      0 O "lego, game boy" args = Some run /\
    exit_status run = 0%Z /\
    report run = Some [] /\
    Forall2 (fun kw m => m = HttpErrorFor kw \/ m = ErrorFor kw)
      (keywords_of "lego, game boy") (stderr run).
Proof.
  assert (Hdown : forall w rq, call_fails World down_get w rq = true)
    by (intros w rq; reflexivity).
  assert (Happ : app_id args <> "") by discriminate.
  assert (Hkw : keywords_of "lego, game boy" <> []) by discriminate.
  split; [exact Hdown|]. split; [exact Happ|]. split; [exact Hkw|].
  exact (main_survives_outage sample_float_of_str sample_int_of_str World
           down_get end_time_from sleep 0 O "lego, game boy" args
           Hdown Happ Hkw).
Defined.

End MainFacts.

(* ================================================================= *)
(** * Acceptance and the outbound shipping cost *)

Module ShippingFacts.
Import F64 F64Facts Py PyFacts Estimator EstimatorFacts Binary64
  Binary64Order.
Open Scope string_scope.
Open Scope float_scope.

(** The two tests of [compute_row], for a profit [Y - so - b] and a
    margin [(Y - so - b) / b], pass at a lower outbound shipping cost when
    they pass at [so']. *)
Lemma tests_monotone_in_shipping (Y so so' b : float) :
  (0 <? b) = true -> (so <=? so') = true ->
  (Y - so' - b <? MIN_PROFIT_GBP) = false ->
  ((Y - so' - b) / b <? MIN_MARGIN) = false ->
  (Y - so - b <? MIN_PROFIT_GBP) = false /\
  ((Y - so - b) / b <? MIN_MARGIN) = false.
Proof.
  intros Hb Hso Hp Hq.
  rewrite ltb_spec in Hb, Hp, Hq. rewrite leb_spec in Hso.
  rewrite !ltb_spec.
  rewrite div_spec, !sub_spec in Hq. rewrite !sub_spec in Hp.
  rewrite !div_spec, !sub_spec.
  change (Prim2SF 0) with (S754_zero false) in Hb.
  apply (shipping_mono (Prim2SF Y) (Prim2SF so) (Prim2SF so') (Prim2SF b)
           (Prim2SF MIN_PROFIT_GBP) (Prim2SF MIN_MARGIN));
    try apply Prim2SF_valid; try assumption.
  - rewrite <- sub_spec. apply Prim2SF_valid.
  - rewrite <- sub_spec. apply Prim2SF_valid.
  - rewrite <- !sub_spec. apply Prim2SF_valid.
  - rewrite <- !sub_spec. apply Prim2SF_valid.
  - rewrite <- !sub_spec, <- div_spec. apply Prim2SF_valid.
  - rewrite <- !sub_spec, <- div_spec. apply Prim2SF_valid.
  - vm_compute. reflexivity.
Qed.

(** X26. For a fixed listing, sold sample and fee rates, a listing
    that [compute_row] accepts at an outbound shipping cost [so'] is
    accepted at every lower cost [so <= so']: raising the cost never
    turns a rejected listing into an accepted one. *)
Theorem acceptance_antitone_in_shipping_out (kw : string)
  (a : ActiveListing) (sold : list float) (r1 r2 fx so so' : float) :
  (so <=? so') = true ->
  compute_row kw a sold r1 r2 fx so' <> None ->
  compute_row kw a sold r1 r2 fx so <> None.
Proof.
  intros Hso Hacc.
  destruct (median sold) as [med|] eqn:Hmed.
  - apply (compute_row_accepts kw a sold r1 r2 fx so' med Hmed) in Hacc.
    apply (compute_row_accepts kw a sold r1 r2 fx so med Hmed).
    cbv zeta in Hacc |- *.
    unfold margin, gtb in Hacc |- *.
    destruct (0 <? active_buy_price_gbp a) eqn:Hb.
    + unfold expected_profit in Hacc |- *.
      destruct Hacc as [Hp Hq].
      exact (tests_monotone_in_shipping _ _ _ _ Hb Hso Hp Hq).
    + destruct Hacc as [_ Hq]. vm_compute in Hq. discriminate Hq.
  - exfalso. apply Hacc. unfold compute_row. rewrite Hmed.
    destruct (Nat.eqb (List.length sold) 0); reflexivity.
Qed.

Lemma acceptance_antitone_in_shipping_out_witness :
  let a := listing 20 0 in
  (2.95 <=? 4.50) = true /\
  compute_row "game boy" a [80; 85; 90] 0.128 0.029 0.30 4.50 <> None /\
  compute_row "game boy" a [80; 85; 90] 0.128 0.029 0.30 2.95 <> None.
Proof.
  intros a.
  assert (Hacc : compute_row "game boy" a [80; 85; 90] 0.128 0.029 0.30 4.50
                 <> None) by (vm_compute; discriminate).
  split; [reflexivity|]. split; [exact Hacc|].
  exact (acceptance_antitone_in_shipping_out "game boy" a [80; 85; 90]
           0.128 0.029 0.30 2.95 4.50 eq_refl Hacc).
Defined.

End ShippingFacts.

(* ================================================================= *)
(** * The thresholds on the rows as they are written *)

Module ReportedBounds.
Import F64 F64Facts Py PyFacts Estimator EstimatorFacts Binary64
  Binary64Order Binary64Round.
Open Scope string_scope.
Open Scope float_scope.

Lemma Prim2SF_25 : Prim2SF 25.0 = S754_finite false 7036874417766400 (-48).
Proof. reflexivity. Qed.

Lemma xulps_25 : xulps (Prim2SF 25.0) = ulps_25.
Proof.
  rewrite Prim2SF_25. cbn [xulps]. unfold ulps_25.
  change (-48 + 1074)%Z with 1026%Z. change 1074%Z with (48 + 1026)%Z.
  rewrite Z.pow_add_r by lia.
  change (Zpos 7036874417766400) with (25 * 2 ^ 48)%Z. ring.
Qed.

(** A value that is not below 25.0: NaN, or a number from 25.0 up. *)
Lemma not_below_25 (x : float) :
  (x <? 25.0) = false <->
  Prim2SF x = S754_nan \/
  (Prim2SF x <> S754_nan /\ (ulps_25 <= xulps (Prim2SF x))%Z).
Proof.
  rewrite ltb_spec.
  destruct (nan_dec (Prim2SF x)) as [E|N].
  - rewrite E. split; [auto | reflexivity].
  - rewrite (SFltb_false_xulps _ _ (Prim2SF_valid x) (Prim2SF_valid 25.0) N)
      by (rewrite Prim2SF_25; discriminate).
    rewrite xulps_25. split; [auto|]. intros [H|[_ H]]; [contradiction|exact H].
Qed.

(** [round] keeps a value that is not below 25.0 at or above 25.0. *)
Lemma round_ndigits_not_below (x : float) (n : Z) :
  (0 <= n)%Z -> (x <? 25.0) = false -> (round_ndigits x n <? 25.0) = false.
Proof.
  intros Hn Hx. unfold round_ndigits.
  destruct (Prim2SF x) as [s|s| |s m e] eqn:E; try exact Hx.
  apply not_below_25 in Hx. rewrite E in Hx.
  destruct Hx as [Hx|[_ Hx]]; [discriminate|].
  pose proof (Prim2SF_valid x) as Hv. rewrite E in Hv.
  destruct (valid_finite s m e Hv) as (He & _).
  pose proof (magnitude_bounds s m e Hv) as Hmag. unfold magnitude in Hmag.
  assert (H25 : (0 < ulps_25)%Z)
    by (unfold ulps_25; pose proof (pow2_pos 1074 ltac:(lia)); lia).
  cbn [xulps] in Hx. destruct s; [lia|].
  apply not_below_25. right.
  apply decimal_at_least_25; [exact Hn|].
  apply scaled_digits_25; [lia | exact Hn | exact Hx].
Qed.


Lemma Prim2SF_100 : Prim2SF 100 = S754_finite false 7036874417766400 (-46).
Proof. reflexivity. Qed.

Lemma Prim2SF_quarter : Prim2SF 0.25 = S754_finite false 4503599627370496 (-54).
Proof. reflexivity. Qed.

(** A margin that is not below 0.25 gives a percentage that is not
    below 25.0. *)
Lemma percent_not_below (mg : float) :
  (mg <? MIN_MARGIN) = false -> (mg * 100 <? 25.0) = false.
Proof.
  intros Hmg. apply not_below_25. rewrite mul_spec, Prim2SF_100.
  rewrite ltb_spec in Hmg.
  destruct (Prim2SF mg) as [s|s| |s m e] eqn:E.
  - discriminate Hmg.
  - destruct s; [discriminate Hmg|]. right.
    split; [discriminate|]. cbn. unfold ulps_25.
    change top with (2 ^ 1024 * 2 ^ 1074)%Z.
    pose proof (pow2_pos 1074 ltac:(lia)).
    assert (25 <= 2 ^ 1024)%Z by (change 25%Z with (25 * 2 ^ 0)%Z;
      transitivity (2 ^ 5)%Z; [cbn; lia | apply pow2_le; lia]).
    nia.
  - left. reflexivity.
  - pose proof (Prim2SF_valid mg) as Hv. rewrite E in Hv.
    assert (Hq : valid_binary (Prim2SF 0.25) = true) by apply Prim2SF_valid.
    apply (SFltb_false_xulps _ _ Hv Hq) in Hmg;
      [|discriminate | rewrite Prim2SF_quarter; discriminate].
    rewrite Prim2SF_quarter in Hmg. cbn [xulps] in Hmg.
    change (-54 + 1074)%Z with 1020%Z in Hmg.
    change (Zpos 4503599627370496) with (2 ^ 52)%Z in Hmg.
    rewrite <- Z.pow_add_r in Hmg by lia. change (52 + 1020)%Z with 1072%Z in Hmg.
    destruct (valid_finite s m e Hv) as (He & Hm & _).
    pose proof (pow2_pos (e + 1074) ltac:(lia)) as Hpe.
    pose proof (pow2_pos 1072 ltac:(lia)) as H1072.
    destruct s; [lia|].
    assert (H100 : valid_binary (S754_finite false 7036874417766400 (-46))
                   = true) by reflexivity.
    destruct (SFmul_normal_value false false m 7036874417766400 e (-46)
                Hv H100 ltac:(cbn; lia)) as [Hn Hval].
    right. split; [exact Hn|]. rewrite Hval. cbn [xorb signed].
    rewrite <- rnd_ulps_25.
    (* the exponent is far above the smallest one *)
    assert (Hbig : (46 <= e + 1074)%Z).
    { destruct (Z.le_gt_cases 46 (e + 1074)) as [H|H]; [exact H|exfalso].
      pose proof (pow2_le (e + 1074) 45 ltac:(lia) ltac:(lia)) as Hle.
      assert (Zpos m * 2 ^ (e + 1074) < 2 ^ 53 * 2 ^ 45)%Z by nia.
      assert (2 ^ 53 * 2 ^ 45 <= 2 ^ 1072)%Z
        by (rewrite <- Z.pow_add_r by lia; apply pow2_le; lia).
      lia. }
    set (j := (e + -46 + 1074)%Z).
    assert (Hj : (0 <= j)%Z) by (unfold j; lia).
    pose proof (pow2_pos j Hj) as Hpj.
    assert (Hsplit : (2 ^ (e + 1074) = 2 ^ j * 2 ^ 46)%Z).
    { rewrite <- Z.pow_add_r by lia. f_equal. unfold j. lia. }
    unfold scale_num, scale_den.
    rewrite (Z.max_r 0 j), (Z.max_l 0 (- j)) by lia.
    change (2 ^ 0)%Z with 1%Z.
    apply rnd_ulps_mono;
      [ unfold ulps_25; pose proof (pow2_pos 1074 ltac:(lia)); lia
      | lia
      | apply Z.mul_nonneg_nonneg; [apply Z.mul_nonneg_nonneg|]; lia
      | lia
      | ].
    unfold ulps_25.
    change (Zpos 7036874417766400) with (25 * 2 ^ 48)%Z.
    change (2 ^ 1074)%Z with (4 * 2 ^ 1072)%Z.
    change (2 ^ 48)%Z with (4 * 2 ^ 46)%Z.
    rewrite Hsplit in Hmg. nia.
Qed.

(** X27. The thresholds hold on the rows as they are written: in
    every row [compute_row] returns, the expected profit rounded to 2
    decimals is not below 25.0, and the margin in percent rounded to 1
    decimal is not below 25.0. *)
Theorem accepted_row_shows_bounds (kw : string) (a : ActiveListing)
  (sold : list float) (r1 r2 fx so : float) (row : OpportunityRow) :
  compute_row kw a sold r1 r2 fx so = Some row ->
  (row_expected_profit_gbp row <? MIN_PROFIT_GBP) = false /\
  (row_margin_percent row <? 25.0) = false.
Proof.
  unfold compute_row.
  destruct (Nat.eqb (List.length sold) 0); [discriminate|].
  destruct (median sold) as [med|]; [|discriminate].
  destruct (_ <? MIN_PROFIT_GBP) eqn:Hp; [discriminate|].
  destruct (_ <? MIN_MARGIN) eqn:Hm; [discriminate|].
  intros H. injection H as <-. cbn [row_expected_profit_gbp row_margin_percent].
  split.
  - apply round_ndigits_not_below; [lia | exact Hp].
  - apply round_ndigits_not_below; [lia|].
    apply percent_not_below. exact Hm.
Qed.

Lemma accepted_row_shows_bounds_witness :
  exists row,
    compute_row "game boy" (listing 20 0) [80; 85; 90] 0.128 0.029 0.30 4.50
    = Some row /\
    (row_expected_profit_gbp row <? MIN_PROFIT_GBP) = false /\
    (row_margin_percent row <? 25.0) = false.
Proof.
  eexists. split; [vm_compute; reflexivity|].
  apply (accepted_row_shows_bounds "game boy" (listing 20 0) [80; 85; 90]
           0.128 0.029 0.30 4.50).
  vm_compute. reflexivity.
Defined.

End ReportedBounds.

(* ================================================================= *)
(** * The order of the sold sample *)

Module SampleOrder.
Import F64 F64Facts Py PyFacts Estimator EstimatorFacts Binary64
  Binary64Order.
Open Scope string_scope.
Open Scope float_scope.

(** The value of a double, in units of the last place. *)
Definition key (x : float) : Z := xulps (Prim2SF x).

(** A number other than zero (and so not NaN). *)
Definition nonzero (x : float) : Prop := (x <? 0) || (0 <? x) = true.

Lemma nonzero_key (x : float) :
  nonzero x -> Prim2SF x <> S754_nan /\ key x <> 0%Z.
Proof.
  unfold nonzero, key. rewrite !ltb_spec.
  change (Prim2SF 0) with (S754_zero false).
  pose proof (Prim2SF_valid x) as Hv. intros H.
  apply orb_true_iff in H. destruct H as [H|H].
  - destruct (SFltb_true_xulps (Prim2SF x) (S754_zero false) Hv eq_refl H)
      as (N & _ & Hlt).
    cbn [xulps] in Hlt. split; [exact N | lia].
  - destruct (SFltb_true_xulps (S754_zero false) (Prim2SF x) eq_refl Hv H)
      as (_ & N & Hlt).
    cbn [xulps] in Hlt. split; [exact N | lia].
Qed.

(** On numbers, [<] is the order of the values. *)
Lemma ltb_key (x y : float) :
  nonzero x -> nonzero y -> (x <? y) = (key x <? key y)%Z.
Proof.
  intros Hx Hy. destruct (nonzero_key x Hx) as [Nx _].
  destruct (nonzero_key y Hy) as [Ny _].
  unfold key. rewrite ltb_spec.
  pose proof (Prim2SF_valid x) as Vx. pose proof (Prim2SF_valid y) as Vy.
  destruct (SFltb (Prim2SF x) (Prim2SF y)) eqn:E.
  - destruct (SFltb_true_xulps _ _ Vx Vy E) as (_ & _ & Hlt).
    symmetry. apply Z.ltb_lt. exact Hlt.
  - apply (SFltb_false_xulps _ _ Vx Vy Nx Ny) in E.
    symmetry. apply Z.ltb_ge. exact E.
Qed.

(** Two numbers other than zero with one value are one double. *)
Lemma xulps_inj (x y : spec_float) :
  valid_binary x = true -> valid_binary y = true ->
  x <> S754_nan -> y <> S754_nan ->
  xulps x <> 0%Z -> xulps x = xulps y -> x = y.
Proof.
  intros Vx Vy Nx Ny H0 Heq. pose proof top_pos as Htop.
  destruct x as [sx|sx| |sx mx ex]; try congruence;
    try (cbn [xulps] in H0; lia);
    destruct y as [sy|sy| |sy my ey]; try congruence;
    try (pose proof (magnitude_bounds _ _ _ Vx) as Bx; unfold magnitude in Bx);
    try (pose proof (magnitude_bounds _ _ _ Vy) as By; unfold magnitude in By);
    cbn [xulps] in Heq, H0.
  - destruct sx, sy; lia.
  - destruct sx, sy; try lia; reflexivity.
  - destruct sx, sy; lia.
  - destruct sx, sy; lia.
  - destruct sx, sy; lia.
  - assert (Hs : sx = sy) by (destruct sx, sy; try reflexivity; lia).
    subst sy.
    assert (Hm : magnitude mx ex = magnitude my ey)
      by (unfold magnitude; destruct sx; lia).
    pose proof (magnitude_compare sx sx mx my ex ey Vx Vy) as Hc.
    rewrite Hm, Z.compare_refl in Hc.
    destruct (Z.compare_spec ex ey) as [He|He|He]; try discriminate Hc.
    subst ey. apply Pos.compare_eq in Hc. subst my. reflexivity.
Qed.

Lemma key_inj (x y : float) :
  nonzero x -> nonzero y -> key x = key y -> x = y.
Proof.
  intros Hx Hy Heq.
  destruct (nonzero_key x Hx) as [Nx Kx].
  destruct (nonzero_key y Hy) as [Ny _].
  rewrite <- (SF2Prim_Prim2SF x), <- (SF2Prim_Prim2SF y). f_equal.
  apply xulps_inj; try apply Prim2SF_valid; assumption.
Qed.

(** Two insertions can be made in either order. *)
Lemma insort_swap (x y : float) (l : list float) :
  nonzero x -> nonzero y -> Forall nonzero l ->
  insort x (insort y l) = insort y (insort x l).
Proof.
  intros Hx Hy Hl. induction Hl as [|z l Hz Hl IH]; simpl.
  - rewrite (ltb_key x y Hx Hy), (ltb_key y x Hy Hx).
    destruct (Z.ltb_spec (key x) (key y)), (Z.ltb_spec (key y) (key x));
      try reflexivity; try lia.
    assert (x = y) by (apply key_inj; [assumption | assumption | lia]).
    subst. reflexivity.
  - rewrite (ltb_key y z Hy Hz), (ltb_key x z Hx Hz).
    destruct (Z.ltb_spec (key y) (key z)) as [Hyz|Hyz],
             (Z.ltb_spec (key x) (key z)) as [Hxz|Hxz]; simpl;
      rewrite ?(ltb_key x y Hx Hy), ?(ltb_key y x Hy Hx),
        ?(ltb_key x z Hx Hz), ?(ltb_key y z Hy Hz).
    + destruct (Z.ltb_spec (key x) (key y)), (Z.ltb_spec (key y) (key x)),
        (Z.ltb_spec (key x) (key z)), (Z.ltb_spec (key y) (key z));
        try reflexivity; try lia.
      assert (x = y) by (apply key_inj; [assumption | assumption | lia]).
      subst. reflexivity.
    + destruct (Z.ltb_spec (key x) (key y)), (Z.ltb_spec (key x) (key z)),
        (Z.ltb_spec (key y) (key z)); try reflexivity; lia.
    + destruct (Z.ltb_spec (key y) (key x)), (Z.ltb_spec (key x) (key z)),
        (Z.ltb_spec (key y) (key z)); try reflexivity; lia.
    + destruct (Z.ltb_spec (key x) (key z)), (Z.ltb_spec (key y) (key z));
        try lia.
      rewrite IH. reflexivity.
Qed.

Lemma insort_nonzero (x : float) (l : list float) :
  nonzero x -> Forall nonzero l -> Forall nonzero (insort x l).
Proof.
  intros Hx Hl.
  apply (Permutation_Forall (insort_perm x l)). constructor; assumption.
Qed.

Lemma fold_insort_permutation (l l' : list float) :
  Permutation l l' -> Forall nonzero l ->
  forall acc, Forall nonzero acc ->
    fold_left (fun a x => insort x a) l acc
    = fold_left (fun a x => insort x a) l' acc.
Proof.
  induction 1 as [|x l l' Hp IH|x y l|l l' l'' Hp1 IH1 Hp2 IH2];
    intros Hl acc Hacc; simpl.
  - reflexivity.
  - inversion Hl; subst. apply IH; [assumption|].
    apply insort_nonzero; assumption.
  - inversion Hl as [|? ? Hy Hl']; subst. inversion Hl' as [|? ? Hx Hl'']; subst.
    rewrite (insort_swap x y acc Hx Hy Hacc). reflexivity.
  - rewrite (IH1 Hl acc Hacc). apply IH2; [|exact Hacc].
    exact (Permutation_Forall Hp1 Hl).
Qed.

Lemma sorted_permutation (l l' : list float) :
  Permutation l l' -> Forall nonzero l -> sorted l = sorted l'.
Proof.
  intros Hp Hl. unfold sorted.
  apply fold_insort_permutation; [exact Hp | exact Hl | constructor].
Qed.

(** X28. The order of the sold totals does not matter: for sold
    totals that are numbers other than zero, [compute_row] returns the
    same row, or no row, for every rearrangement of the sample. *)
Theorem compute_row_order_independent (kw : string) (a : ActiveListing)
  (sold sold' : list float) (r1 r2 fx so : float) :
  Permutation sold sold' -> Forall nonzero sold ->
  compute_row kw a sold r1 r2 fx so = compute_row kw a sold' r1 r2 fx so.
Proof.
  intros Hp Hl. unfold compute_row, median.
  rewrite (sorted_permutation sold sold' Hp Hl).
  rewrite (Permutation_length Hp). reflexivity.
Qed.

Lemma compute_row_order_independent_witness :
  Permutation [80; 85; 90] [90; 80; 85] /\
  Forall nonzero [80; 85; 90] /\
  compute_row "game boy" (listing 20 0) [80; 85; 90] 0.128 0.029 0.30 4.50
  = compute_row "game boy" (listing 20 0) [90; 80; 85] 0.128 0.029 0.30 4.50.
Proof.
  assert (Hp : Permutation [80; 85; 90] [90; 80; 85]).
  { apply perm_trans with [80; 90; 85].
    - apply perm_skip. apply perm_swap.
    - apply perm_swap. }
  assert (Hl : Forall nonzero [80; 85; 90])
    by (repeat constructor).
  split; [exact Hp|]. split; [exact Hl|].
  exact (compute_row_order_independent "game boy" (listing 20 0)
           [80; 85; 90] [90; 80; 85] 0.128 0.029 0.30 4.50 Hp Hl).
Defined.

End SampleOrder.
